(** * HubSpot CSV integration: the synchronization engine

    A shallow embedding of [src/core/processor.js] (class
    [HighPerformanceProcessor]), [src/core/oauth-client.js] (class
    [HighPerformanceOAuthClient]) and [src/core/integration.js] (class
    [HighPerformanceIntegration]), and the properties of the engine
    proved or refuted on it. *)

From Stdlib Require Import ZArith NArith List String Ascii Bool Lia DecimalString.
From stdpp Require Import base list gmap strings.

Local Open Scope N_scope.

(** ** JavaScript values used by the engine *)

Module JS.

(** A JavaScript string is a sequence of UTF-16 code units. *)
Abbreviation jsstring := (list N).

(** A string literal of the source (ASCII), as code units. *)
Fixpoint str (s : string) : jsstring :=
  match s with
  | EmptyString => []
  | String a s' => N_of_ascii a :: str s'
  end.

(** The code units matched by [\s] in a regular expression, which are also
    the ones removed by [String.prototype.trim] and skipped by [parseInt]:
    WhiteSpace and LineTerminator of ECMAScript. *)
Definition is_space (c : N) : bool :=
  ((9 <=? c) && (c <=? 13)) || (c =? 32) || (c =? 160) || (c =? 0x1680)
  || ((0x2000 <=? c) && (c <=? 0x200a)) || (c =? 0x2028) || (c =? 0x2029)
  || (c =? 0x202f) || (c =? 0x205f) || (c =? 0x3000) || (c =? 0xfeff).

Fixpoint trimStart (s : jsstring) : jsstring :=
  match s with
  | [] => []
  | c :: s' => if is_space c then trimStart s' else s
  end.

Definition trimEnd (s : jsstring) : jsstring := rev (trimStart (rev s)).

(** [String.prototype.trim] *)
Definition trim (s : jsstring) : jsstring := trimEnd (trimStart s).

(** [String.prototype.toLowerCase] on the ASCII letters.  The engine only
    compares the result with the literal ['true']; no code unit outside
    ASCII lower-cases to one of [t], [r], [u], [e], so leaving the other
    code units alone does not change that comparison. *)
Definition lowerUnit (c : N) : N :=
  if (65 <=? c) && (c <=? 90) then c + 32 else c.

Definition toLowerCase (s : jsstring) : jsstring := map lowerUnit s.

(** The values that reach the payload objects. [VInherited k] is the member
    [k] of [Object.prototype] (a function, or the prototype object itself
    for [__proto__]) read through the prototype chain of a plain object: it
    is not a string and it is truthy. *)
Inductive value : Type :=
| VUndefined
| VBool (b : bool)
| VNumber (z : Z)
| VString (s : jsstring)
| VInherited (key : jsstring).

#[global] Instance value_eq_dec : EqDecision value.
Proof. solve_decision. Defined.

(** ToBoolean *)
Definition truthy (v : value) : bool :=
  match v with
  | VUndefined => false
  | VBool b => b
  | VNumber z => negb (z =? 0)%Z
  | VString s => match s with [] => false | _ => true end
  | VInherited _ => true
  end.

(** A plain object: its own properties in insertion order. *)
Definition obj : Type := list (jsstring * value).

(** The property names of [Object.prototype], which every object created by
    an object literal inherits. *)
Definition objectPrototypeKeys : list jsstring :=
  map str
    [ "constructor"; "__defineGetter__"; "__defineSetter__"; "hasOwnProperty";
      "__lookupGetter__"; "__lookupSetter__"; "isPrototypeOf";
      "propertyIsEnumerable"; "toString"; "valueOf"; "__proto__";
      "toLocaleString" ]%string.

Fixpoint getOwn (k : jsstring) (o : obj) : option value :=
  match o with
  | [] => None
  | (k', v) :: o' => if bool_decide (k' = k) then Some v else getOwn k o'
  end.

(** Property read [o[k]]: own property first, then the prototype. *)
Definition get (o : obj) (k : jsstring) : value :=
  match getOwn k o with
  | Some v => v
  | None => if bool_decide (k ∈ objectPrototypeKeys) then VInherited k
            else VUndefined
  end.

(** [a || b] *)
Definition or_else (a b : value) : value := if truthy a then a else b.

(** *** parseInt *)

(** The result of [parseInt]: NaN or an integer.  JavaScript numbers are
    doubles; they represent integers exactly up to 2^53 in absolute value,
    which is the range in which this model is exact. *)
Inductive number : Type :=
| NaN
| Int (z : Z).

Definition digitValue (c : N) : option Z :=
  if (48 <=? c) && (c <=? 57) then Some (Z.of_N (c - 48))
  else if (97 <=? c) && (c <=? 122) then Some (Z.of_N (c - 97 + 10))
  else if (65 <=? c) && (c <=? 90) then Some (Z.of_N (c - 65 + 10))
  else None.

(** The digit of [c] in radix [R], if it is one. *)
Definition radixDigit (R : Z) (c : N) : option Z :=
  match digitValue c with
  | Some d => if (d <? R)%Z then Some d else None
  | None => None
  end.

(** The longest prefix of [s] made of radix-[R] digits, as digit values. *)
Fixpoint digitPrefix (R : Z) (s : jsstring) : list Z :=
  match s with
  | [] => []
  | c :: s' => match radixDigit R c with
               | Some d => d :: digitPrefix R s'
               | None => []
               end
  end.

Definition mathInt (R : Z) (ds : list Z) : Z :=
  fold_left (fun acc d => (acc * R + d)%Z) ds 0%Z.

Definition parseDigits (R : Z) (sign : Z) (s : jsstring) : number :=
  match digitPrefix R s with
  | [] => NaN
  | ds => Int (sign * mathInt R ds)
  end.

(** Steps 3-5 of [parseInt]: the sign and what follows it. *)
Definition splitSign (s : jsstring) : Z * jsstring :=
  match s with
  | 45 :: s' => ((-1)%Z, s')
  | 43 :: s' => (1%Z, s')
  | _ => (1%Z, s)
  end.

(** [parseInt(s)] with no radix argument: leading white space is skipped,
    a sign is read, a [0x] or [0X] prefix selects radix 16, otherwise the
    radix is 10. *)
Definition parseInt (s : jsstring) : number :=
  let '(sign, s1) := splitSign (trimStart s) in
  match s1 with
  | 48 :: 120 :: s2 => parseDigits 16 sign s2
  | 48 :: 88 :: s2 => parseDigits 16 sign s2
  | _ => parseDigits 10 sign s1
  end.

(** [parseInt(s, 10)]: the base-10 integer parse. *)
Definition parseInt10 (s : jsstring) : number :=
  let '(sign, s1) := splitSign (trimStart s) in
  parseDigits 10 sign s1.

(** [parseInt(s, 16)]: the base-16 parse, which also skips a [0x] or [0X]
    prefix. *)
Definition parseInt16 (s : jsstring) : number :=
  let '(sign, s1) := splitSign (trimStart s) in
  match s1 with
  | 48 :: 120 :: s2 => parseDigits 16 sign s2
  | 48 :: 88 :: s2 => parseDigits 16 sign s2
  | _ => parseDigits 16 sign s1
  end.

(** Whether [s] starts, after white space and a sign, with [0x] or [0X]. *)
Definition hexPrefixed (s : jsstring) : bool :=
  match snd (splitSign (trimStart s)) with
  | 48 :: 120 :: _ => true
  | 48 :: 88 :: _ => true
  | _ => false
  end.

(** [n || 0] for a number [n]: NaN and 0 are falsy. *)
Definition orZero (n : number) : Z :=
  match n with
  | NaN => 0%Z
  | Int z => z
  end.

End JS.

Import JS.

(** ** The processor ([src/core/processor.js]) *)

Module Processor.

(** A parsed CSV line.  [None] is a column that the line does not have
    ([undefined] when read). *)
Record Row : Type := mkRow {
  user_id : option jsstring;
  email : option jsstring;
  user_type : option jsstring;
  active_sub : option jsstring;
  weekly_sub_count : option jsstring;
  monthly_sub_count : option jsstring;
  daily_sub_count : option jsstring
}.

#[global] Instance Row_eq_dec : EqDecision Row.
Proof. solve_decision. Defined.

Definition ofField (f : option jsstring) : value :=
  match f with
  | Some s => VString s
  | None => VUndefined
  end.

(** ToString of a field, as [parseInt] and property keys apply it. *)
Definition fieldToString (f : option jsstring) : jsstring :=
  match f with
  | Some s => s
  | None => str "undefined"
  end.

(** [row[field]] *)
Definition rowGet (row : Row) (field : string) : option jsstring :=
  if String.eqb field "user_id" then user_id row
  else if String.eqb field "email" then email row
  else if String.eqb field "user_type" then user_type row
  else if String.eqb field "active_sub" then active_sub row
  else if String.eqb field "weekly_sub_count" then weekly_sub_count row
  else if String.eqb field "monthly_sub_count" then monthly_sub_count row
  else if String.eqb field "daily_sub_count" then daily_sub_count row
  else None.

(** [convertToBoolean] on a row field: a string or [undefined]. *)
Definition convertToBoolean (f : option jsstring) : bool :=
  match f with
  | Some s => bool_decide (toLowerCase s = str "true") || bool_decide (s = str "1")
  | None => false
  end.

Definition accountTypeMapping : obj :=
  [ (str "MP", VString (str "MP")); (str "WIX", VString (str "USAMPS")) ].

(** [mapAccountType]: [accountTypeMapping[userType] || userType] *)
Definition mapAccountType (userType : option jsstring) : value :=
  or_else (get accountTypeMapping (fieldToString userType)) (ofField userType).

(** The loop of [mapContactFields] and [mapAccountFields] that copies the
    properties that are not [undefined], [null] or [''], trimming strings. *)
Fixpoint cleaned (mapping : obj) : obj :=
  match mapping with
  | [] => []
  | (k, v) :: rest =>
      match v with
      | VUndefined => cleaned rest
      | VString [] => cleaned rest
      | VString s => (k, VString (trim s)) :: cleaned rest
      | _ => (k, v) :: cleaned rest
      end
  end.

Definition boolString (b : bool) : value :=
  VString (str (if b then "true" else "false")).

(** [parseInt(row.field) || 0].  [parseInt] returns a double: the value here
    is the integer that the digits denote, which is what the code computes
    when that integer is at most 2^53 in absolute value ([exactCount]
    below); the statements about counts are made in that range. *)
Definition parseCount (f : option jsstring) : value :=
  VNumber (orZero (parseInt (fieldToString f))).

Definition contactMapping (row : Row) : obj :=
  [ (str "email", ofField (email row));
    (str "user_type", mapAccountType (user_type row)) ].

Definition mapContactFields (row : Row) : obj := cleaned (contactMapping row).

Definition accountMapping (row : Row) : obj :=
  [ (str "id", ofField (user_id row));
    (str "account_type", mapAccountType (user_type row));
    (str "active_subscription", boolString (convertToBoolean (active_sub row)));
    (str "weekly_subscriptions", parseCount (weekly_sub_count row));
    (str "monthly_subscriptions", parseCount (monthly_sub_count row));
    (str "daily_subscriptions", parseCount (daily_sub_count row));
    (str "ever_had_subscription", boolString (convertToBoolean (active_sub row))) ].

(** [mapAccountFields]: the cleaned account, or [null] ([None]) when it has
    no truthy [id]. *)
Definition mapAccountFields (row : Row) : option obj :=
  let cleanedAccount := cleaned (accountMapping row) in
  if truthy (get cleanedAccount (str "id")) then Some cleanedAccount else None.

(** *** Validation *)

(** The character class [[^\s@]] of the e-mail pattern. *)
Definition emailClass (c : N) : bool := negb (is_space c) && negb (c =? 64).

(** What the pattern [/^[^\s@]+@[^\s@]+\.[^\s@]+$/] accepts: a non-empty
    local part, [@], and a domain with a dot that has a non-empty run of the
    class on both sides. *)
Definition matchesEmail (s : jsstring) : Prop :=
  ∃ a b c : jsstring,
    s = a ++ 64 :: b ++ 46 :: c ∧
    a ≠ [] ∧ b ≠ [] ∧ c ≠ [] ∧
    forallb emailClass a = true ∧ forallb emailClass b = true ∧
    forallb emailClass c = true.

(** The longest prefix of class characters, and the rest. *)
Fixpoint spanClass (s : jsstring) : jsstring * jsstring :=
  match s with
  | [] => ([], [])
  | c :: s' =>
      if emailClass c then let '(a, r) := spanClass s' in (c :: a, r)
      else ([], s)
  end.

(** A dot that is neither the first nor the last character. *)
Definition hasInnerDot (d : jsstring) : bool :=
  match d with
  | [] => false
  | _ :: d' => existsb (N.eqb 46) (removelast d')
  end.

(** [isValidEmail]: the test of the pattern, as the matcher decides it. *)
Definition isValidEmail (s : jsstring) : bool :=
  match spanClass s with
  | (_ :: _, 64 :: d) => forallb emailClass d && hasInnerDot d
  | _ => false
  end.

(** [!row[field] || row[field].trim() === ''] *)
Definition fieldMissing (row : Row) (field : string) : bool :=
  match rowGet row field with
  | None => true
  | Some s => negb (truthy (VString s)) || bool_decide (trim s = [])
  end.

Definition requiredFieldsDefault : list string := [ "email"; "user_id" ]%string.

Definition validateRowWith (requiredFields : list string) (row : Row) : bool :=
  let missingFields := List.filter (fieldMissing row) requiredFields in
  if (0 <? length missingFields)%nat then false
  else
    match email row with
    | Some e => if truthy (VString e) && negb (isValidEmail e) then false else true
    | None => true
    end.

(** [validateRow(row)] with the default required fields. *)
Definition validateRow (row : Row) : bool :=
  validateRowWith requiredFieldsDefault row.

(** *** Filtering *)

Record FilterResult : Type := mkFilterResult {
  activeRecords : list Row;
  inactiveRecords : list Row;
  allRecordsForCreation : list Row;
  totalReduction : Z
}.

(** One turn of the [rows.forEach] of [filterRecordsForProcessing], on the
    three arrays. *)
Definition filterStep (acc : list Row * list Row * list Row) (row : Row)
  : list Row * list Row * list Row :=
  let '(active, inactive, all) := acc in
  if validateRow row then
    let activeSub := convertToBoolean (active_sub row) in
    if activeSub then (active ++ [row], inactive, all ++ [row])
    else (active, inactive ++ [row], all ++ [row])
  else acc.

Definition filterRecordsForProcessing (rows : list Row) : FilterResult :=
  let '(active, inactive, all) := fold_left filterStep rows ([], [], []) in
  {| activeRecords := active;
     inactiveRecords := inactive;
     allRecordsForCreation := all;
     totalReduction := 0 |}.

(** *** Deactivation candidates *)

Definition deactivationCandidate (row : Row) (id : jsstring) : obj :=
  [ (str "user_id", VString id);
    (str "active_subscription", VBool false);
    (str "weekly_subscriptions", parseCount (weekly_sub_count row));
    (str "monthly_subscriptions", parseCount (monthly_sub_count row));
    (str "daily_subscriptions", parseCount (daily_sub_count row)) ].

Definition deactivationStep (m : gmap jsstring obj) (row : Row)
  : gmap jsstring obj :=
  match user_id row with
  | Some id => if truthy (VString id) then <[ id := deactivationCandidate row id ]> m
               else m
  | None => m
  end.

(** [createDeactivationMap]: a [Map] from [user_id] to the candidate. *)
Definition createDeactivationMap (inactiveRecords : list Row)
  : gmap jsstring obj :=
  fold_left deactivationStep inactiveRecords ∅.

(** *** Batch planning *)

Record AssociationPair : Type := mkPair {
  accountId : value;
  contactEmail : value
}.

Record Batch : Type := mkBatch {
  accounts : list obj;
  contacts : list obj;
  associations : list AssociationPair;
  batchNumber : nat;
  totalBatches : nat
}.

Definition batchSize : nat := 100.

(** [a.slice(i, j)] for [0 <= i <= j]. *)
Definition slice {A} (a : list A) (i j : nat) : list A := take (j - i) (drop i a).

(** One turn of the [batch.forEach] of [groupForBatchProcessing]. *)
Definition batchStep (acc : list obj * list obj * list AssociationPair) (row : Row)
  : list obj * list obj * list AssociationPair :=
  let '(accountBatch, contactBatch, associationPairs) := acc in
  let accountData := mapAccountFields row in
  let contactData := mapContactFields row in
  (* an object, even an empty one, is truthy: the contact is always pushed *)
  match accountData with
  | Some a =>
      (accountBatch ++ [a], contactBatch ++ [contactData],
       associationPairs ++ [ {| accountId := get a (str "id");
                                contactEmail := get contactData (str "email") |} ])
  | None => (accountBatch, contactBatch ++ [contactData], associationPairs)
  end.

(** The body of the [for] loop at index [i]. *)
Definition makeBatch (activeRecords : list Row) (i : nat) : Batch :=
  let batch := slice activeRecords i (i + batchSize) in
  let '(accountBatch, contactBatch, associationPairs) :=
    fold_left batchStep batch ([], [], []) in
  {| accounts := accountBatch;
     contacts := contactBatch;
     associations := associationPairs;
     batchNumber := i / batchSize + 1;
     totalBatches := (length activeRecords + (batchSize - 1)) / batchSize |}.

(** [for (let i = 0; i < n; i += step)]: the values that [i] takes.  The
    fuel bounds the number of turns; [n] turns are always enough when
    [step] is positive ([forIndices_fuel] below). *)
Fixpoint forIndices (fuel i n step : nat) : list nat :=
  match fuel with
  | O => []
  | S fuel' => if (i <? n)%nat then i :: forIndices fuel' (i + step) n step else []
  end.

Definition groupForBatchProcessing (activeRecords : list Row) : list Batch :=
  map (makeBatch activeRecords)
      (forIndices (length activeRecords) 0 (length activeRecords) batchSize).

(** *** Categorization by existence *)

Record Strategy : Type := mkStrategy {
  toCreate : list Row;
  toUpdate : list Row;
  totalOperations : nat
}.

(** [set.has(v)] on a [Set] of strings. *)
Definition setHas (s : gset jsstring) (v : value) : bool :=
  match v with
  | VString k => bool_decide (k ∈ s)
  | _ => false
  end.

Definition categorizeStep (existingAccountIds existingContactEmails : gset jsstring)
    (acc : list Row * list Row) (row : Row) : list Row * list Row :=
  let '(recordsToCreate, recordsToUpdate) := acc in
  let accountData := mapAccountFields row in
  let contactData := mapContactFields row in
  let activeSub := convertToBoolean (active_sub row) in
  match accountData with
  | None => acc
  | Some a =>
      let accountExists := setHas existingAccountIds (get a (str "id")) in
      let contactExists := setHas existingContactEmails (get contactData (str "email")) in
      if negb accountExists || negb contactExists then
        (recordsToCreate ++ [row], recordsToUpdate)
      else if activeSub then (recordsToCreate, recordsToUpdate ++ [row])
      else (recordsToCreate, recordsToUpdate ++ [row])
  end.

Definition categorizeRecordsByExistence (allRecords : list Row)
    (existingAccountIds existingContactEmails : gset jsstring) : Strategy :=
  let '(recordsToCreate, recordsToUpdate) :=
    fold_left (categorizeStep existingAccountIds existingContactEmails)
              allRecords ([], []) in
  {| toCreate := recordsToCreate;
     toUpdate := recordsToUpdate;
     totalOperations := length recordsToCreate + length recordsToUpdate |}.

(** *** Vocabulary of the statements *)

(** What the clean-up loop does with one value: [None] when the property
    is left out. *)
Definition cleanValue (v : value) : option value :=
  match v with
  | VUndefined => None
  | VString [] => None
  | VString s => Some (VString (trim s))
  | _ => Some v
  end.

(** The count that a source string stands for: its base-10 integer parse,
    or its base-16 parse when it has a hexadecimal prefix, and 0 in place of
    NaN. *)
Definition countOf (f : option jsstring) : value :=
  let s := fieldToString f in
  VNumber (orZero (if hexPrefixed s then parseInt16 s else parseInt10 s)).

(** The integers that a double holds exactly, whatever their digits: those
    up to 2^53 in absolute value. *)
Definition maxExactInt : Z := 2 ^ 53.

(** A source string whose count is in that range, so that the double that
    [parseInt] returns is the integer itself. *)
Definition exactCount (f : option jsstring) : bool :=
  match countOf f with
  | VNumber z => (Z.abs z <=? maxExactInt)%Z
  | _ => false
  end.

Definition exactCounts (row : Row) : bool :=
  exactCount (weekly_sub_count row) && exactCount (monthly_sub_count row)
  && exactCount (daily_sub_count row).

Definition noSpace (s : jsstring) : bool := forallb (λ c, negb (is_space c)) s.

(** A field that is missing or blank: absent, empty, or white space only. *)
Definition blank (f : option jsstring) : Prop :=
  match f with
  | None => True
  | Some s => trim s = []
  end.

(** The rows that the validation rule rejects. *)
Definition invalidRow (row : Row) : Prop :=
  blank (user_id row) ∨ blank (email row) ∨
  ∃ e, email row = Some e ∧ ¬ matchesEmail e.

Definition isActive (row : Row) : bool := convertToBoolean (active_sub row).

(** The account business id of a record: the [id] of its account payload,
    which is its [user_id] without surrounding white space (a parsed row has
    none).  Its email is the [email] of its contact payload. *)
Definition businessId (row : Row) : jsstring :=
  match user_id row with
  | Some u => trim u
  | None => []
  end.

Definition emailOf (row : Row) : jsstring :=
  match email row with
  | Some e => e
  | None => []
  end.

(** The CREATE condition: the account or the contact is not known to
    exist. *)
Definition needsCreate (existingAccountIds existingContactEmails : gset jsstring)
    (row : Row) : bool :=
  negb (bool_decide (businessId row ∈ existingAccountIds))
  || negb (bool_decide (emailOf row ∈ existingContactEmails)).

(** The association pair of a record, when the record has an account. *)
Definition pairOf (row : Row) : option AssociationPair :=
  match mapAccountFields row with
  | Some a => Some {| accountId := get a (str "id");
                      contactEmail := get (mapContactFields row) (str "email") |}
  | None => None
  end.

(** *** Rows of the scenarios *)

(** The record of scenarios 1 and 2 ([U1], [a@b.com]), with its type, its
    activity flag and its weekly count as parameters. *)
Definition scenarioRow (userType activeSub weekly : string) : Row :=
  {| user_id := Some (str "U1");
     email := Some (str "a@b.com");
     user_type := Some (str userType);
     active_sub := Some (str activeSub);
     weekly_sub_count := Some (str weekly);
     monthly_sub_count := Some (str "2");
     daily_sub_count := Some (str "1") |}.

(** The row of scenario 3: its [email] is [not-an-email]. *)
Definition badEmailRow : Row :=
  {| user_id := Some (str "U1");
     email := Some (str "not-an-email");
     user_type := Some (str "MP");
     active_sub := Some (str "true");
     weekly_sub_count := Some (str "1");
     monthly_sub_count := Some (str "2");
     daily_sub_count := Some (str "3") |}.

(** The record of scenario 5: [U2], inactive locally. *)
Definition inactiveRow : Row :=
  {| user_id := Some (str "U2");
     email := Some (str "u2@b.com");
     user_type := Some (str "WIX");
     active_sub := Some (str "false");
     weekly_sub_count := Some (str "0");
     monthly_sub_count := Some (str "0");
     daily_sub_count := Some (str "0") |}.


(** A row of the unit tests: the count columns are absent. *)
Definition testRow (userId mail : string) (userType activeSub : option string) : Row :=
  {| user_id := Some (str userId);
     email := Some (str mail);
     user_type := str <$> userType;
     active_sub := str <$> activeSub;
     weekly_sub_count := None;
     monthly_sub_count := None;
     daily_sub_count := None |}.

End Processor.

Import Processor.

(** ** Awaited calls: results, exceptions and the state they leave *)

Module Effects.

(** A thrown error: what the handlers read of it, [error.code] and
    [error.message]. *)
Record Error : Type := mkError {
  code : option Z;
  message : jsstring
}.

(** How an awaited call settles. *)
Inductive outcome (A : Type) : Type :=
| Returned (a : A)
| Thrown (e : Error).
Arguments Returned {A} a.
Arguments Thrown {A} e.

(** A computation on a state [S] that returns or throws.  The state a
    computation has reached when it throws is kept. *)
Definition M (S A : Type) : Type := S → outcome A * S.

Definition ret {S A} (a : A) : M S A := λ s, (Returned a, s).

Definition throw {S A} (e : Error) : M S A := λ s, (Thrown e, s).

Definition bind {S A B} (m : M S A) (k : A → M S B) : M S B :=
  λ s, match m s with
       | (Returned a, s') => k a s'
       | (Thrown e, s') => (Thrown e, s')
       end.

(** [try { body } catch (error) { handler }] *)
Definition tryCatch {S A} (body : M S A) (handler : Error → M S A) : M S A :=
  λ s, match body s with
       | (Returned a, s') => (Returned a, s')
       | (Thrown e, s') => handler e s'
       end.

(** A promise that was started and has settled: its outcome is kept as a
    value, nothing is thrown. *)
Definition settle {S A} (m : M S A) : M S (outcome A) :=
  λ s, let '(o, s') := m s in (Returned o, s').

(** [await Promise.all([p1, p2])].  Both calls have been started, so both
    run; the first rejection is thrown.  The two calls are run one after the
    other, which is one of the interleavings the event loop allows. *)
Definition promiseAll2 {S A B} (m1 : M S A) (m2 : M S B) : M S (A * B) :=
  bind (settle m1) (λ o1,
  bind (settle m2) (λ o2,
    match o1, o2 with
    | Returned a, Returned b => ret (a, b)
    | Thrown e, _ => throw e
    | _, Thrown e => throw e
    end)).

Definition is401 (e : Error) : bool := bool_decide (code e = Some 401%Z).

End Effects.

Import Effects.

Notation "'let*' x ':=' m 'in' k" := (bind m (λ x, k))
  (at level 10, x pattern, m at level 100, k at level 200, only parsing).
Notation "'do*' m 'in' k" := (bind m (λ _, k))
  (at level 10, m at level 100, k at level 200, only parsing).

(** An object of the remote store: its remote identifier and properties. *)
Record RemoteObject : Type := mkRemote {
  hsId : jsstring;
  properties : obj
}.

(** An account to deactivate, as [identifyDeactivations] emits it. *)
Record DeactivationWrite : Type := mkDeactivation {
  hubspotId : jsstring;
  accountId : value;
  updateData : obj
}.

(** ** The remote client ([src/core/oauth-client.js]) *)

Module Client.

(** One page of a search: the results and [paging.next.after] when there is
    a next page. *)
Record Page : Type := mkPage {
  results : list RemoteObject;
  pagingNextAfter : option jsstring
}.

(** What the methods rely on: the token plumbing and the calls of the
    platform SDK, acting on a world [W] (the remote store, the token file,
    the client object). *)
Record Sdk (W : Type) : Type := mkSdk {
  ensureValidToken : M W unit;
  refreshAccessToken : M W unit;
  (** [client.crm.objects.batchApi.create(type, { inputs }).results], the
      inputs being the accounts wrapped as [{ properties: account }] *)
  batchApiCreate : list obj → M W (list RemoteObject);
  (** [client.crm.objects.searchApi.doSearch] with an [IN] filter on [id] *)
  doSearchIn : list jsstring → M W (list RemoteObject);
  (** [doSearch] for [active_subscription = 'true'], from [after] *)
  doSearchActive : option jsstring → M W Page
}.
Arguments ensureValidToken {W}.
Arguments refreshAccessToken {W}.
Arguments batchApiCreate {W}.
Arguments doSearchIn {W}.
Arguments doSearchActive {W}.

Section Methods.
Context {W : Type} (sdk : Sdk W).

(** The methods call themselves again after a token refresh, and
    [searchActiveAccounts] loops over pages: each has a fuel argument that
    bounds the number of self-calls (or turns), and answers [None] when it
    has not settled within it. *)

Fixpoint batchCreateAccounts (fuel : nat) (accountsData : list obj) (w : W)
  : option (outcome (list RemoteObject)) * W :=
  match fuel with
  | O => (None, w)
  | S fuel' =>
      match ensureValidToken sdk w with
      | (Thrown e, w1) => (Some (Thrown e), w1)
      | (Returned _, w1) =>
          if (length accountsData =? 0)%nat then (Some (Returned []), w1)
          else
            match batchApiCreate sdk accountsData w1 with
            | (Returned response, w2) => (Some (Returned response), w2)
            | (Thrown error, w2) =>
                if is401 error then
                  match refreshAccessToken sdk w2 with
                  | (Thrown e, w3) => (Some (Thrown e), w3)
                  | (Returned _, w3) => batchCreateAccounts fuel' accountsData w3
                  end
                else (Some (Thrown error), w2)
            end
      end
  end.

Definition chunkSize : nat := 100.

(** The [for] loop of [batchSearchAccounts] over the chunk starts. *)
Fixpoint searchChunks (accountIds : list jsstring) (starts : list nat)
    (allResults : list RemoteObject) : M W (list RemoteObject) :=
  match starts with
  | [] => ret allResults
  | i :: starts' =>
      let* response := doSearchIn sdk (slice accountIds i (i + chunkSize)) in
      searchChunks accountIds starts' (allResults ++ response)
  end.

Fixpoint batchSearchAccounts (fuel : nat) (accountIds : list jsstring) (w : W)
  : option (outcome (list RemoteObject)) * W :=
  match fuel with
  | O => (None, w)
  | S fuel' =>
      match ensureValidToken sdk w with
      | (Thrown e, w1) => (Some (Thrown e), w1)
      | (Returned _, w1) =>
          if (length accountIds =? 0)%nat then (Some (Returned []), w1)
          else
            match searchChunks accountIds
                    (forIndices (length accountIds) 0 (length accountIds) chunkSize)
                    [] w1 with
            | (Returned allResults, w2) => (Some (Returned allResults), w2)
            | (Thrown error, w2) =>
                if is401 error then
                  match refreshAccessToken sdk w2 with
                  | (Thrown e, w3) => (Some (Thrown e), w3)
                  | (Returned _, w3) => batchSearchAccounts fuel' accountIds w3
                  end
                else (Some (Thrown error), w2)
            end
      end
  end.

(** The [while (hasMore)] loop of [searchActiveAccounts].  [after] is the
    cursor of the last response, [requestAfter] is [searchRequest.after],
    which is only overwritten by a truthy cursor. *)
Fixpoint activePages (fuel : nat) (after requestAfter : option jsstring)
    (allActiveAccounts : list RemoteObject) (w : W)
  : option (outcome (list RemoteObject)) * W :=
  match fuel with
  | O => (None, w)
  | S fuel' =>
      let requestAfter' :=
        match after with
        | Some a => if truthy (VString a) then Some a else requestAfter
        | None => requestAfter
        end in
      match doSearchActive sdk requestAfter' w with
      | (Thrown e, w1) => (Some (Thrown e), w1)
      | (Returned response, w1) =>
          let all := allActiveAccounts ++ results response in
          match pagingNextAfter response with
          | Some a => activePages fuel' (Some a) requestAfter' all w1
          | None => (Some (Returned all), w1)
          end
      end
  end.

Fixpoint searchActiveAccounts (fuel : nat) (w : W)
  : option (outcome (list RemoteObject)) * W :=
  match fuel with
  | O => (None, w)
  | S fuel' =>
      match ensureValidToken sdk w with
      | (Thrown e, w1) => (Some (Thrown e), w1)
      | (Returned _, w1) =>
          match activePages fuel' None None [] w1 with
          | (None, w2) => (None, w2)
          | (Some (Returned allActiveAccounts), w2) =>
              (Some (Returned allActiveAccounts), w2)
          | (Some (Thrown error), w2) =>
              if is401 error then
                match refreshAccessToken sdk w2 with
                | (Thrown e, w3) => (Some (Thrown e), w3)
                | (Returned _, w3) => searchActiveAccounts fuel' w3
                end
              else (Some (Thrown error), w2)
          end
      end
  end.

End Methods.

(** [deactivationMap.get(v)], [undefined] when [deactivationMap.has(v)] is
    false: the keys of the map are strings. *)
Definition mapGet (deactivationMap : gmap jsstring obj) (v : value) : option obj :=
  match v with
  | VString k => deactivationMap !! k
  | _ => None
  end.

(** One turn of the [activeAccounts.forEach] of [identifyDeactivations]. *)
Definition identifyStep (deactivationMap : gmap jsstring obj)
    (accountsToDeactivate : list DeactivationWrite) (account : RemoteObject)
  : list DeactivationWrite :=
  let accountId := get (properties account) (str "id") in
  match mapGet deactivationMap accountId with
  | Some candidate =>
      accountsToDeactivate ++
        [ {| hubspotId := hsId account;
             accountId := accountId;
             updateData := candidate |} ]
  | None => accountsToDeactivate
  end.

(** What [identifyDeactivations] computes from the active accounts that
    [searchActiveAccounts] returned. *)
Definition deactivationsAmong (deactivationMap : gmap jsstring obj)
    (activeAccounts : list RemoteObject) : list DeactivationWrite :=
  fold_left (identifyStep deactivationMap) activeAccounts [].

Definition identifyDeactivations {W} (sdk : Sdk W) (fuel : nat)
    (deactivationMap : gmap jsstring obj) (w : W)
  : option (outcome (list DeactivationWrite)) * W :=
  match searchActiveAccounts sdk fuel w with
  | (Some (Returned activeAccounts), w') =>
      (Some (Returned (deactivationsAmong deactivationMap activeAccounts)), w')
  | (Some (Thrown e), w') => (Some (Thrown e), w')
  | (None, w') => (None, w')
  end.


(** *** Platforms for the examples *)

(** What is counted of a platform: the calls it received and the token
    refreshes that were made. *)
Record Counters : Type := mkCounters {
  attempts : nat;
  refreshes : nat
}.

Definition unauthorized : Error :=
  {| code := Some 401%Z; message := str "Unauthorized" |}.

Definition countAttempt (w : Counters) : Counters :=
  {| attempts := S (attempts w); refreshes := refreshes w |}.

Definition countRefresh (w : Counters) : Counters :=
  {| attempts := attempts w; refreshes := S (refreshes w) |}.

(** A platform that answers 401 to every call, also with a refreshed
    token (a revoked application, say), while the refresh itself succeeds. *)
Definition rejectingSdk : Sdk Counters :=
  {| ensureValidToken := ret tt;
     refreshAccessToken := λ w, (Returned tt, countRefresh w);
     batchApiCreate := λ _ w, (Thrown unauthorized, countAttempt w);
     doSearchIn := λ _ w, (Thrown unauthorized, countAttempt w);
     doSearchActive := λ _ w, (Thrown unauthorized, countAttempt w) |}.

(** A platform that answers 401 until the token has been refreshed once,
    and then creates what it is given. *)
Definition expiredOnceSdk : Sdk Counters :=
  {| ensureValidToken := ret tt;
     refreshAccessToken := λ w, (Returned tt, countRefresh w);
     batchApiCreate :=
       λ l w, if (0 <? refreshes w)%nat
              then (Returned (map (mkRemote (str "1")) l), countAttempt w)
              else (Thrown unauthorized, countAttempt w);
     doSearchIn :=
       λ _ w, if (0 <? refreshes w)%nat then (Returned [], countAttempt w)
              else (Thrown unauthorized, countAttempt w);
     doSearchActive :=
       λ _ w, if (0 <? refreshes w)%nat
              then (Returned (mkPage [] None), countAttempt w)
              else (Thrown unauthorized, countAttempt w) |}.

Definition oneAccount : list obj := [ [(str "id", VString (str "U1"))] ].

End Client.

(** ** The integration ([src/core/integration.js]) *)

Module Integration.

(** [this.stats].  [totalProcessingTime] is wall-clock time and is left
    out. *)
Record Stats : Type := mkStats {
  accountsCreated : nat;
  accountsUpdated : nat;
  contactsCreated : nat;
  contactsUpdated : nat;
  associationsCreated : nat;
  errors : nat;
  batchesProcessed : nat
}.

Definition initialStats : Stats := mkStats 0 0 0 0 0 0 0.

Inductive Operation : Type := Create | Update.

(** What [processSingleBatch] resolves to. *)
Record BatchResult : Type := mkBatchResult {
  operation : Operation;
  batchNum : nat;
  success : bool;
  error : option jsstring
}.

(** The client that the constructor receives: the methods that the
    integration calls, each an awaited call on the world [W] that returns
    or throws. *)
Record HubSpot (W : Type) : Type := mkHubSpot {
  batchSearchAccounts : list jsstring → M W (list RemoteObject);
  batchSearchContacts : list jsstring → M W (list RemoteObject);
  identifyDeactivations : gmap jsstring obj → M W (list DeactivationWrite);
  batchUpdateAccounts : list DeactivationWrite → M W (list RemoteObject);
  batchCreateAccounts : list obj → M W (list RemoteObject);
  batchCreateContacts : list obj → M W (list RemoteObject);
  batchCreateAssociations :
    list AssociationPair → list RemoteObject → list RemoteObject →
    M W (list RemoteObject)
}.
Arguments batchSearchAccounts {W}.
Arguments batchSearchContacts {W}.
Arguments identifyDeactivations {W}.
Arguments batchUpdateAccounts {W}.
Arguments batchCreateAccounts {W}.
Arguments batchCreateContacts {W}.
Arguments batchCreateAssociations {W}.

(** The state of a run: the counters and the world behind the client. *)
Record State (W : Type) : Type := mkState {
  stats : Stats;
  world : W
}.
Arguments mkState {W}.
Arguments stats {W}.
Arguments world {W}.

(** [o[k] = v]: overwrites an own property in place, or adds it last. *)
Fixpoint setProp (k : jsstring) (v : value) (o : obj) : obj :=
  match o with
  | [] => [(k, v)]
  | (k', v') :: o' =>
      if bool_decide (k' = k) then (k, v) :: o' else (k', v') :: setProp k v o'
  end.

(** [delete o[k]] *)
Definition deleteProp (k : jsstring) (o : obj) : obj :=
  List.filter (λ kv, negb (bool_decide (fst kv = k))) o.

(** The account that the create branch submits: string booleans turned
    into booleans, [ever_had_subscription] removed. *)
Definition transformAccount (account : obj) : obj :=
  let transformed := account in
  let transformed :=
    if bool_decide (get transformed (str "active_subscription") = VString (str "true"))
    then setProp (str "active_subscription") (VBool true) transformed
    else if bool_decide (get transformed (str "active_subscription") = VString (str "false"))
    then setProp (str "active_subscription") (VBool false) transformed
    else transformed in
  deleteProp (str "ever_had_subscription") transformed.

(** The decimal digits of [n], for template strings. *)
Definition natToString (n : nat) : jsstring :=
  str (NilEmpty.string_of_uint (Nat.to_uint n)).

(** [array.map((x, index) => f(index, x))] *)
Fixpoint mapi {A B} (f : nat → A → B) (index : nat) (l : list A) : list B :=
  match l with
  | [] => []
  | x :: l' => f index x :: mapi f (S index) l'
  end.

(** The strings of a list in the order of their first occurrence:
    [Array.from(new Set(l))]. *)
Fixpoint distinct (l : list jsstring) (seen : list jsstring) : list jsstring :=
  match l with
  | [] => []
  | x :: l' => if bool_decide (x ∈ seen) then distinct l' seen
               else x :: distinct l' (x :: seen)
  end.

(** The truthy string values of a property over remote objects, as a set. *)
Definition propertySet (k : jsstring) (objects : list RemoteObject) : gset jsstring :=
  fold_left
    (λ (acc : gset jsstring) o,
       match get (properties o) k with
       | VString s => if truthy (VString s) then {[ s ]} ∪ acc else acc
       | _ => acc
       end)
    objects ∅.

Section WithClient.
Context {W : Type} (hubspot : HubSpot W).

(** An awaited call of the client, from a run. *)
Definition call {A} (m : M W A) : M (State W) A :=
  λ st, let '(o, w) := m (world st) in (o, {| stats := stats st; world := w |}).

Definition modifyStats (f : Stats → Stats) : M (State W) unit :=
  λ st, (Returned tt, {| stats := f (stats st); world := world st |}).

Definition getStats : M (State W) Stats := λ st, (Returned (stats st), st).

Definition addCreated (a c : nat) (s : Stats) : Stats :=
  {| accountsCreated := accountsCreated s + a;
     accountsUpdated := accountsUpdated s;
     contactsCreated := contactsCreated s + c;
     contactsUpdated := contactsUpdated s;
     associationsCreated := associationsCreated s;
     errors := errors s;
     batchesProcessed := batchesProcessed s |}.

Definition addUpdated (a c : nat) (s : Stats) : Stats :=
  {| accountsCreated := accountsCreated s;
     accountsUpdated := accountsUpdated s + a;
     contactsCreated := contactsCreated s;
     contactsUpdated := contactsUpdated s + c;
     associationsCreated := associationsCreated s;
     errors := errors s;
     batchesProcessed := batchesProcessed s |}.

Definition addAssociations (n : nat) (s : Stats) : Stats :=
  {| accountsCreated := accountsCreated s;
     accountsUpdated := accountsUpdated s;
     contactsCreated := contactsCreated s;
     contactsUpdated := contactsUpdated s;
     associationsCreated := associationsCreated s + n;
     errors := errors s;
     batchesProcessed := batchesProcessed s |}.

Definition incrErrors (s : Stats) : Stats :=
  {| accountsCreated := accountsCreated s;
     accountsUpdated := accountsUpdated s;
     contactsCreated := contactsCreated s;
     contactsUpdated := contactsUpdated s;
     associationsCreated := associationsCreated s;
     errors := errors s + 1;
     batchesProcessed := batchesProcessed s |}.

Definition incrBatches (s : Stats) : Stats :=
  {| accountsCreated := accountsCreated s;
     accountsUpdated := accountsUpdated s;
     contactsCreated := contactsCreated s;
     contactsUpdated := contactsUpdated s;
     associationsCreated := associationsCreated s;
     errors := errors s;
     batchesProcessed := batchesProcessed s + 1 |}.

(** The two sub-writes of a batch: what they return as account and contact
    results. *)
Definition subWrites (batch : Batch) (operation : Operation)
  : M (State W) (list RemoteObject * list RemoteObject) :=
  match operation with
  | Create =>
      let transformedAccounts := map transformAccount (accounts batch) in
      let* (accountResults, contactResults) :=
        promiseAll2
          (if (0 <? length (accounts batch))%nat
           then call (batchCreateAccounts hubspot transformedAccounts)
           else ret [])
          (if (0 <? length (contacts batch))%nat
           then call (batchCreateContacts hubspot (contacts batch))
           else ret []) in
      do* modifyStats (addCreated (length accountResults) (length contactResults)) in
      ret (accountResults, contactResults)
  | Update =>
      let accountResults :=
        mapi (λ index account,
                {| hsId := str "updated-account-" ++ natToString index;
                   properties := account |}) 0 (accounts batch) in
      let contactResults :=
        mapi (λ index contact,
                {| hsId := str "updated-contact-" ++ natToString index;
                   properties := contact |}) 0 (contacts batch) in
      do* modifyStats (addUpdated (length accountResults) (length contactResults)) in
      ret (accountResults, contactResults)
  end.

(** The association block of a batch: it runs when the batch has pairs and
    both sub-writes gave results. *)
Definition associateBatch (batch : Batch)
    (accountResults contactResults : list RemoteObject) : M (State W) unit :=
  if (0 <? length (associations batch))%nat
     && (0 <? length accountResults)%nat
     && (0 <? length contactResults)%nat
  then
    let* associationResults :=
      call (batchCreateAssociations hubspot (associations batch)
              accountResults contactResults) in
    modifyStats (addAssociations (length associationResults))
  else ret tt.

Definition processSingleBatch (batch : Batch) (operation : Operation)
    (batchNum totalBatches : nat) : M (State W) BatchResult :=
  tryCatch
    (let* (accountResults, contactResults) := subWrites batch operation in
     do* associateBatch batch accountResults contactResults in
     do* modifyStats incrBatches in
     ret {| operation := operation; batchNum := batchNum;
            success := true; error := None |})
    (λ error,
       do* modifyStats incrErrors in
       ret {| operation := operation; batchNum := batchNum;
              success := false; error := Some (message error) |}).

(** The [batchResults.forEach] of [processBatchesWithConcurrency] on one
    group of settled promises. *)
Fixpoint collectSettled (batchResults : list (outcome BatchResult))
    (results : list BatchResult) : M (State W) (list BatchResult) :=
  match batchResults with
  | [] => ret results
  | Returned value :: rest => collectSettled rest (results ++ [value])
  | Thrown _ :: rest => do* modifyStats incrErrors in collectSettled rest results
  end.

(** The [for] loop of [processBatchesWithConcurrency] over the group
    starts.  The delay between groups is time and is left out. *)
Fixpoint collectGroups (batchPromises : list (outcome BatchResult))
    (maxConcurrency : nat) (starts : list nat) (results : list BatchResult)
  : M (State W) (list BatchResult) :=
  match starts with
  | [] => ret results
  | i :: starts' =>
      let batch := slice batchPromises i (i + maxConcurrency) in
      let* results' := collectSettled batch results in
      collectGroups batchPromises maxConcurrency starts' results'
  end.

(** [processBatchesWithConcurrency].  Its argument is a list of promises
    that were started by the caller; they are given as they settle.  A
    promise gets its handler when [Promise.allSettled] reaches its group: the
    first group at once, the later ones after the groups before them and the
    delays.  A promise of a later group that has rejected by then was
    unhandled, and the process has ended; such lists are outside this
    definition.  [processBatchOperations] passes the promises of
    [processSingleBatch], which never reject. *)
Definition processBatchesWithConcurrency (batchPromises : list (outcome BatchResult))
    (maxConcurrency : nat) : M (State W) (list BatchResult) :=
  collectGroups batchPromises maxConcurrency
    (forIndices (length batchPromises) 0 (length batchPromises) maxConcurrency) [].

(** The [forEach] loops of [processBatchOperations] that start one
    [processSingleBatch] per batch.  The code starts every batch before it
    awaits any, and the event loop interleaves their client calls; here each
    batch is run to its end before the next one is started.  The counters
    are only added to, so that order does not show in them; it shows in the
    order of the calls that the client receives, and in the answers of a
    client whose answers depend on the calls before.  The statements about
    the batches of a run do not rest on that order: they are about the
    counters, or about clients that answer by the request
    ([Isolation.recordingClient]), up to the order of the requests. *)
Fixpoint startBatches (batches : list Batch) (operation : Operation)
    (index total : nat) : M (State W) (list (outcome BatchResult)) :=
  match batches with
  | [] => ret []
  | batch :: rest =>
      let* p := settle (processSingleBatch batch operation (index + 1) total) in
      let* ps := startBatches rest operation (S index) total in
      ret (p :: ps)
  end.

(** [processBatchOperations] up to its last log line: the value of
    [batchResults]. *)
Definition runBatchOperations (recordsToCreate recordsToUpdate : list Row)
  : M (State W) (list BatchResult) :=
  let createBatches := groupForBatchProcessing recordsToCreate in
  let updateBatches := groupForBatchProcessing recordsToUpdate in
  let* createPromises :=
    startBatches createBatches Create 0 (length createBatches) in
  let* updatePromises :=
    startBatches updateBatches Update 0 (length updateBatches) in
  let allBatchPromises := createPromises ++ updatePromises in
  processBatchesWithConcurrency allBatchPromises 5.

Definition processBatchOperations (recordsToCreate recordsToUpdate : list Row)
  : M (State W) unit :=
  do* runBatchOperations recordsToCreate recordsToUpdate in ret tt.

Record ExistingData : Type := mkExisting {
  accountIds : gset jsstring;
  contactEmails : gset jsstring
}.

Definition truthyField (f : option jsstring) : list jsstring :=
  match f with
  | Some s => if truthy (VString s) then [s] else []
  | None => []
  end.

Definition getExistingDataBatch (allRecords : list Row) : M (State W) ExistingData :=
  let accountIds := distinct (flat_map (λ row, truthyField (user_id row)) allRecords) [] in
  let contactEmails := distinct (flat_map (λ row, truthyField (email row)) allRecords) [] in
  let* (existingAccounts, existingContacts) :=
    promiseAll2 (call (batchSearchAccounts hubspot accountIds))
                (call (batchSearchContacts hubspot contactEmails)) in
  ret {| accountIds := propertySet (str "id") existingAccounts;
         contactEmails := propertySet (str "email") existingContacts |}.

Definition processDeactivations (inactiveRecords : list Row) : M (State W) unit :=
  if (length inactiveRecords =? 0)%nat then ret tt
  else
    let deactivationMap := createDeactivationMap inactiveRecords in
    let* accountsToDeactivate := call (identifyDeactivations hubspot deactivationMap) in
    if (0 <? length accountsToDeactivate)%nat then
      let* deactivationResults := call (batchUpdateAccounts hubspot accountsToDeactivate) in
      modifyStats (addUpdated (length deactivationResults) 0)
    else ret tt.

(** [processCSVHighPerformance] from the parsed rows on: it returns
    [this.stats]. *)
Definition processCSVHighPerformance (rawData : list Row) : M (State W) Stats :=
  tryCatch
    (let filterResult := filterRecordsForProcessing rawData in
     let* existingData := getExistingDataBatch (allRecordsForCreation filterResult) in
     let strategy :=
       categorizeRecordsByExistence (allRecordsForCreation filterResult)
         (accountIds existingData) (contactEmails existingData) in
     do* processDeactivations (inactiveRecords filterResult) in
     do* processBatchOperations (toCreate strategy) (toUpdate strategy) in
     getStats)
    (λ error, do* modifyStats incrErrors in throw error).

End WithClient.

(** *** A client that records its calls *)

(** The calls a client can receive, for a log. *)
Inductive Call : Type :=
| CSearchAccounts (ids : list jsstring)
| CSearchContacts (emails : list jsstring)
| CIdentifyDeactivations
| CUpdateAccounts (n : nat)
| CCreateAccounts (n : nat)
| CCreateContacts (n : nat)
| CCreateAssociations (n : nat).

Definition isUpdateCall (c : Call) : bool :=
  match c with
  | CUpdateAccounts _ => true
  | _ => false
  end.

Definition logged {A} (c : Call) (o : outcome A) : M (list Call) A :=
  λ log, (o, log ++ [c]).

(** A store that is down: every call is logged and throws [down]. *)
Definition failingClient (down : Error) : HubSpot (list Call) :=
  {| batchSearchAccounts := λ ids, logged (CSearchAccounts ids) (Thrown down);
     batchSearchContacts := λ emails, logged (CSearchContacts emails) (Thrown down);
     identifyDeactivations := λ _, logged CIdentifyDeactivations (Thrown down);
     batchUpdateAccounts := λ l, logged (CUpdateAccounts (length l)) (Thrown down);
     batchCreateAccounts := λ l, logged (CCreateAccounts (length l)) (Thrown down);
     batchCreateContacts := λ l, logged (CCreateContacts (length l)) (Thrown down);
     batchCreateAssociations :=
       λ l _ _, logged (CCreateAssociations (length l)) (Thrown down) |}.

(** A store that finds nothing and creates what it is given, as the mock
    client of the end-to-end tests. *)
Definition emptyStoreClient : HubSpot (list Call) :=
  {| batchSearchAccounts := λ ids, logged (CSearchAccounts ids) (Returned []);
     batchSearchContacts := λ emails, logged (CSearchContacts emails) (Returned []);
     identifyDeactivations := λ _, logged CIdentifyDeactivations (Returned []);
     batchUpdateAccounts := λ l, logged (CUpdateAccounts (length l)) (Returned []);
     batchCreateAccounts :=
       λ l, logged (CCreateAccounts (length l))
              (Returned (mapi (λ i a, mkRemote (natToString i) a) 0 l));
     batchCreateContacts :=
       λ l, logged (CCreateContacts (length l))
              (Returned (mapi (λ i c, mkRemote (natToString i) c) 0 l));
     batchCreateAssociations :=
       λ l _ _, logged (CCreateAssociations (length l)) (Returned []) |}.

Definition serverError : Error := {| code := Some 500%Z; message := str "down" |}.

(** A store that finds nothing and in which every creation fails. *)
Definition createFailsClient (down : Error) : HubSpot (list Call) :=
  {| batchSearchAccounts := batchSearchAccounts emptyStoreClient;
     batchSearchContacts := batchSearchContacts emptyStoreClient;
     identifyDeactivations := identifyDeactivations emptyStoreClient;
     batchUpdateAccounts := batchUpdateAccounts emptyStoreClient;
     batchCreateAccounts := batchCreateAccounts (failingClient down);
     batchCreateContacts := batchCreateContacts emptyStoreClient;
     batchCreateAssociations := batchCreateAssociations emptyStoreClient |}.

(** *** Vocabulary of the statements *)

(** Failed and successful batches among results. *)
Definition failures (results : list BatchResult) : nat :=
  length (List.filter (λ r, negb (success r)) results).

Definition successes (results : list BatchResult) : nat :=
  length (List.filter success results).

Definition failed (operation : Operation) (batchNum : nat) (e : Error) : BatchResult :=
  {| operation := operation; batchNum := batchNum;
     success := false; error := Some (message e) |}.

Definition succeeded (operation : Operation) (batchNum : nat) : BatchResult :=
  {| operation := operation; batchNum := batchNum;
     success := true; error := None |}.

Definition withStats {W} (f : Stats → Stats) (st : State W) : State W :=
  {| stats := f (stats st); world := world st |}.

(** A computation of a run that leaves the error and batch counters as
    they are, whether it returns or throws. *)
Definition keeps {W A} (m : M (State W) A) : Prop :=
  ∀ st o st', m st = (o, st') →
    errors (stats st') = errors (stats st) ∧
    batchesProcessed (stats st') = batchesProcessed (stats st).

End Integration.

(** ** Further vocabulary *)

Module Vocabulary.

(** Whether a record projects to an account payload. *)
Definition hasAccount (row : Row) : bool :=
  match mapAccountFields row with
  | Some _ => true
  | None => false
  end.

(** The business ids, and the emails, of records, as sets. *)
Definition businessIds (rows : list Row) : gset jsstring :=
  list_to_set (map businessId rows).

Definition emailsOf (rows : list Row) : gset jsstring :=
  list_to_set (map emailOf rows).

End Vocabulary.

Import Vocabulary.

(** ** Further vocabulary: categorization of arbitrary rows *)

Module Vocabulary2.

(** The CREATE condition as the code evaluates it, on the payloads of a
    record. *)
Definition createCondition (existingAccountIds existingContactEmails : gset jsstring)
    (row : Row) : bool :=
  negb (setHas existingAccountIds (get (cleaned (accountMapping row)) (str "id")))
  || negb (setHas existingContactEmails (get (mapContactFields row) (str "email"))).

End Vocabulary2.

Import Vocabulary2.

(** ** Cleaning of parsed cells ([parseCSV]) and the logger
    ([src/core/logger.js]) *)

Module Csv.

(** [s.replace(/\s+/g, '_')]: every maximal run of white space becomes one
    underscore.  [inRun] tells that the previous character was white
    space. *)
Fixpoint collapseSpaces (inRun : bool) (s : jsstring) : jsstring :=
  match s with
  | [] => []
  | c :: s' =>
      if is_space c then
        if inRun then collapseSpaces true s' else 95 :: collapseSpaces true s'
      else c :: collapseSpaces false s'
  end.

(** [s.replace(q, '')], where the pattern [q] matches every double quote
    (code unit 34). *)
Definition removeQuotes (s : jsstring) : jsstring :=
  List.filter (λ c, negb (c =? 34)) s.

(** The key of a cell: the key trimmed, lower-cased, with its runs of white
    space collapsed ([.replace(/\s+/g, '_')]) and its double quotes removed.
    [toLowerCase] is the one of the ASCII letters: the model is that of keys
    without letters outside ASCII. *)
Definition cleanKey (key : jsstring) : jsstring :=
  removeQuotes (collapseSpaces false (toLowerCase (trim key))).

(** The value of a cell: [data[key].trim()] with its double quotes
    removed. *)
Definition cleanCell (cell : jsstring) : jsstring := removeQuotes (trim cell).

Definition isAscii (s : jsstring) : Prop := Forall (λ c, c < 128) s.

Definition hasNoQuote (s : jsstring) : bool := forallb (λ c, negb (c =? 34)) s.

Definition hasNoCapital (s : jsstring) : bool :=
  forallb (λ c, negb ((65 <=? c) && (c <=? 90))) s.

End Csv.

Module Logging.

(** [this.levels] *)
Definition levels : obj :=
  [ (str "error", VNumber 0); (str "warn", VNumber 1);
    (str "info", VNumber 2); (str "debug", VNumber 3) ].

(** The constructor: [this.level = this.levels[level] || this.levels.info]. *)
Definition levelOf (level : jsstring) : value :=
  or_else (get levels level) (get levels (str "info")).

(** [this.level >= n] for a number [n]: a level that is not a number (an
    inherited member) converts to NaN, and the comparison is false. *)
Definition atLeast (level : value) (n : Z) : bool :=
  match level with
  | VNumber z => (n <=? z)%Z
  | _ => false
  end.

(** Whether [logger.error], [warn], [info] and [debug] print. *)
Definition printsError (level : jsstring) : bool := atLeast (levelOf level) 0.
Definition printsWarn (level : jsstring) : bool := atLeast (levelOf level) 1.
Definition printsInfo (level : jsstring) : bool := atLeast (levelOf level) 2.
Definition printsDebug (level : jsstring) : bool := atLeast (levelOf level) 3.

End Logging.

(** ** Scripted platforms *)

Module Platforms.
Import Client.

(** A platform that answers the calls it receives from a script, one answer
    per call (and an empty result once the script is used up), and counts
    the calls and the token refreshes. *)
Record Scripted : Type := mkScripted {
  script : list (outcome (list RemoteObject));
  calls : nat;
  refreshed : nat
}.

Definition answer (w : Scripted) : outcome (list RemoteObject) * Scripted :=
  match script w with
  | [] => (Returned [], {| script := []; calls := S (calls w); refreshed := refreshed w |})
  | o :: rest => (o, {| script := rest; calls := S (calls w); refreshed := refreshed w |})
  end.

Definition scriptedSdk : Sdk Scripted :=
  {| ensureValidToken := ret tt;
     refreshAccessToken :=
       λ w, (Returned tt, {| script := script w; calls := calls w;
                             refreshed := S (refreshed w) |});
     batchApiCreate := λ _ w, answer w;
     doSearchIn := λ _ w, answer w;
     doSearchActive :=
       λ _ w, match answer w with
              | (Returned r, w') => (Returned (mkPage r None), w')
              | (Thrown e, w') => (Thrown e, w')
              end |}.

Definition is401Outcome {A} (o : outcome A) : bool :=
  match o with
  | Thrown e => is401 e
  | Returned _ => false
  end.

(** The number of 401 answers at the head of a script, and the answer that
    follows them. *)
Fixpoint leading401 (l : list (outcome (list RemoteObject))) : nat :=
  match l with
  | o :: rest => if is401Outcome o then S (leading401 rest) else 0
  | [] => 0
  end.

Definition firstOther (l : list (outcome (list RemoteObject)))
  : outcome (list RemoteObject) :=
  match drop (leading401 l) l with
  | o :: _ => o
  | [] => Returned []
  end.

(** A search platform that answers each chunk with [respond chunk] and
    keeps the chunks it was asked about. *)
Definition respondingSdk (respond : list jsstring → list RemoteObject)
  : Sdk (list (list jsstring)) :=
  {| ensureValidToken := ret tt;
     refreshAccessToken := ret tt;
     batchApiCreate := λ _, ret [];
     doSearchIn := λ chunk log, (Returned (respond chunk), log ++ [chunk]);
     doSearchActive := λ _, ret (mkPage [] None) |}.

(** The chunks of the loop of [batchSearchAccounts]. *)
Definition chunksOf (ids : list jsstring) : list (list jsstring) :=
  map (λ i, slice ids i (i + chunkSize))
      (forIndices (length ids) 0 (length ids) chunkSize).

(** A platform that serves the pages of a list, one per request, and keeps
    the cursor of each request. *)
Definition pagedSdk : Sdk (list Page * list (option jsstring)) :=
  {| ensureValidToken := ret tt;
     refreshAccessToken := ret tt;
     batchApiCreate := λ _, ret [];
     doSearchIn := λ _, ret [];
     doSearchActive :=
       λ after w,
         match fst w with
         | [] => (Returned (mkPage [] None), ([], snd w ++ [after]))
         | p :: rest => (Returned p, (rest, snd w ++ [after]))
         end |}.

(** A page that announces a next page, with a cursor that is not empty. *)
Definition hasNext (p : Page) : Prop :=
  ∃ cursor, pagingNextAfter p = Some cursor ∧ cursor ≠ [].

End Platforms.

(** ** The alias [processCsv], and vocabulary for the runs *)

Module Alias.
Import Integration.

(** What [processCsv] resolves to: the counts of a run, or
    [{ success: false, error }]. *)
Inductive CsvResult : Type :=
| CsvDone (processed created updated errors : nat)
| CsvFailed (error : jsstring).

Definition requiredColumns : list string := [ "user_id"; "email" ]%string.

(** [array.join(', ')] for column names. *)
Fixpoint joinColumns (cols : list string) : jsstring :=
  match cols with
  | [] => []
  | [c] => str c
  | c :: rest => str c ++ str ", " ++ joinColumns rest
  end.

(** [!(col in firstRow)] *)
Definition columnMissing (firstRow : Row) (col : string) : bool :=
  match rowGet firstRow col with
  | Some _ => false
  | None => true
  end.

Section WithClient.
Context {W : Type} (hubspot : HubSpot W).
(** [this.hubspot.ensureValidToken], when the client has one. *)
Context (ensureValidToken : option (M W unit)).
(** [String(error)], for an error without a message. *)
Context (errorToString : Error → jsstring).

Definition errorText (error : Error) : jsstring :=
  if truthy (VString (message error)) then message error else errorToString error.

(** The [try] block of [processCsv] from the parsed rows on. *)
Definition processRows (rows : list Row) : M (State W) CsvResult :=
  match rows with
  | [] => ret (CsvDone 0 0 0 0)
  | firstRow :: _ =>
      let missingColumns := List.filter (columnMissing firstRow) requiredColumns in
      if (0 <? length missingColumns)%nat then
        ret (CsvFailed (str "Invalid CSV format: missing required columns: "
                          ++ joinColumns missingColumns))
      else
        do* match ensureValidToken with
            | Some ensure => call ensure
            | None => ret tt
            end in
        let filterResult := filterRecordsForProcessing rows in
        let* existingData :=
          getExistingDataBatch hubspot (allRecordsForCreation filterResult) in
        let strategy :=
          categorizeRecordsByExistence (allRecordsForCreation filterResult)
            (accountIds existingData) (contactEmails existingData) in
        do* processDeactivations hubspot (inactiveRecords filterResult) in
        do* processBatchOperations hubspot (toCreate strategy) (toUpdate strategy) in
        let* stats := getStats in
        ret (CsvDone (length rows) (length (toCreate strategy))
                     (length (toUpdate strategy)) (errors stats))
  end.

(** [processCsv].  [parsed] is how [await this.processor.parseCSV(csvData)]
    ends, the first step of the [try] block: with the rows, with the error
    of the CSV transform, or not at all ([None]).  [parseCSV] listens for
    errors on the CSV transform only, so an error of the read stream itself
    (a path that cannot be read) is not handled: the promise is never
    settled, and [processCsv] gives no result. *)
Definition processCsv (parsed : option (outcome (list Row))) (st : State W)
  : option (outcome CsvResult) * State W :=
  match parsed with
  | None => (None, st)
  | Some settled =>
      let '(o, st') :=
        tryCatch
          (let* rows := (λ s, (settled, s)) in processRows rows)
          (λ error, ret (CsvFailed (errorText error))) st in
      (Some o, st')
  end.

End WithClient.

(** The fulfilled values, and the number of rejections, among settled
    promises. *)
Fixpoint fulfilled {A} (promises : list (outcome A)) : list A :=
  match promises with
  | [] => []
  | Returned a :: rest => a :: fulfilled rest
  | Thrown _ :: rest => fulfilled rest
  end.

Fixpoint rejected {A} (promises : list (outcome A)) : nat :=
  match promises with
  | [] => 0
  | Returned _ :: rest => rejected rest
  | Thrown _ :: rest => S (rejected rest)
  end.

(** A store that holds the given accounts and contacts: the searches return
    them, and every call is logged. *)
Definition storeClient (accounts contacts : list RemoteObject) : HubSpot (list Call) :=
  {| batchSearchAccounts := λ ids, logged (CSearchAccounts ids) (Returned accounts);
     batchSearchContacts := λ emails, logged (CSearchContacts emails) (Returned contacts);
     identifyDeactivations := identifyDeactivations emptyStoreClient;
     batchUpdateAccounts := batchUpdateAccounts emptyStoreClient;
     batchCreateAccounts := batchCreateAccounts emptyStoreClient;
     batchCreateContacts := batchCreateContacts emptyStoreClient;
     batchCreateAssociations := batchCreateAssociations emptyStoreClient |}.

(** The non-empty values of a column, without repetition, in the order of
    their first occurrence. *)
Definition distinctColumn (column : Row → option jsstring) (rows : list Row)
  : list jsstring :=
  distinct (flat_map (λ row, truthyField (column row)) rows) [].

End Alias.

(** ** Vocabulary for the phases of a run *)

Module Phases.
Import Integration.

(** A computation of a run that changes no counter, whether it returns or
    throws. *)
Definition keepsStats {W A} (m : M (State W) A) : Prop :=
  ∀ st o st', m st = (o, st') → stats st' = stats st.

End Phases.

(** ** Tokens of the client ([loadTokens] ... [ensureValidToken]) *)

Module Tokens.
Import Integration.

(** The response of the token endpoint, with its parsed body. *)
Record TokenResponse : Type := mkTokenResponse {
  ok : bool;
  status : nat;
  statusText : jsstring;
  json : obj
}.

(** What the token methods rely on, on a world [W]: the token file, the
    token endpoint and the platform. *)
Record Env (W : Type) : Type := mkEnv {
  (** [JSON.parse(await fs.readFile(tokenFile))]: the stored object, [null]
      ([None]) when the file holds [null]; a stored value that is not an
      object reads as an object without these properties *)
  readTokenFile : M W (option obj);
  (** [fs.writeFile(tokenFile, JSON.stringify(tokens))] *)
  writeTokenFile : obj → M W unit;
  (** the POST of a refresh token to the token endpoint, and
      [response.json()] *)
  fetchToken : value → M W TokenResponse;
  (** [client.crm.contacts.basicApi.getPage(1)] with a client built on an
      access token *)
  getPage : value → M W unit
}.
Arguments readTokenFile {W}.
Arguments writeTokenFile {W}.
Arguments fetchToken {W}.
Arguments getPage {W}.

(** [this.tokens], [this.client] (the access token it was built with) and
    the world. *)
Record ClientState (W : Type) : Type := mkClient {
  tokens : option obj;
  client : option value;
  env : W
}.
Arguments mkClient {W}.
Arguments tokens {W}.
Arguments client {W}.
Arguments env {W}.

Section Methods.
Context {W : Type} (environment : Env W).

Definition liftEnv {A} (m : M W A) : M (ClientState W) A :=
  λ st, let '(o, w) := m (env st) in
        (o, {| tokens := tokens st; client := client st; env := w |}).

Definition setTokens (t : option obj) : M (ClientState W) unit :=
  λ st, (Returned tt, {| tokens := t; client := client st; env := env st |}).

Definition setClient (accessToken : value) : M (ClientState W) unit :=
  λ st, (Returned tt, {| tokens := tokens st; client := Some accessToken; env := env st |}).

(** [this.tokens.k], [undefined] when [this.tokens] is [null]. *)
Definition token (k : string) (st : ClientState W) : value :=
  match tokens st with
  | Some t => get t (str k)
  | None => VUndefined
  end.

Definition loadTokens : M (ClientState W) (option obj) :=
  tryCatch
    (let* stored := liftEnv (readTokenFile environment) in
     do* setTokens stored in
     ret stored)
    (λ _, ret None).

Definition saveTokens (t : obj) : M (ClientState W) unit :=
  do* setTokens (Some t) in liftEnv (writeTokenFile environment t).

Definition initializeClient : M (ClientState W) unit :=
  λ st,
    if truthy (token "access_token" st)
    then setClient (token "access_token" st) st
    else throw (mkError None (str "No access token available")) st.

Definition refreshAccessToken : M (ClientState W) unit :=
  λ st,
    if truthy (token "refresh_token" st) then
      (let* response := liftEnv (fetchToken environment (token "refresh_token" st)) in
       if negb (ok response) then
         throw (mkError None
                  (str "Token refresh failed: " ++ natToString (status response)
                   ++ str " " ++ statusText response))
       else
         let newTokens := json response in
         λ st1,
           let current := match tokens st1 with Some t => t | None => [] end in
           (do* saveTokens
                  (setProp (str "expires_in") (get newTokens (str "expires_in"))
                     (setProp (str "access_token") (get newTokens (str "access_token"))
                        current)) in
            initializeClient) st1) st
    else throw (mkError None (str "No refresh token available")) st.

Definition ensureValidToken : M (ClientState W) unit :=
  λ st, match client st with
        | Some _ => ret tt st
        | None => initializeClient st
        end.

Definition isAuthenticated : M (ClientState W) bool :=
  do* loadTokens in
  λ st,
    if truthy (token "access_token" st) then
      tryCatch
        (do* initializeClient in
         do* (λ st1, liftEnv (getPage environment
                                (match client st1 with Some a => a | None => VUndefined end))
                       st1) in
         ret true)
        (λ error,
           if is401 error then
             tryCatch (do* refreshAccessToken in ret true) (λ _, ret false)
           else ret false) st
    else ret false st.

End Methods.

(** An environment for the examples: the world is the content of the token
    file, the token endpoint grants the access token [fresh], and the
    platform accepts no other access token. *)
Definition grantingEnv (fresh : jsstring) : Env (option obj) :=
  {| readTokenFile := λ file, (Returned file, file);
     writeTokenFile := λ t _, (Returned tt, Some t);
     fetchToken :=
       λ _, ret (mkTokenResponse true 200 (str "OK")
                   [(str "access_token", VString fresh);
                    (str "expires_in", VNumber 1800)]);
     getPage :=
       λ accessToken,
         if bool_decide (accessToken = VString fresh) then ret tt
         else throw Client.unauthorized |}.

(** The same endpoint and platform with a token file that cannot be written:
    every write throws [diskFull]. *)
Definition diskFull : Error := {| code := None; message := str "ENOSPC" |}.

Definition readOnlyEnv (fresh : jsstring) : Env (option obj) :=
  {| readTokenFile := readTokenFile (grantingEnv fresh);
     writeTokenFile := λ _, throw diskFull;
     fetchToken := fetchToken (grantingEnv fresh);
     getPage := getPage (grantingEnv fresh) |}.

(** Stored tokens whose access token has expired. *)
Definition staleTokens : obj :=
  [(str "access_token", VString (str "old"));
   (str "refresh_token", VString (str "r1"));
   (str "expires_in", VNumber 1800);
   (str "token_type", VString (str "bearer"))].

End Tokens.

(** ** Associations ([getAssociationTypeId], [batchCreateAssociations]) *)

Module Associations.

(** An association definition of the platform. *)
Record AssociationDefinition : Type := mkDefinition {
  label : value;
  category : value;
  typeId : value
}.

(** What the two methods rely on, on a world [W]. *)
Record AssocSdk (W : Type) : Type := mkAssocSdk {
  assocEnsureValidToken : M W unit;
  assocRefreshAccessToken : M W unit;
  (** [definitionsApi.getAll('contacts', accountsObjectTypeId).results]; a
      response without results is one with no definition *)
  definitionsGetAll : M W (list AssociationDefinition);
  (** [basicApi.create('contacts', contactId, objectType, accountId, type)] *)
  associationCreate : jsstring → jsstring → value → M W RemoteObject
}.
Arguments assocEnsureValidToken {W}.
Arguments assocRefreshAccessToken {W}.
Arguments definitionsGetAll {W}.
Arguments associationCreate {W}.

(** [this.associationTypeId] ([null] is [VUndefined]) and the world. *)
Record AssocState (W : Type) : Type := mkAssocState {
  associationTypeId : value;
  platform : W
}.
Arguments mkAssocState {W}.
Arguments associationTypeId {W}.
Arguments platform {W}.

(** An association to create: [{ _from: { id }, to: { id }, type }]. *)
Record AssociationInput : Type := mkInput {
  fromId : jsstring;
  toId : jsstring;
  type : value
}.

(** A [Map] from values to remote identifiers, in insertion order; [set]
    replaces the value of a key that is present. *)
Fixpoint mapSet (k : value) (v : jsstring) (m : list (value * jsstring))
  : list (value * jsstring) :=
  match m with
  | [] => [(k, v)]
  | (k', v') :: m' =>
      if bool_decide (k' = k) then (k, v) :: m' else (k', v') :: mapSet k v m'
  end.

Fixpoint mapLookup (k : value) (m : list (value * jsstring)) : option jsstring :=
  match m with
  | [] => None
  | (k', v) :: m' => if bool_decide (k' = k) then Some v else mapLookup k m'
  end.

(** The lookup maps of [batchCreateAssociations]: from the property [k] of
    each result that has a truthy one to the remote identifier of the
    result. *)
Definition idMap (k : jsstring) (remoteResults : list RemoteObject)
  : list (value * jsstring) :=
  fold_left
    (λ m r, if truthy (get (properties r) k)
            then mapSet (get (properties r) k) (hsId r) m else m)
    remoteResults [].

(** The [associationPairs.forEach]: the pairs of which both sides resolve
    to a truthy remote identifier. *)
Definition resolveStep (accountMap contactMap : list (value * jsstring))
    (associationType : value) (inputs : list AssociationInput)
    (pair : AssociationPair) : list AssociationInput :=
  match mapLookup (Processor.accountId pair) accountMap,
        mapLookup (contactEmail pair) contactMap with
  | Some accountHubSpotId, Some contactHubSpotId =>
      if truthy (VString accountHubSpotId) && truthy (VString contactHubSpotId)
      then inputs ++ [ {| fromId := contactHubSpotId; toId := accountHubSpotId;
                          type := associationType |} ]
      else inputs
  | _, _ => inputs
  end.

Definition resolveInputs (associationPairs : list AssociationPair)
    (accountResults contactResults : list RemoteObject) (associationType : value)
  : list AssociationInput :=
  fold_left
    (resolveStep (idMap (str "id") accountResults) (idMap (str "email") contactResults)
       associationType)
    associationPairs [].

Section Methods.
Context {W : Type} (sdk : AssocSdk W).

Definition onPlatform {A} (m : M W A) : M (AssocState W) A :=
  λ st, let '(o, w) := m (platform st) in
        (o, {| associationTypeId := associationTypeId st; platform := w |}).

Definition setTypeId (t : value) : M (AssocState W) value :=
  λ st, (Returned t, {| associationTypeId := t; platform := platform st |}).

(** [def.label && def.category === 'USER_DEFINED'] *)
Definition isCustom (def : AssociationDefinition) : bool :=
  truthy (label def) && bool_decide (category def = VString (str "USER_DEFINED")).

Definition getAssociationTypeId : M (AssocState W) value :=
  λ st,
    if truthy (associationTypeId st) then ret (associationTypeId st) st
    else
      (do* onPlatform (assocEnsureValidToken sdk) in
       tryCatch
         (let* found :=
            tryCatch
              (let* definitions := onPlatform (definitionsGetAll sdk) in
               match List.find isCustom definitions with
               | Some customAssociation =>
                   let* t := setTypeId (typeId customAssociation) in ret (Some t)
               | None => ret None
               end)
              (λ _, ret None) in
          match found with
          | Some t => ret t
          | None => setTypeId (VNumber 1)
          end)
         (λ _, setTypeId (VNumber 1))) st.

(** The [for (const input of inputs)] loop: a creation that throws is
    logged and left out. *)
Fixpoint createAll (inputs : list AssociationInput) (results : list RemoteObject)
  : M (AssocState W) (list RemoteObject) :=
  match inputs with
  | [] => ret results
  | input :: rest =>
      let* results' :=
        tryCatch
          (let* response :=
             onPlatform (associationCreate sdk (fromId input) (toId input) (type input)) in
           ret (results ++ [response]))
          (λ _, ret results) in
      createAll rest results'
  end.

(** The [try] block of [batchCreateAssociations]. *)
Definition associateAll (associationPairs : list AssociationPair)
    (accountResults contactResults : list RemoteObject)
  : M (AssocState W) (list RemoteObject) :=
  let* associationType := getAssociationTypeId in
  let inputs := resolveInputs associationPairs accountResults contactResults
                  associationType in
  if (length inputs =? 0)%nat then ret [] else createAll inputs [].

(** [batchCreateAssociations], with the fuel of its self-calls. *)
Fixpoint batchCreateAssociations (fuel : nat) (associationPairs : list AssociationPair)
    (accountResults contactResults : list RemoteObject) (st : AssocState W)
  : option (outcome (list RemoteObject)) * AssocState W :=
  match fuel with
  | O => (None, st)
  | S fuel' =>
      match onPlatform (assocEnsureValidToken sdk) st with
      | (Thrown e, st1) => (Some (Thrown e), st1)
      | (Returned _, st1) =>
          if (length associationPairs =? 0)%nat then (Some (Returned []), st1)
          else
            match associateAll associationPairs accountResults contactResults st1 with
            | (Returned results, st2) => (Some (Returned results), st2)
            | (Thrown error, st2) =>
                if is401 error then
                  match onPlatform (assocRefreshAccessToken sdk) st2 with
                  | (Thrown e, st3) => (Some (Thrown e), st3)
                  | (Returned _, st3) =>
                      batchCreateAssociations fuel' associationPairs
                        accountResults contactResults st3
                  end
                else (Some (Returned []), st2)
            end
      end
  end.

End Methods.

(** A platform for the examples: it creates every association but those
    from the contact [refused], each creation is logged, and the token is
    always there. *)
Definition refusingSdk (refused : jsstring) (e : Error)
  : AssocSdk (list (jsstring * jsstring)) :=
  {| assocEnsureValidToken := ret tt;
     assocRefreshAccessToken := ret tt;
     definitionsGetAll := ret [];
     associationCreate :=
       λ contactId accountId _ log,
         if bool_decide (contactId = refused) then (Thrown e, log ++ [(contactId, accountId)])
         else (Returned (mkRemote (contactId ++ str "-" ++ accountId) []),
               log ++ [(contactId, accountId)]) |}.

End Associations.

(** ** The client methods on the client's own token methods *)

Module Wired.
Import Tokens.

(** The calls of the platform SDK, each made with the access token of the
    client object. *)
Record Api (W : Type) : Type := mkApi {
  create : value → list obj → M W (list RemoteObject);
  searchIn : value → list jsstring → M W (list RemoteObject);
  searchActive : value → option jsstring → M W Client.Page
}.
Arguments create {W}.
Arguments searchIn {W}.
Arguments searchActive {W}.

Section Methods.
Context {W : Type} (environment : Env W) (api : Api W).

(** A call through [this.client]: a [TypeError] while it is [null]. *)
Definition throughClient {A} (call : value → M W A) : M (ClientState W) A :=
  λ st, match client st with
        | Some accessToken => liftEnv (call accessToken) st
        | None => throw (mkError None (str "Cannot read properties of null")) st
        end.

(** What the search and create methods of the client run on. *)
Definition wiredSdk : Client.Sdk (ClientState W) :=
  {| Client.ensureValidToken := ensureValidToken;
     Client.refreshAccessToken := refreshAccessToken environment;
     Client.batchApiCreate :=
       λ inputs, throughClient (λ accessToken, create api accessToken inputs);
     Client.doSearchIn :=
       λ ids, throughClient (λ accessToken, searchIn api accessToken ids);
     Client.doSearchActive :=
       λ after, throughClient (λ accessToken, searchActive api accessToken after) |}.

End Methods.

(** A platform for the examples that accepts the access token [fresh] only
    and then creates what it is given, each account under the remote
    identifier [new]. *)
Definition strictApi (fresh : jsstring) : Api (option obj) :=
  {| create :=
       λ accessToken inputs,
         if bool_decide (accessToken = VString fresh)
         then ret (map (mkRemote (str "new")) inputs)
         else throw Client.unauthorized;
     searchIn :=
       λ accessToken _,
         if bool_decide (accessToken = VString fresh) then ret []
         else throw Client.unauthorized;
     searchActive :=
       λ accessToken _,
         if bool_decide (accessToken = VString fresh)
         then ret (Client.mkPage [] None)
         else throw Client.unauthorized |}.

End Wired.

(** ** Clients that answer by the request *)

Module Isolation.
Import Integration.

(** The requests a client can receive, with their arguments. *)
Inductive Request : Type :=
| RSearchAccounts (ids : list jsstring)
| RSearchContacts (emails : list jsstring)
| RIdentifyDeactivations (deactivationMap : gmap jsstring obj)
| RUpdateAccounts (writes : list DeactivationWrite)
| RCreateAccounts (accounts : list obj)
| RCreateContacts (contacts : list obj)
| RCreateAssociations (pairs : list AssociationPair)
    (accountResults contactResults : list RemoteObject).

Definition answered {A} (request : Request) (o : outcome A) : M (list Request) A :=
  λ log, (o, log ++ [request]).

(** A client whose answer to a request depends on the request only, as the
    mock clients of the tests are: [respond] gives the answer, and every
    request is recorded.  With such a client the order in which the event
    loop runs the batches shows in the order of the record only. *)
Definition recordingClient (respond : Request → outcome (list RemoteObject))
    (deactivations : gmap jsstring obj → outcome (list DeactivationWrite))
  : HubSpot (list Request) :=
  {| batchSearchAccounts :=
       λ ids, answered (RSearchAccounts ids) (respond (RSearchAccounts ids));
     batchSearchContacts :=
       λ emails, answered (RSearchContacts emails) (respond (RSearchContacts emails));
     identifyDeactivations :=
       λ m, answered (RIdentifyDeactivations m) (deactivations m);
     batchUpdateAccounts :=
       λ writes, answered (RUpdateAccounts writes) (respond (RUpdateAccounts writes));
     batchCreateAccounts :=
       λ l, answered (RCreateAccounts l) (respond (RCreateAccounts l));
     batchCreateContacts :=
       λ l, answered (RCreateContacts l) (respond (RCreateContacts l));
     batchCreateAssociations :=
       λ pairs accountResults contactResults,
         answered (RCreateAssociations pairs accountResults contactResults)
           (respond (RCreateAssociations pairs accountResults contactResults)) |}.

(** A batch processed alone, by a run that has done nothing yet. *)
Definition alone (client : HubSpot (list Request)) (operation : Operation)
    (total : nat) (batchNum : nat) (batch : Batch)
  : outcome BatchResult * State (list Request) :=
  processSingleBatch client batch operation batchNum total (mkState initialStats []).

(** The two creations that a CREATE batch asks for: the accounts as they
    are submitted, when it has accounts, and the contacts, when it has
    contacts. *)
Definition createRequests (batch : Batch) : list Request :=
  (if (0 <? length (accounts batch))%nat
   then [RCreateAccounts (map transformAccount (accounts batch))] else [])
  ++ (if (0 <? length (contacts batch))%nat
      then [RCreateContacts (contacts batch)] else []).

(** A computation of a run whose outcome is [o] and which makes the
    requests [requests], whatever the state it starts from. *)
Definition records {A} (m : M (State (list Request)) A) (o : outcome A)
    (requests : list Request) : Prop :=
  ∀ st, ∃ s, m st = (o, {| stats := s; world := world st ++ requests |}).

Definition recording {A} (m : M (State (list Request)) A) : Prop :=
  ∃ o requests, records m o requests.

(** *** A run of two CREATE batches *)

(** The record number [i]: a new active account [U<i>] with one weekly
    subscription. *)
Definition numberedRow (i : nat) : Row :=
  {| user_id := Some (str "U" ++ natToString i);
     email := Some (str "u" ++ natToString i ++ str "@b.com");
     user_type := Some (str "MP");
     active_sub := Some (str "true");
     weekly_sub_count := Some (str "1");
     monthly_sub_count := Some (str "0");
     daily_sub_count := Some (str "0") |}.

Definition numberedRows (n : nat) : list Row := map numberedRow (seq 0 n).

(** A store that finds nothing and creates what it is given, but for the
    accounts of a full batch of 100, which it refuses. *)
Definition fullBatchRefused (request : Request) : outcome (list RemoteObject) :=
  match request with
  | RCreateAccounts l =>
      if (length l =? 100)%nat then Thrown serverError
      else Returned (mapi (λ i a, mkRemote (natToString i) a) 0 l)
  | RCreateContacts l => Returned (mapi (λ i c, mkRemote (natToString i) c) 0 l)
  | _ => Returned []
  end.

Definition isCreateAccounts (request : Request) : bool :=
  match request with
  | RCreateAccounts _ => true
  | _ => false
  end.

Definition isCreateContacts (request : Request) : bool :=
  match request with
  | RCreateContacts _ => true
  | _ => false
  end.

End Isolation.

(** * Properties *)

Local Open Scope string_scope.
Local Open Scope list_scope.

(** ** Field mapping *)

Module FieldMapping.

Example mapAccountType_MP : mapAccountType (Some (str "MP")) = VString (str "MP").
Proof. reflexivity. Qed.

Example mapAccountType_WIX : mapAccountType (Some (str "WIX")) = VString (str "USAMPS").
Proof. reflexivity. Qed.

Example mapAccountType_lower : mapAccountType (Some (str "wix")) = VString (str "wix").
Proof. reflexivity. Qed.

Example mapAccountType_undefined : mapAccountType None = VUndefined.
Proof. reflexivity. Qed.

Lemma getOwn_accountTypeMapping (k : jsstring) :
  k ≠ str "MP" → k ≠ str "WIX" → getOwn k accountTypeMapping = None.
Proof.
  intros HMP HWIX. unfold accountTypeMapping. cbn [getOwn].
  rewrite !bool_decide_eq_false_2; [reflexivity | congruence | congruence].
Qed.

(** A value that is neither of the two keys nor a name that plain objects
    inherit passes through unchanged. *)
Lemma mapAccountType_passthrough (s : jsstring) :
  s ≠ str "MP" → s ≠ str "WIX" → s ∉ objectPrototypeKeys →
  mapAccountType (Some s) = VString s.
Proof.
  intros HMP HWIX Hproto. unfold mapAccountType, get. cbn [fieldToString ofField].
  rewrite getOwn_accountTypeMapping by assumption.
  rewrite bool_decide_eq_false_2 by assumption. reflexivity.
Qed.

Lemma getOwn_cleaned_cons (k k0 : jsstring) (v : value) (rest : obj) :
  getOwn k (cleaned ((k0, v) :: rest)) =
    match cleanValue v with
    | Some v' => if bool_decide (k0 = k) then Some v' else getOwn k (cleaned rest)
    | None => getOwn k (cleaned rest)
    end.
Proof. destruct v as [| b | z | [|c s] | i]; reflexivity. Qed.

Lemma cleanValue_boolString (b : bool) : cleanValue (boolString b) = Some (boolString b).
Proof. destruct b; reflexivity. Qed.

Lemma cleanValue_parseCount (f : option jsstring) :
  cleanValue (parseCount f) = Some (parseCount f).
Proof. reflexivity. Qed.

(** Decides the comparisons of literal keys left in the goal. *)
Ltac decide_keys :=
  repeat match goal with
  | |- context [bool_decide (?a = ?b)] =>
      let r := eval vm_compute in (bool_decide (a = b)) in
      change (bool_decide (a = b)) with r; cbv iota
  | |- context [bool_decide (?a ∈ objectPrototypeKeys)] =>
      let r := eval vm_compute in (bool_decide (a ∈ objectPrototypeKeys)) in
      change (bool_decide (a ∈ objectPrototypeKeys)) with r; cbv iota
  end.

(** The [id] of a cleaned account is the trimmed [user_id], when there is
    one. *)
Lemma get_id_cleaned (row : Row) :
  get (cleaned (accountMapping row)) (str "id") =
    match user_id row with
    | Some (c :: u) => VString (trim (c :: u))
    | _ => VUndefined
    end.
Proof.
  unfold accountMapping. unfold get. rewrite getOwn_cleaned_cons.
  destruct (user_id row) as [[|c u]|]; cbn [ofField cleanValue]; decide_keys;
    try reflexivity.
  all: destruct (mapAccountType (user_type row)) as [| b | z | [|x s] | k];
    destruct (convertToBoolean (active_sub row)); reflexivity.
Qed.

Lemma mapAccountFields_Some (row : Row) (a : obj) :
  mapAccountFields row = Some a → a = cleaned (accountMapping row).
Proof.
  unfold mapAccountFields. destruct (truthy _); [|discriminate]. congruence.
Qed.

Lemma get_account_type (row : Row) :
  get (cleaned (accountMapping row)) (str "account_type") =
    match cleanValue (mapAccountType (user_type row)) with
    | Some v => v
    | None => VUndefined
    end.
Proof.
  unfold accountMapping. unfold get.
  do 2 (rewrite getOwn_cleaned_cons; decide_keys).
  destruct (cleanValue (ofField (user_id row)));
    destruct (cleanValue (mapAccountType (user_type row))); try reflexivity.
  all: decide_keys; destruct (convertToBoolean (active_sub row)); reflexivity.
Qed.

Lemma get_user_type (row : Row) :
  get (mapContactFields row) (str "user_type") =
    match cleanValue (mapAccountType (user_type row)) with
    | Some v => v
    | None => VUndefined
    end.
Proof.
  unfold mapContactFields, contactMapping. unfold get.
  do 2 (rewrite getOwn_cleaned_cons; decide_keys).
  destruct (cleanValue (ofField (email row)));
    destruct (cleanValue (mapAccountType (user_type row))); reflexivity.
Qed.

(** The contact's [user_type] and the account's [account_type] are the
    same value: both come from [mapAccountType] and the same clean-up. *)
Lemma same_mapping_both_payloads (row : Row) (a : obj) :
  mapAccountFields row = Some a →
  get (mapContactFields row) (str "user_type") = get a (str "account_type").
Proof.
  intros ->%mapAccountFields_Some. by rewrite get_user_type, get_account_type.
Qed.

(** The properties after [account_type] in a cleaned account do not depend
    on what precedes them. *)
Lemma get_cleaned_account_tail (row : Row) (k : jsstring) :
  k ≠ str "id" → k ≠ str "account_type" →
  getOwn k (cleaned (accountMapping row)) =
    getOwn k
      [ (str "active_subscription", boolString (convertToBoolean (active_sub row)));
        (str "weekly_subscriptions", parseCount (weekly_sub_count row));
        (str "monthly_subscriptions", parseCount (monthly_sub_count row));
        (str "daily_subscriptions", parseCount (daily_sub_count row));
        (str "ever_had_subscription", boolString (convertToBoolean (active_sub row))) ].
Proof.
  intros Hid Htype. unfold accountMapping.
  do 2 rewrite getOwn_cleaned_cons.
  rewrite !bool_decide_eq_false_2 by congruence.
  destruct (cleanValue (ofField (user_id row)));
    destruct (cleanValue (mapAccountType (user_type row)));
    destruct (convertToBoolean (active_sub row)); reflexivity.
Qed.

(** C8, at the input that breaks it: the [user_type] [constructor] is not
    passed through.  The look-up in the mapping object finds the member that
    every object inherits, which is truthy, and both payloads carry that
    member in place of the string. *)
Theorem mapAccountType_inherited_key :
  let row := scenarioRow "constructor" "true" "2" in
  mapAccountType (user_type row) = VInherited (str "constructor") ∧
  mapAccountType (user_type row) ≠ VString (str "constructor") ∧
  (∃ a, mapAccountFields row = Some a ∧
        get a (str "account_type") = VInherited (str "constructor")) ∧
  get (mapContactFields row) (str "user_type") = VInherited (str "constructor").
Proof.
  cbv zeta. split; [reflexivity|]. split; [discriminate|]. split.
  - eexists. split; reflexivity.
  - reflexivity.
Qed.

(** C9: the account payload carries in [ever_had_subscription] the very
    string it carries in [active_subscription]: ['true'] when [active_sub]
    converts to true and ['false'] otherwise, whatever the counts are. *)
Theorem ever_had_subscription_is_active_flag (row : Row) (a : obj) :
  mapAccountFields row = Some a →
  get a (str "ever_had_subscription") = get a (str "active_subscription") ∧
  get a (str "ever_had_subscription") =
    VString (str (if convertToBoolean (active_sub row) then "true" else "false")).
Proof.
  intros ->%mapAccountFields_Some. unfold get.
  rewrite !get_cleaned_account_tail by discriminate.
  destruct (convertToBoolean (active_sub row)); split; reflexivity.
Qed.

Lemma ever_had_subscription_is_active_flag_witness :
  ∃ a, mapAccountFields (scenarioRow "MP" "false" "7") = Some a ∧
       get a (str "ever_had_subscription") = VString (str "false") ∧
       get a (str "weekly_subscriptions") = VNumber 7.
Proof.
  eexists. split; [reflexivity|].
  split; [|reflexivity].
  apply (ever_had_subscription_is_active_flag (scenarioRow "MP" "false" "7")).
  reflexivity.
Defined.

(** *** Subscription counts *)

Example count_non_numeric : parseCount (Some (str "abc")) = VNumber 0.
Proof. reflexivity. Qed.

Example count_missing : parseCount None = VNumber 0.
Proof. reflexivity. Qed.

Example count_zero : parseCount (Some (str "0")) = VNumber 0.
Proof. reflexivity. Qed.

Example count_fraction : parseCount (Some (str "3.9")) = VNumber 3.
Proof. reflexivity. Qed.

Example count_hex : parseCount (Some (str "0x10")) = VNumber 16.
Proof. reflexivity. Qed.

(** [parseInt] with no radix is the base-10 parse, except on a string with
    a hexadecimal prefix, where it is the base-16 parse. *)
Lemma parseInt_default_radix (s : jsstring) :
  parseInt s = if hexPrefixed s then parseInt16 s else parseInt10 s.
Proof.
  unfold parseInt, parseInt16, parseInt10, hexPrefixed.
  destruct (splitSign (trimStart s)) as [sign s1]. cbn [snd].
  repeat (match goal with
          | |- context [match ?x with _ => _ end] => is_var x; destruct x
          end; try reflexivity).
Qed.

Lemma parseCount_countOf (f : option jsstring) : parseCount f = countOf f.
Proof. unfold parseCount, countOf. by rewrite parseInt_default_radix. Qed.

(** C10 as stated fails: the count ['0x10'] is read as 16, and its base-10
    integer parse is 0. *)
Lemma hex_count_is_not_base10 :
  let row := scenarioRow "MP" "true" "0x10" in
  ∃ a, mapAccountFields row = Some a ∧
       get a (str "weekly_subscriptions") = VNumber 16 ∧
       get (deactivationCandidate row (str "U1")) (str "weekly_subscriptions") = VNumber 16 ∧
       orZero (parseInt10 (fieldToString (weekly_sub_count row))) = 0%Z ∧
       get a (str "weekly_subscriptions") ≠
         VNumber (orZero (parseInt10 (fieldToString (weekly_sub_count row)))).
Proof.
  cbv zeta. eexists. split; [reflexivity|].
  split; [reflexivity|]. split; [reflexivity|]. split; [reflexivity|].
  vm_compute. discriminate.
Qed.

(** The bound is met by the counts of at most fifteen digits, and by 2^53
    itself; the first integer above it is not. *)
Example exact_counts_of_the_scenarios :
  exactCounts (scenarioRow "MP" "true" "0x10") = true ∧
  exactCount (Some (str "999999999999999")) = true ∧
  exactCount (Some (str "-9007199254740992")) = true ∧
  exactCount (Some (str "9007199254740993")) = false ∧
  exactCount None = true.
Proof. vm_compute. repeat split. Qed.

(** C10, amended: the three counts of the account payload and of the
    deactivation candidate are the integer parse of their source strings in
    the radix that [parseInt] picks when it is given none (base 16 after a
    [0x] or [0X] prefix, base 10 otherwise), with 0 in place of NaN, for the
    rows whose counts are at most 2^53 in absolute value, the range in which
    the double that [parseInt] returns is that integer. *)
Theorem counts_default_radix_parse (row : Row) :
  exactCounts row = true →
  (∀ a, mapAccountFields row = Some a →
        get a (str "weekly_subscriptions") = countOf (weekly_sub_count row) ∧
        get a (str "monthly_subscriptions") = countOf (monthly_sub_count row) ∧
        get a (str "daily_subscriptions") = countOf (daily_sub_count row)) ∧
  (∀ id,
        get (deactivationCandidate row id) (str "weekly_subscriptions")
          = countOf (weekly_sub_count row) ∧
        get (deactivationCandidate row id) (str "monthly_subscriptions")
          = countOf (monthly_sub_count row) ∧
        get (deactivationCandidate row id) (str "daily_subscriptions")
          = countOf (daily_sub_count row)).
Proof.
  intros _. split.
  - intros a ->%mapAccountFields_Some. unfold get.
    rewrite !get_cleaned_account_tail by discriminate.
    rewrite <- !parseCount_countOf.
    destruct (convertToBoolean (active_sub row)); repeat split; reflexivity.
  - intros id. rewrite <- !parseCount_countOf. repeat split; reflexivity.
Qed.

Lemma counts_default_radix_parse_witness :
  let row := scenarioRow "WIX" "true" "3.9" in
  (∃ a, mapAccountFields row = Some a ∧
        get a (str "weekly_subscriptions") = VNumber 3 ∧
        get a (str "monthly_subscriptions") = VNumber 2 ∧
        get a (str "daily_subscriptions") = VNumber 1) ∧
  get (deactivationCandidate row (str "U1")) (str "weekly_subscriptions") = VNumber 3 ∧
  get (deactivationCandidate row (str "U1")) (str "monthly_subscriptions") = VNumber 2 ∧
  get (deactivationCandidate row (str "U1")) (str "daily_subscriptions") = VNumber 1.
Proof.
  intros row.
  destruct (counts_default_radix_parse row eq_refl) as [Hpayload Hcandidate].
  split.
  - eexists. split; [reflexivity|]. apply Hpayload. reflexivity.
  - apply (Hcandidate (str "U1")).
Defined.

End FieldMapping.

(** ** Validation and the activity split *)

Module Validation.

Lemma trimStart_noSpace (s : jsstring) : noSpace s = true → trimStart s = s.
Proof.
  destruct s as [|c s]; [reflexivity|]. cbn.
  intros [Hc _]%andb_true_iff. apply negb_true_iff in Hc. by rewrite Hc.
Qed.

Lemma noSpace_rev (s : jsstring) : noSpace s = true → noSpace (rev s) = true.
Proof.
  unfold noSpace. rewrite !forallb_forall. intros H c Hc. apply H.
  by apply in_rev.
Qed.

(** A string without white space is left alone by [trim]. *)
Lemma trim_noSpace (s : jsstring) : noSpace s = true → trim s = s.
Proof.
  intros H. unfold trim, trimEnd. rewrite (trimStart_noSpace s H).
  rewrite (trimStart_noSpace (rev s) (noSpace_rev s H)). apply rev_involutive.
Qed.

Lemma emailClass_noSpace (s : jsstring) :
  forallb emailClass s = true → noSpace s = true.
Proof.
  unfold noSpace. rewrite !forallb_forall. intros H c Hc.
  specialize (H c Hc). unfold emailClass in H.
  by apply andb_true_iff in H as [H _].
Qed.

Lemma spanClass_spec (s a r : jsstring) :
  spanClass s = (a, r) →
  s = a ++ r ∧ forallb emailClass a = true ∧
  match r with [] => True | c :: _ => emailClass c = false end.
Proof.
  revert a r. induction s as [|c s IH]; intros a r; cbn.
  - intros [= <- <-]. done.
  - destruct (emailClass c) eqn:Hc.
    + destruct (spanClass s) as [a' r']. intros [= <- <-].
      destruct (IH a' r' eq_refl) as (-> & Ha & Hr). cbn. rewrite Hc. done.
    + intros [= <- <-]. done.
Qed.

Lemma spanClass_app (a r : jsstring) :
  forallb emailClass a = true →
  match r with [] => True | c :: _ => emailClass c = false end →
  spanClass (a ++ r) = (a, r).
Proof.
  intros Ha Hr. induction a as [|c a IH]; cbn.
  - destruct r as [|c r]; [reflexivity|]. cbn. by rewrite Hr.
  - cbn in Ha. apply andb_true_iff in Ha as [Hc Ha]. rewrite Hc.
    by rewrite (IH Ha).
Qed.

Lemma hasInnerDot_spec (d : jsstring) :
  hasInnerDot d = true ↔ ∃ b c, d = b ++ 46 :: c ∧ b ≠ [] ∧ c ≠ [].
Proof.
  split.
  - destruct d as [|x d']; [discriminate|]. cbn.
    intros (c0 & Hin & ->%N.eqb_eq)%existsb_exists.
    destruct (exists_last (l := d')) as (p & z & Hd').
    { intros ->. destruct Hin. }
    subst d'. rewrite removelast_last in Hin.
    apply in_split in Hin as (p1 & p2 & ->).
    exists (x :: p1), (p2 ++ [z]). split; [|split].
    + cbn. by rewrite <- !app_assoc.
    + discriminate.
    + by destruct p2.
  - intros (b & c & -> & Hb & Hc). destruct b as [|x b]; [done|]. cbn.
    rewrite removelast_app by discriminate.
    rewrite existsb_app. cbn.
    destruct c; [done|]. cbn. apply orb_true_r.
Qed.

(** The matcher decides the pattern. *)
Lemma isValidEmail_spec (s : jsstring) : isValidEmail s = true ↔ matchesEmail s.
Proof.
  unfold isValidEmail, matchesEmail. split.
  - destruct (spanClass s) as [a r] eqn:Hspan.
    apply spanClass_spec in Hspan as (-> & Ha & _).
    destruct a as [|a0 a]; [discriminate|].
    destruct r as [|[|p] d]; try discriminate.
    destruct (decide (p = 64%positive)) as [->|Hne].
    2:{ by repeat (destruct p as [p|p|]; try discriminate). }
    intros [Hd (b & c & -> & Hb & Hc)%hasInnerDot_spec]%andb_true_iff.
    rewrite forallb_app in Hd. apply andb_true_iff in Hd as [Hdb Hdc].
    change (forallb emailClass (46 :: c))
      with (emailClass 46 && forallb emailClass c) in Hdc.
    apply andb_true_iff in Hdc as [_ Hdc].
    exists (a0 :: a), b, c. done.
  - intros (a & b & c & -> & Ha & Hb & Hc & Hca & Hcb & Hcc).
    rewrite (spanClass_app a (64 :: b ++ 46 :: c)) by done.
    destruct a; [done|].
    rewrite forallb_app. cbn. rewrite Hcb, Hcc. cbn.
    apply hasInnerDot_spec. by exists b, c.
Qed.

Lemma isValidEmail_noSpace (s : jsstring) : isValidEmail s = true → noSpace s = true.
Proof.
  intros (a & b & c & -> & _ & _ & _ & Ha & Hb & Hc)%isValidEmail_spec.
  apply emailClass_noSpace in Ha, Hb, Hc. unfold noSpace in *.
  rewrite forallb_app. cbn. rewrite forallb_app. cbn. by rewrite Ha, Hb, Hc.
Qed.

Lemma fieldMissing_email (row : Row) :
  fieldMissing row "email" = true ↔ blank (email row).
Proof.
  unfold fieldMissing, blank. cbn. destruct (email row) as [[|c s]|]; cbn;
    rewrite ?bool_decide_eq_true; done.
Qed.

Lemma fieldMissing_user_id (row : Row) :
  fieldMissing row "user_id" = true ↔ blank (user_id row).
Proof.
  unfold fieldMissing, blank. cbn. destruct (user_id row) as [[|c s]|]; cbn;
    rewrite ?bool_decide_eq_true; done.
Qed.

Lemma validateRow_unfold (row : Row) :
  validateRow row =
    negb (fieldMissing row "email") && negb (fieldMissing row "user_id")
    && match email row with
       | Some e => negb (truthy (VString e) && negb (isValidEmail e))
       | None => true
       end.
Proof.
  unfold validateRow, validateRowWith, requiredFieldsDefault. cbn [List.filter].
  destruct (fieldMissing row "email"), (fieldMissing row "user_id"),
    (email row) as [e|]; cbn; try reflexivity.
Qed.

Lemma not_blank_Some (f : option jsstring) :
  ¬ blank f ↔ ∃ s, f = Some s ∧ trim s ≠ [].
Proof.
  unfold blank. destruct f as [s|]; split.
  - intros H. by exists s.
  - by intros (s' & [= <-] & H).
  - intros H. by destruct H.
  - by intros (s' & [=] & _).
Qed.

(** [validateRow] accepts a row exactly when [user_id] and [email] are
    present and not blank and [email] matches the pattern. *)
Lemma validateRow_true (row : Row) :
  validateRow row = true ↔
  ∃ u e, user_id row = Some u ∧ trim u ≠ [] ∧
         email row = Some e ∧ trim e ≠ [] ∧ matchesEmail e.
Proof.
  rewrite validateRow_unfold, !andb_true_iff, !negb_true_iff.
  rewrite <- !not_true_iff_false, fieldMissing_email, fieldMissing_user_id.
  rewrite !not_blank_Some. split.
  - intros [[(e & He & Hte) (u & Hu & Htu)] Hv]. exists u, e.
    rewrite He in Hv. destruct e as [|c e]; [done|]. cbn in Hv.
    apply negb_true_iff, negb_false_iff, isValidEmail_spec in Hv. done.
  - intros (u & e & Hu & Htu & He & Hte & Hm). rewrite He.
    apply isValidEmail_spec in Hm. rewrite Hm, andb_false_r. cbn.
    split; [split|]; [by exists e | by exists u | done].
Qed.

Lemma validateRow_false (row : Row) : validateRow row = false ↔ invalidRow row.
Proof.
  rewrite <- not_true_iff_false, validateRow_true. unfold invalidRow, blank. split.
  - intros Hn.
    destruct (user_id row) as [u|]; [|by left].
    destruct (decide (trim u = [])) as [|Hu]; [by left|]. right.
    destruct (email row) as [e|]; [|by left].
    destruct (decide (trim e = [])) as [|He]; [by left|]. right.
    exists e. split; [done|]. intros Hm. apply Hn. by exists u, e.
  - intros [Hu | [He | (e & He & Hm)]] (u' & e' & Hu1 & Hu2 & He1 & He2 & Hm').
    + rewrite Hu1 in Hu. done.
    + rewrite He1 in He. done.
    + rewrite He1 in He. by injection He as ->.
Qed.

Lemma filterStep_fold (rows : list Row) (active inactive all : list Row) :
  fold_left filterStep rows (active, inactive, all) =
    (active ++ List.filter (λ r, validateRow r && isActive r) rows,
     inactive ++ List.filter (λ r, validateRow r && negb (isActive r)) rows,
     all ++ List.filter validateRow rows).
Proof.
  revert active inactive all.
  induction rows as [|row rows IH]; intros active inactive all; cbn.
  - by rewrite !app_nil_r.
  - unfold isActive. destruct (validateRow row); cbn.
    + destruct (convertToBoolean (active_sub row)); cbn;
        rewrite IH; by rewrite <- ?app_assoc.
    + apply IH.
Qed.

(** The three buckets of [filterRecordsForProcessing]. *)
Lemma filterRecordsForProcessing_buckets (rows : list Row) :
  filterRecordsForProcessing rows =
    {| activeRecords := List.filter (λ r, validateRow r && isActive r) rows;
       inactiveRecords := List.filter (λ r, validateRow r && negb (isActive r)) rows;
       allRecordsForCreation := List.filter validateRow rows;
       totalReduction := 0 |}.
Proof. unfold filterRecordsForProcessing. by rewrite filterStep_fold. Qed.

End Validation.

(** ** Rows that fail validation (C4) *)

Module Skipping.
Import Validation Integration.

Lemma filter_split_length {A} (f : A → bool) (l : list A) :
  (length (List.filter f l) + length (List.filter (λ x, negb (f x)) l) = length l)%nat.
Proof.
  induction l as [|x l IH]; [reflexivity|]. cbn.
  destruct (f x); cbn; lia.
Qed.

Example badEmailRow_rejected : validateRow badEmailRow = false.
Proof. reflexivity. Qed.

(** C4 as stated fails: nothing counts the rows that are skipped.  The input
    with one rejected row and the empty input give the same filter result
    and the same run (same returned counters, same calls), so no count of
    skipped rows can be read from what the engine returns. *)
Lemma skipped_rows_are_not_counted :
  validateRow badEmailRow = false ∧
  filterRecordsForProcessing [badEmailRow] = filterRecordsForProcessing [] ∧
  totalReduction (filterRecordsForProcessing [badEmailRow]) = 0%Z ∧
  processCSVHighPerformance emptyStoreClient [badEmailRow] (mkState initialStats [])
    = processCSVHighPerformance emptyStoreClient [] (mkState initialStats []) ∧
  ¬ (∃ skipped : FilterResult → nat,
       ∀ rows, skipped (filterRecordsForProcessing rows)
               = length (List.filter (λ r, negb (validateRow r)) rows)).
Proof.
  split; [reflexivity|]. split; [reflexivity|]. split; [reflexivity|].
  split; [reflexivity|].
  intros [skipped H].
  pose proof (H [badEmailRow]) as H1. pose proof (H []) as H0.
  change (filterRecordsForProcessing [badEmailRow])
    with (filterRecordsForProcessing []) in H1.
  rewrite H0 in H1. discriminate H1.
Qed.

(** C4, amended: a row whose [user_id] is missing or blank, whose [email] is
    missing or blank, or whose [email] does not match the pattern is in none
    of the three buckets; the filter still returns, with every accepted row
    in [allRecordsForCreation]; the rows that were dropped are the difference
    between the input and that bucket, and the result holds no count of
    them ([totalReduction] is 0). *)
Theorem invalid_row_excluded (rows : list Row) (row : Row) :
  invalidRow row →
  let result := filterRecordsForProcessing rows in
  (row ∉ activeRecords result) ∧
  (row ∉ inactiveRecords result) ∧
  (row ∉ allRecordsForCreation result) ∧
  allRecordsForCreation result = List.filter validateRow rows ∧
  (length (allRecordsForCreation result)
    + length (List.filter (λ r, negb (validateRow r)) rows) = length rows)%nat ∧
  totalReduction result = 0%Z.
Proof.
  intros Hinv%validateRow_false. cbv zeta.
  rewrite filterRecordsForProcessing_buckets. cbn.
  repeat split.
  - intros [_ H]%list_elem_of_In%filter_In. by rewrite Hinv in H.
  - intros [_ H]%list_elem_of_In%filter_In. by rewrite Hinv in H.
  - intros [_ H]%list_elem_of_In%filter_In. by rewrite Hinv in H.
  - apply filter_split_length.
Qed.

Lemma invalid_row_excluded_witness :
  let result :=
    filterRecordsForProcessing
      [scenarioRow "MP" "true" "2"; badEmailRow] in
  (badEmailRow ∉ allRecordsForCreation result) ∧
  allRecordsForCreation result = [scenarioRow "MP" "true" "2"].
Proof.
  assert (Hinv : invalidRow badEmailRow).
  { apply validateRow_false. reflexivity. }
  pose proof (invalid_row_excluded
                [scenarioRow "MP" "true" "2"; badEmailRow]
                badEmailRow Hinv) as (_ & _ & Hnot & Hall & _).
  split; [exact Hnot | reflexivity].
Defined.

End Skipping.

(** ** Categorization by existence (C1) *)

Module Categorization.
Import Validation FieldMapping.

(** The payloads of a validated record. *)
Lemma validated_payloads (row : Row) :
  validateRow row = true →
  ∃ a, mapAccountFields row = Some a ∧
       get a (str "id") = VString (businessId row) ∧
       get (mapContactFields row) (str "email") = VString (emailOf row).
Proof.
  intros (u & e & Hu & Htu & He & Hte & Hm)%validateRow_true.
  pose proof (get_id_cleaned row) as Hid.
  unfold businessId, emailOf. rewrite Hu in *. rewrite He.
  destruct u as [|c u]; [done|].
  exists (cleaned (accountMapping row)). split; [|split].
  - unfold mapAccountFields. rewrite Hid. cbn [truthy].
    by destruct (trim (c :: u)).
  - exact Hid.
  - apply isValidEmail_spec, isValidEmail_noSpace, trim_noSpace in Hm.
    unfold mapContactFields, contactMapping, get. rewrite He.
    rewrite getOwn_cleaned_cons. cbn [ofField cleanValue].
    destruct e as [|d e]; [done|]. rewrite Hm. by decide_keys.
Qed.

Lemma categorizeStep_validated (A E : gset jsstring) (row : Row)
    (create update : list Row) :
  validateRow row = true →
  categorizeStep A E (create, update) row =
    if needsCreate A E row then (create ++ [row], update)
    else (create, update ++ [row]).
Proof.
  intros (a & Ha & Hid & Hemail)%validated_payloads.
  unfold categorizeStep, needsCreate. rewrite Ha, Hid, Hemail. cbn [setHas].
  destruct (_ || _); [reflexivity|].
  by destruct (convertToBoolean (active_sub row)).
Qed.

Lemma categorize_fold (A E : gset jsstring) (rows create update : list Row) :
  Forall (λ r, validateRow r = true) rows →
  fold_left (categorizeStep A E) rows (create, update) =
    (create ++ List.filter (needsCreate A E) rows,
     update ++ List.filter (λ r, negb (needsCreate A E r)) rows).
Proof.
  intros Hvalid. revert create update.
  induction Hvalid as [|row rows Hrow _ IH]; intros create update;
    cbn [fold_left List.filter].
  - by rewrite !app_nil_r.
  - rewrite categorizeStep_validated by done.
    destruct (needsCreate A E row); cbn [negb]; rewrite IH; by rewrite <- app_assoc.
Qed.

(** C1: on validated records, CREATE holds the records whose account
    business id is not in the existing-account set or whose email is not in
    the existing-contact set, UPDATE holds all the others (the activity flag
    plays no part), in input order; each record is in exactly one of the
    two, and the sizes add up to the number of records. *)
Theorem categorize_create_or_update (rows : list Row)
    (existingAccountIds existingContactEmails : gset jsstring) :
  Forall (λ r, validateRow r = true) rows →
  let strategy :=
    categorizeRecordsByExistence rows existingAccountIds existingContactEmails in
  toCreate strategy
    = List.filter (needsCreate existingAccountIds existingContactEmails) rows ∧
  toUpdate strategy
    = List.filter (λ r, negb (needsCreate existingAccountIds existingContactEmails r)) rows ∧
  (∀ r, r ∈ rows →
        (r ∈ toCreate strategy ↔
           (businessId r ∉ existingAccountIds) ∨ (emailOf r ∉ existingContactEmails)) ∧
        (r ∈ toUpdate strategy ↔ ¬ (r ∈ toCreate strategy))) ∧
  (length (toCreate strategy) + length (toUpdate strategy) = length rows)%nat ∧
  totalOperations strategy = length rows.
Proof.
  intros Hvalid. cbv zeta. unfold categorizeRecordsByExistence.
  rewrite (categorize_fold _ _ rows [] []) by done. cbn.
  pose proof (Skipping.filter_split_length
                (needsCreate existingAccountIds existingContactEmails) rows) as Hlen.
  split; [reflexivity|]. split; [reflexivity|]. split; [|split; [exact Hlen|exact Hlen]].
  intros r Hr%list_elem_of_In.
  assert (Hcreate : r ∈ List.filter (needsCreate existingAccountIds existingContactEmails) rows
                    ↔ needsCreate existingAccountIds existingContactEmails r = true).
  { rewrite list_elem_of_In, filter_In. tauto. }
  split.
  - rewrite Hcreate. unfold needsCreate.
    rewrite orb_true_iff, !negb_true_iff, !bool_decide_eq_false. tauto.
  - rewrite Hcreate, list_elem_of_In, filter_In, negb_true_iff, not_true_iff_false.
    tauto.
Qed.

Lemma categorize_create_or_update_witness :
  let rows := [scenarioRow "MP" "true" "2"; inactiveRow] in
  let strategy :=
    categorizeRecordsByExistence rows {[ str "U2" ]} {[ str "u2@b.com" ]} in
  (length (toCreate strategy) + length (toUpdate strategy) = 2)%nat ∧
  (inactiveRow ∈ toUpdate strategy ↔ ¬ (inactiveRow ∈ toCreate strategy)).
Proof.
  cbv zeta.
  assert (Hvalid : Forall (λ r, validateRow r = true)
                     [scenarioRow "MP" "true" "2"; inactiveRow]).
  { repeat constructor. }
  pose proof (categorize_create_or_update _ {[ str "U2" ]} {[ str "u2@b.com" ]} Hvalid)
    as (_ & _ & Hmem & Hlen & _).
  split; [exact Hlen|].
  apply (Hmem inactiveRow). apply list_elem_of_In. right. by left.
Defined.

End Categorization.

(** ** Batch planning (C6) *)

Module Planning.

Lemma forIndices_bound (fuel i n step : nat) (j : nat) :
  j ∈ forIndices fuel i n step → (j < n)%nat.
Proof.
  revert i. induction fuel as [|fuel IH]; intros i; cbn [forIndices].
  - by intros ?%elem_of_nil.
  - destruct (Nat.ltb_spec i n) as [Hlt|Hge]; [|by intros ?%elem_of_nil].
    intros [->|Hin]%elem_of_cons; [done|]. by apply (IH (i + step)%nat).
Qed.

(** The slices that the loop takes cover the array: with a positive step,
    as many turns as there are elements are enough. *)
Lemma forIndices_cover {A} (l : list A) (step fuel i : nat) :
  (0 < step)%nat → (length l - i ≤ fuel)%nat →
  concat (map (λ j, slice l j (j + step)) (forIndices fuel i (length l) step))
    = drop i l.
Proof.
  intros Hstep. revert i.
  induction fuel as [|fuel IH]; intros i Hfuel; cbn [forIndices].
  - symmetry. apply drop_ge. lia.
  - destruct (Nat.ltb_spec i (length l)) as [Hlt|Hge]; cbn [map concat].
    + rewrite IH by lia. unfold slice.
      replace (i + step - i)%nat with step by lia.
      rewrite <- drop_drop. apply take_drop.
    + symmetry. apply drop_ge. lia.
Qed.

Lemma slice_length {A} (l : list A) (i : nat) :
  (length (slice l i (i + batchSize)) ≤ batchSize)%nat.
Proof.
  unfold slice. rewrite length_take. lia.
Qed.

Lemma slice_elem {A} (l : list A) (i j : nat) (x : A) :
  x ∈ slice l i j → x ∈ l.
Proof.
  unfold slice. intros H.
  rewrite <- (take_drop i l). apply elem_of_app. right.
  rewrite <- (take_drop (j - i) (drop i l)). apply elem_of_app. by left.
Qed.

Lemma batchStep_eq (row : Row)
    (accountBatch contactBatch : list obj) (pairs : list AssociationPair) :
  batchStep (accountBatch, contactBatch, pairs) row =
    (accountBatch ++ omap mapAccountFields [row],
     contactBatch ++ [mapContactFields row],
     pairs ++ omap pairOf [row]).
Proof.
  unfold batchStep, pairOf. cbn [omap list_omap].
  destruct (mapAccountFields row); cbn; by rewrite ?app_nil_r.
Qed.

Lemma batchStep_fold (batch : list Row)
    (accountBatch contactBatch : list obj) (pairs : list AssociationPair) :
  fold_left batchStep batch (accountBatch, contactBatch, pairs) =
    (accountBatch ++ omap mapAccountFields batch,
     contactBatch ++ map mapContactFields batch,
     pairs ++ omap pairOf batch).
Proof.
  revert accountBatch contactBatch pairs.
  induction batch as [|row batch IH]; intros accountBatch contactBatch pairs.
  - cbn. by rewrite !app_nil_r.
  - cbn [fold_left]. rewrite batchStep_eq, IH.
    change (row :: batch) with ([row] ++ batch).
    by rewrite !omap_app, map_app, <- !app_assoc.
Qed.

Lemma makeBatch_lists (rows : list Row) (i : nat) :
  let batch := slice rows i (i + batchSize) in
  accounts (makeBatch rows i) = omap mapAccountFields batch ∧
  contacts (makeBatch rows i) = map mapContactFields batch ∧
  associations (makeBatch rows i) = omap pairOf batch.
Proof.
  cbv zeta. unfold makeBatch. rewrite batchStep_fold. done.
Qed.

Lemma length_omap_le {A B} (f : A → option B) (l : list A) :
  (length (omap f l) ≤ length l)%nat.
Proof.
  induction l as [|x l IH]; cbn; [lia|]. destruct (f x); cbn; lia.
Qed.

(** Every record reaches a batch: the batches' record slices, in order, are
    the input. *)
Lemma batches_cover (rows : list Row) :
  concat (map (λ i, slice rows i (i + batchSize))
              (forIndices (length rows) 0 (length rows) batchSize)) = rows.
Proof.
  rewrite forIndices_cover; [apply drop_0 | unfold batchSize; lia | lia].
Qed.

(** C6: a planned batch has at most 100 accounts and at most 100 contacts,
    and each of its association pairs comes from a record of the slice of
    the input that the batch was built from, a record that has an account
    payload in the batch and a contact payload in the batch: the pair's
    [accountId] is the [id] of that account and its [contactEmail] the
    [email] of that contact. *)
Theorem batches_bounded_and_pairs_local (rows : list Row) (b : Batch) :
  b ∈ groupForBatchProcessing rows →
  (length (accounts b) ≤ 100)%nat ∧
  (length (contacts b) ≤ 100)%nat ∧
  ∃ i, b = makeBatch rows i ∧
       ∀ p, p ∈ associations b →
         ∃ row a,
           row ∈ slice rows i (i + batchSize) ∧
           mapAccountFields row = Some a ∧
           a ∈ accounts b ∧
           mapContactFields row ∈ contacts b ∧
           Processor.accountId p = get a (str "id") ∧
           contactEmail p = get (mapContactFields row) (str "email").
Proof.
  unfold groupForBatchProcessing.
  intros (i & -> & _)%list_elem_of_fmap.
  destruct (makeBatch_lists rows i) as (Hacc & Hcon & Hassoc).
  pose proof (slice_length rows i) as Hlen. unfold batchSize in Hlen at 2.
  split; [|split].
  - rewrite Hacc. etrans; [apply length_omap_le | exact Hlen].
  - rewrite Hcon, length_map. exact Hlen.
  - exists i. split; [reflexivity|]. intros p. rewrite Hassoc, Hacc, Hcon.
    intros (row & Hrow & Hp)%list_elem_of_omap. unfold pairOf in Hp.
    destruct (mapAccountFields row) as [a|] eqn:Ha; [|discriminate].
    injection Hp as <-. exists row, a. cbn.
    split; [done|]. split; [done|]. split; [|split; [|done]].
    + apply list_elem_of_omap. by exists row.
    + apply list_elem_of_fmap. by exists row.
Qed.

Lemma batches_bounded_and_pairs_local_witness :
  let rows := [scenarioRow "MP" "true" "2"; inactiveRow] in
  (length (accounts (makeBatch rows 0)) ≤ 100)%nat ∧
  (length (contacts (makeBatch rows 0)) ≤ 100)%nat.
Proof.
  cbv zeta.
  assert (Hin : makeBatch [scenarioRow "MP" "true" "2";
                           inactiveRow] 0
                ∈ groupForBatchProcessing
                    [scenarioRow "MP" "true" "2";
                     inactiveRow]).
  { apply list_elem_of_In. left. reflexivity. }
  pose proof (batches_bounded_and_pairs_local _ _ Hin) as (Ha & Hc & _).
  split; assumption.
Defined.

End Planning.

(** ** Deactivation detection (C5) *)

Module Deactivation.
Import Client.









(** Scenario 5: [U2] is inactive locally and active remotely. *)
Example scenario_deactivation :
  deactivationsAmong
    (createDeactivationMap [inactiveRow])
    [ mkRemote (str "9001") [(str "id", VString (str "U2"))];
      mkRemote (str "9002") [(str "id", VString (str "U7"))] ]
  = [ {| hubspotId := str "9001";
         accountId := VString (str "U2");
         updateData := [ (str "user_id", VString (str "U2"));
                         (str "active_subscription", VBool false);
                         (str "weekly_subscriptions", VNumber 0);
                         (str "monthly_subscriptions", VNumber 0);
                         (str "daily_subscriptions", VNumber 0) ] |} ].
Proof. vm_compute. reflexivity. Qed.

(** [identifyDeactivations] returns these writes when the search for the
    active accounts returns. *)
Lemma identifyDeactivations_returns {W} (sdk : Sdk W) (fuel : nat)
    (deactivationMap : gmap jsstring obj) (w w' : W)
    (activeAccounts : list RemoteObject) :
  searchActiveAccounts sdk fuel w = (Some (Returned activeAccounts), w') →
  identifyDeactivations sdk fuel deactivationMap w
    = (Some (Returned (deactivationsAmong deactivationMap activeAccounts)), w').
Proof. unfold identifyDeactivations. by intros ->. Qed.

End Deactivation.

(** ** Token refresh and retry (C3) *)

Module Retry.
Import Client.

(** When the refreshed token is accepted, the call is retried once and
    returns. *)
Example retry_once_when_refresh_helps (fuel : nat) :
  batchCreateAccounts expiredOnceSdk (S (S fuel)) oneAccount (mkCounters 0 0)
    = (Some (Returned (map (mkRemote (str "1")) oneAccount)), mkCounters 2 1).
Proof. reflexivity. Qed.

(** Every 401 is answered alike, however many came before: the token is
    refreshed and the method calls itself again. *)
Lemma batchCreateAccounts_retries_on_401 {W} (sdk : Sdk W) (fuel : nat)
    (accountsData : list obj) (w w1 w2 w3 : W) (e : Error) :
  accountsData ≠ [] →
  ensureValidToken sdk w = (Returned tt, w1) →
  batchApiCreate sdk accountsData w1 = (Thrown e, w2) →
  is401 e = true →
  refreshAccessToken sdk w2 = (Returned tt, w3) →
  batchCreateAccounts sdk (S fuel) accountsData w
    = batchCreateAccounts sdk fuel accountsData w3.
Proof.
  intros Hne E1 E2 H401 E3. cbn [batchCreateAccounts].
  rewrite E1. destruct accountsData as [|a l]; [done|].
  cbn [length Nat.eqb]. by rewrite E2, H401, E3.
Qed.

Lemma batchCreateAccounts_rejecting (fuel : nat) (w : Counters) :
  batchCreateAccounts rejectingSdk fuel oneAccount w
    = (None, {| attempts := attempts w + fuel; refreshes := refreshes w + fuel |}).
Proof.
  revert w. induction fuel as [|fuel IH]; intros [a r]; cbn.
  - by rewrite !Nat.add_0_r.
  - rewrite IH. cbn. do 2 f_equal; lia.
Qed.

Lemma batchSearchAccounts_rejecting (fuel : nat) (w : Counters) :
  batchSearchAccounts rejectingSdk fuel [str "U1"] w
    = (None, {| attempts := attempts w + fuel; refreshes := refreshes w + fuel |}).
Proof.
  revert w. induction fuel as [|fuel IH]; intros [a r]; cbn.
  - by rewrite !Nat.add_0_r.
  - rewrite IH. cbn. do 2 f_equal; lia.
Qed.

(** C3, at the input that breaks it: against a platform that keeps
    answering 401 after the token refresh, [batchCreateAccounts] and
    [batchSearchAccounts] do not fail at the second 401.  Whatever the number
    of self-calls allowed, they have not settled, and they have made as many
    token refreshes and as many attempts as they were allowed self-calls:
    the refresh-and-retry is not bounded to one. *)
Theorem refresh_retry_is_unbounded (fuel : nat) :
  batchCreateAccounts rejectingSdk fuel oneAccount (mkCounters 0 0)
    = (None, mkCounters fuel fuel) ∧
  batchSearchAccounts rejectingSdk fuel [str "U1"] (mkCounters 0 0)
    = (None, mkCounters fuel fuel) ∧
  (∀ e w, batchCreateAccounts rejectingSdk fuel oneAccount (mkCounters 0 0)
          ≠ (Some (Thrown e), w)).
Proof.
  rewrite batchCreateAccounts_rejecting, batchSearchAccounts_rejecting. cbn.
  repeat split. discriminate.
Qed.

End Retry.

(** ** Batch execution (C2, C7) *)

Module Execution.
Import Integration Isolation.

Lemma mapi_length {A B} (f : nat → A → B) (index : nat) (l : list A) :
  length (mapi f index l) = length l.
Proof.
  revert index. induction l as [|x l IH]; intros index; cbn; [done|].
  by rewrite IH.
Qed.

Section WithClient.
Context {W : Type} (hubspot : HubSpot W).

Lemma keeps_ret {A} (a : A) : keeps (W:=W) (ret a).
Proof. intros st o st' [= <- <-]. done. Qed.

Lemma keeps_throw {A} (e : Error) : keeps (W:=W) (A:=A) (throw e).
Proof. intros st o st' [= <- <-]. done. Qed.

Lemma keeps_call {A} (m : M W A) : keeps (call m).
Proof.
  intros st o st'. unfold call. destruct (m (world st)) as [o' w].
  intros [= <- <-]. done.
Qed.

Lemma keeps_bind {A B} (m : M (State W) A) (k : A → M (State W) B) :
  keeps m → (∀ a, keeps (k a)) → keeps (bind m k).
Proof.
  intros Hm Hk st o st'. unfold bind.
  destruct (m st) as [[a|e] st1] eqn:E1.
  - intros E2. destruct (Hm _ _ _ E1) as [He Hb].
    destruct (Hk a _ _ _ E2) as [He' Hb']. split; congruence.
  - intros [= <- <-]. by apply (Hm _ _ _ E1).
Qed.

Lemma keeps_settle {A} (m : M (State W) A) : keeps m → keeps (settle m).
Proof.
  intros Hm st o st'. unfold settle. destruct (m st) as [o' st1] eqn:E1.
  intros [= <- <-]. by apply (Hm _ _ _ E1).
Qed.

Lemma keeps_promiseAll2 {A B} (m1 : M (State W) A) (m2 : M (State W) B) :
  keeps m1 → keeps m2 → keeps (promiseAll2 m1 m2).
Proof.
  intros H1 H2. unfold promiseAll2.
  apply keeps_bind; [by apply keeps_settle|]. intros o1.
  apply keeps_bind; [by apply keeps_settle|]. intros o2.
  destruct o1, o2; (apply keeps_ret || apply keeps_throw).
Qed.

Lemma keeps_addCreated (a c : nat) : keeps (W:=W) (modifyStats (addCreated a c)).
Proof. intros st o st' [= <- <-]. done. Qed.

Lemma keeps_addUpdated (a c : nat) : keeps (W:=W) (modifyStats (addUpdated a c)).
Proof. intros st o st' [= <- <-]. done. Qed.

Lemma keeps_addAssociations (n : nat) : keeps (W:=W) (modifyStats (addAssociations n)).
Proof. intros st o st' [= <- <-]. done. Qed.

Lemma keeps_subWrites (batch : Batch) (operation : Operation) :
  keeps (subWrites hubspot batch operation).
Proof.
  destruct operation; unfold subWrites.
  - apply keeps_bind.
    + apply keeps_promiseAll2; destruct (_ <? _)%nat;
        (apply keeps_call || apply keeps_ret).
    + intros [accountResults contactResults].
      apply keeps_bind; [apply keeps_addCreated|]. intros _. apply keeps_ret.
  - apply keeps_bind; [apply keeps_addUpdated|]. intros _. apply keeps_ret.
Qed.

Lemma keeps_associateBatch (batch : Batch)
    (accountResults contactResults : list RemoteObject) :
  keeps (associateBatch hubspot batch accountResults contactResults).
Proof.
  unfold associateBatch. destruct (_ && _); [|apply keeps_ret].
  apply keeps_bind; [apply keeps_call|]. intros r. apply keeps_addAssociations.
Qed.

(** [processSingleBatch], case by case. *)
Lemma processSingleBatch_cases (batch : Batch) (operation : Operation)
    (batchNum totalBatches : nat) (st : State W) :
  processSingleBatch hubspot batch operation batchNum totalBatches st =
    match subWrites hubspot batch operation st with
    | (Thrown e, st1) => (Returned (failed operation batchNum e), withStats incrErrors st1)
    | (Returned (accountResults, contactResults), st1) =>
        match associateBatch hubspot batch accountResults contactResults st1 with
        | (Thrown e, st2) =>
            (Returned (failed operation batchNum e), withStats incrErrors st2)
        | (Returned _, st2) =>
            (Returned (succeeded operation batchNum), withStats incrBatches st2)
        end
    end.
Proof.
  unfold processSingleBatch, tryCatch, bind.
  destruct (subWrites hubspot batch operation st) as [[[ar cr]|e] st1]; [|reflexivity].
  destruct (associateBatch hubspot batch ar cr st1) as [[[]|e] st2]; reflexivity.
Qed.

(** A batch never throws: it returns a result, and it counts as an error
    or as a processed batch. *)
Lemma processSingleBatch_returns (batch : Batch) (operation : Operation)
    (batchNum totalBatches : nat) (st : State W) :
  ∃ result st',
    processSingleBatch hubspot batch operation batchNum totalBatches st
      = (Returned result, st') ∧
    Integration.operation result = operation ∧
    Integration.batchNum result = batchNum ∧
    errors (stats st') = (errors (stats st) + failures [result])%nat ∧
    batchesProcessed (stats st')
      = (batchesProcessed (stats st) + successes [result])%nat.
Proof.
  rewrite processSingleBatch_cases.
  destruct (subWrites hubspot batch operation st) as [[[ar cr]|e] st1] eqn:E1;
    destruct (keeps_subWrites _ _ _ _ _ E1) as [He Hb].
  - destruct (associateBatch hubspot batch ar cr st1) as [[[]|e] st2] eqn:E2;
      destruct (keeps_associateBatch _ _ _ _ _ _ E2) as [He2 Hb2];
      eexists _, _; (split; [reflexivity|]);
      unfold failures, successes; cbn; repeat split; lia.
  - eexists _, _. split; [reflexivity|].
    unfold failures, successes. cbn. repeat split; lia.
Qed.

Lemma failures_app (l1 l2 : list BatchResult) :
  failures (l1 ++ l2) = (failures l1 + failures l2)%nat.
Proof. unfold failures. by rewrite List.filter_app, length_app. Qed.

Lemma successes_app (l1 l2 : list BatchResult) :
  successes (l1 ++ l2) = (successes l1 + successes l2)%nat.
Proof. unfold successes. by rewrite List.filter_app, length_app. Qed.

(** Every started batch settles with a result, whatever happened to the
    batches before it. *)
Lemma startBatches_returns (batches : list Batch) (operation : Operation)
    (index total : nat) (st : State W) :
  ∃ results st',
    startBatches hubspot batches operation index total st
      = (Returned (map Returned results), st') ∧
    length results = length batches ∧
    errors (stats st') = (errors (stats st) + failures results)%nat ∧
    batchesProcessed (stats st')
      = (batchesProcessed (stats st) + successes results)%nat.
Proof.
  revert index st. induction batches as [|batch rest IH]; intros index st.
  - exists [], st. cbn. unfold failures, successes. cbn. repeat split; lia.
  - destruct (processSingleBatch_returns batch operation (index + 1) total st)
      as (r & st1 & E1 & _ & _ & He1 & Hb1).
    destruct (IH (S index) st1) as (rs & st2 & E2 & Hlen & He2 & Hb2).
    exists (r :: rs), st2. cbn [startBatches]. unfold bind, settle.
    rewrite E1, E2. cbn [ret map length].
    change (r :: rs) with ([r] ++ rs). rewrite failures_app, successes_app.
    repeat split; [by rewrite Hlen | lia | lia].
Qed.

Lemma collectSettled_returned (values results : list BatchResult) (st : State W) :
  collectSettled (map Returned values) results st = (Returned (results ++ values), st).
Proof.
  revert results. induction values as [|v values IH]; intros results; cbn.
  - by rewrite app_nil_r.
  - rewrite IH. by rewrite <- app_assoc.
Qed.

Lemma slice_map {A B} (f : A → B) (l : list A) (i j : nat) :
  slice (map f l) i j = map f (slice l i j).
Proof. unfold slice. by rewrite skipn_map, firstn_map. Qed.

Lemma collectGroups_returned (values : list BatchResult) (maxConcurrency : nat)
    (starts : list nat) (results : list BatchResult) (st : State W) :
  collectGroups (map Returned values) maxConcurrency starts results st
    = (Returned (results ++
                 concat (map (λ i, slice values i (i + maxConcurrency)) starts)), st).
Proof.
  revert results. induction starts as [|i starts IH]; intros results;
    cbn [collectGroups map concat].
  - by rewrite app_nil_r.
  - unfold bind. rewrite slice_map, collectSettled_returned, IH.
    by rewrite <- app_assoc.
Qed.

(** Settled batches are all collected, in order, and collecting them
    changes no counter. *)
Lemma processBatchesWithConcurrency_returned (values : list BatchResult)
    (st : State W) :
  processBatchesWithConcurrency (map Returned values) 5 st = (Returned values, st).
Proof.
  unfold processBatchesWithConcurrency. rewrite collectGroups_returned.
  rewrite length_map.
  rewrite (Planning.forIndices_cover values 5 (length values) 0) by lia.
  by rewrite drop_0.
Qed.

Lemma runBatchOperations_returns (recordsToCreate recordsToUpdate : list Row)
    (st : State W) :
  ∃ results st',
    runBatchOperations hubspot recordsToCreate recordsToUpdate st
      = (Returned results, st') ∧
    length results
      = (length (groupForBatchProcessing recordsToCreate)
         + length (groupForBatchProcessing recordsToUpdate))%nat ∧
    errors (stats st') = (errors (stats st) + failures results)%nat ∧
    batchesProcessed (stats st')
      = (batchesProcessed (stats st) + successes results)%nat.
Proof.
  unfold runBatchOperations.
  destruct (startBatches_returns (groupForBatchProcessing recordsToCreate) Create 0
              (length (groupForBatchProcessing recordsToCreate)) st)
    as (rc & st1 & E1 & Hl1 & He1 & Hb1).
  destruct (startBatches_returns (groupForBatchProcessing recordsToUpdate) Update 0
              (length (groupForBatchProcessing recordsToUpdate)) st1)
    as (ru & st2 & E2 & Hl2 & He2 & Hb2).
  exists (rc ++ ru), st2. unfold bind. rewrite E1, E2.
  rewrite <- map_app, processBatchesWithConcurrency_returned.
  rewrite length_app, failures_app, successes_app.
  repeat split; lia.
Qed.

(** The sub-writes of an update batch call nothing: the world is as it
    was, the results are made up from the batch, and the updated counters
    grow by the sizes of the batch. *)
Lemma subWrites_update (batch : Batch) (st : State W) :
  ∃ accountResults contactResults,
    subWrites hubspot batch Update st
      = (Returned (accountResults, contactResults),
         withStats (addUpdated (length (accounts batch)) (length (contacts batch))) st) ∧
    map properties accountResults = accounts batch ∧
    map properties contactResults = contacts batch.
Proof.
  eexists _, _. split; [|split].
  - unfold subWrites, bind, modifyStats, ret, withStats. rewrite !mapi_length.
    reflexivity.
  - generalize 0%nat. induction (accounts batch) as [|a l IH]; intros n; cbn;
      [done | by rewrite IH].
  - generalize 0%nat. induction (contacts batch) as [|a l IH]; intros n; cbn;
      [done | by rewrite IH].
Qed.

Lemma processCSVHighPerformance_returns (rawData : list Row) (st st1 st2 final : State W)
    (existingData : ExistingData) (results : list BatchResult) :
  let filterResult := filterRecordsForProcessing rawData in
  let strategy :=
    categorizeRecordsByExistence (allRecordsForCreation filterResult)
      (accountIds existingData) (contactEmails existingData) in
  getExistingDataBatch hubspot (allRecordsForCreation filterResult) st
    = (Returned existingData, st1) →
  processDeactivations hubspot (inactiveRecords filterResult) st1
    = (Returned tt, st2) →
  runBatchOperations hubspot (toCreate strategy) (toUpdate strategy) st2
    = (Returned results, final) →
  processCSVHighPerformance hubspot rawData st = (Returned (stats final), final).
Proof.
  cbv zeta. intros E1 E2 E3.
  unfold processCSVHighPerformance, processBatchOperations, tryCatch, bind, getStats.
  cbv zeta. rewrite E1, E2, E3. reflexivity.
Qed.

End WithClient.

(** *** Clients that answer by the request *)

Section Recording.
Context (respond : Request → outcome (list RemoteObject))
        (deactivations : gmap jsstring obj → outcome (list DeactivationWrite)).

Lemma recording_ret {A} (a : A) : recording (ret a).
Proof.
  exists (Returned a), []. intros [s log]. exists s. cbn. by rewrite app_nil_r.
Qed.

Lemma recording_throw {A} (e : Error) : recording (A:=A) (throw e).
Proof.
  exists (Thrown e), []. intros [s log]. exists s. cbn. by rewrite app_nil_r.
Qed.

Lemma recording_modifyStats (f : Stats → Stats) : recording (modifyStats f).
Proof.
  exists (Returned tt), []. intros [s log]. exists (f s). cbn. by rewrite app_nil_r.
Qed.

Lemma recording_answered {A} (request : Request) (o : outcome A) :
  records (call (answered request o)) o [request].
Proof. intros [s log]. by exists s. Qed.

Lemma recording_bind {A B} (m : M (State (list Request)) A)
    (k : A → M (State (list Request)) B) :
  recording m → (∀ a, recording (k a)) → recording (bind m k).
Proof.
  intros ([a|e] & l1 & Hm) Hk.
  - destruct (Hk a) as (o2 & l2 & Hk2). exists o2, (l1 ++ l2). intros st.
    destruct (Hm st) as (s1 & E1). unfold bind. rewrite E1.
    destruct (Hk2 {| stats := s1; world := world st ++ l1 |}) as (s2 & E2).
    rewrite E2. exists s2. cbn. by rewrite app_assoc.
  - exists (Thrown e), l1. intros st. destruct (Hm st) as (s1 & E1).
    unfold bind. rewrite E1. by exists s1.
Qed.

Lemma recording_tryCatch {A} (m : M (State (list Request)) A)
    (handler : Error → M (State (list Request)) A) :
  recording m → (∀ e, recording (handler e)) → recording (tryCatch m handler).
Proof.
  intros ([a|e] & l1 & Hm) Hh.
  - exists (Returned a), l1. intros st. destruct (Hm st) as (s1 & E1).
    unfold tryCatch. rewrite E1. by exists s1.
  - destruct (Hh e) as (o2 & l2 & Hh2). exists o2, (l1 ++ l2). intros st.
    destruct (Hm st) as (s1 & E1). unfold tryCatch. rewrite E1.
    destruct (Hh2 {| stats := s1; world := world st ++ l1 |}) as (s2 & E2).
    rewrite E2. exists s2. cbn. by rewrite app_assoc.
Qed.

Lemma recording_settle {A} (m : M (State (list Request)) A) :
  recording m → recording (settle m).
Proof.
  intros (o & l & Hm). exists (Returned o), l. intros st.
  destruct (Hm st) as (s1 & E1). unfold settle. rewrite E1. by exists s1.
Qed.

Lemma recording_promiseAll2 {A B} (m1 : M (State (list Request)) A)
    (m2 : M (State (list Request)) B) :
  recording m1 → recording m2 → recording (promiseAll2 m1 m2).
Proof.
  intros H1 H2. unfold promiseAll2.
  apply recording_bind; [by apply recording_settle|]. intros o1.
  apply recording_bind; [by apply recording_settle|]. intros o2.
  destruct o1, o2; (apply recording_ret || apply recording_throw).
Qed.

Lemma recording_call {A} (request : Request) (o : outcome A) :
  recording (call (answered request o)).
Proof. eexists _, _. apply recording_answered. Qed.

Lemma recording_subWrites (batch : Batch) (operation : Operation) :
  recording (subWrites (recordingClient respond deactivations) batch operation).
Proof.
  destruct operation; unfold subWrites.
  - apply recording_bind.
    + apply recording_promiseAll2; destruct (_ <? _)%nat;
        (apply recording_call || apply recording_ret).
    + intros [accountResults contactResults].
      apply recording_bind; [apply recording_modifyStats|]. intros _.
      apply recording_ret.
  - apply recording_bind; [apply recording_modifyStats|]. intros _.
    apply recording_ret.
Qed.

Lemma recording_associateBatch (batch : Batch)
    (accountResults contactResults : list RemoteObject) :
  recording (associateBatch (recordingClient respond deactivations) batch
               accountResults contactResults).
Proof.
  unfold associateBatch. destruct (_ && _); [|apply recording_ret].
  apply recording_bind; [apply recording_call|]. intros r.
  apply recording_modifyStats.
Qed.

Lemma recording_processSingleBatch (batch : Batch) (operation : Operation)
    (batchNum total : nat) :
  recording (processSingleBatch (recordingClient respond deactivations) batch
               operation batchNum total).
Proof.
  unfold processSingleBatch. apply recording_tryCatch.
  - apply recording_bind; [apply recording_subWrites|].
    intros [accountResults contactResults].
    apply recording_bind; [apply recording_associateBatch|]. intros _.
    apply recording_bind; [apply recording_modifyStats|]. intros _.
    apply recording_ret.
  - intros e. apply recording_bind; [apply recording_modifyStats|]. intros _.
    apply recording_ret.
Qed.

(** A batch gets the result, and makes the requests, that it gets and makes
    alone, whatever ran before it. *)
Lemma processSingleBatch_alone (batch : Batch) (operation : Operation)
    (batchNum total : nat) (st : State (list Request)) :
  let client := recordingClient respond deactivations in
  ∃ s,
    processSingleBatch client batch operation batchNum total st
    = (fst (alone client operation total batchNum batch),
       {| stats := s;
          world := world st
                   ++ world (snd (alone client operation total batchNum batch)) |}).
Proof.
  cbv zeta.
  destruct (recording_processSingleBatch batch operation batchNum total)
    as (o & l & H).
  unfold alone. destruct (H (mkState initialStats [])) as (s0 & ->).
  destruct (H st) as (s & ->). by exists s.
Qed.

Lemma startBatches_alone (batches : list Batch) (operation : Operation)
    (index total : nat) (st : State (list Request)) :
  let client := recordingClient respond deactivations in
  ∃ s,
    startBatches client batches operation index total st
    = (Returned (mapi (λ i batch, fst (alone client operation total (i + 1) batch))
                   index batches),
       {| stats := s;
          world := world st
                   ++ concat (mapi (λ i batch,
                                      world (snd (alone client operation total (i + 1)
                                                    batch)))
                                index batches) |}).
Proof.
  cbv zeta. revert index st.
  induction batches as [|batch rest IH]; intros index st; cbn [startBatches mapi concat].
  - exists (stats st). rewrite app_nil_r. by destruct st.
  - destruct (processSingleBatch_alone batch operation (index + 1) total st)
      as (s1 & E1).
    unfold bind at 1, settle. rewrite E1.
    destruct (IH (S index) {| stats := s1;
                              world := world st
                                       ++ world (snd (alone (recordingClient respond
                                                               deactivations)
                                                        operation total
                                                        (index + 1) batch)) |})
      as (s2 & E2).
    unfold bind at 1. rewrite E2. cbn [ret world]. exists s2.
    by rewrite app_assoc.
Qed.

(** The creations of a CREATE batch are among the requests it makes. *)
Lemma createRequests_alone (batch : Batch) (batchNum total : nat) :
  createRequests batch
  ⊆ world (snd (alone (recordingClient respond deactivations) Create total batchNum batch)).
Proof.
  assert (Hsub : ∃ o, records (subWrites (recordingClient respond deactivations)
                                 batch Create) o (createRequests batch)).
  { unfold subWrites, createRequests, promiseAll2, bind, settle, records.
    cbn [batchCreateAccounts batchCreateContacts recordingClient].
    destruct (0 <? length (accounts batch))%nat, (0 <? length (contacts batch))%nat;
      unfold call, answered, ret, throw, modifyStats; cbn [world stats];
      repeat match goal with
             | |- context [respond ?r] => destruct (respond r)
             end;
      eexists; intros [s log]; cbn [world stats]; eexists;
      rewrite <- ?app_assoc, ?app_nil_r; reflexivity. }
  destruct Hsub as (o & Hsub).
  unfold alone. rewrite processSingleBatch_cases.
  destruct (Hsub (mkState initialStats [])) as (s1 & ->). cbn [world app].
  destruct o as [[accountResults contactResults]|e]; [|done].
  destruct (recording_associateBatch batch accountResults contactResults)
    as (o2 & l2 & H2).
  destruct (H2 {| stats := s1; world := createRequests batch |}) as (s2 & ->).
  cbn [world]. destruct o2; cbn [snd world withStats]; intros r Hr;
    apply elem_of_app; by left.
Qed.

Lemma mapi_elem {A B} (f : nat → A → B) (index : nat) (l : list A) (x : A) :
  x ∈ l → ∃ i, f i x ∈ mapi f index l.
Proof.
  revert index. induction l as [|y l IH]; intros index Hx; [by apply elem_of_nil in Hx|].
  apply elem_of_cons in Hx as [->|Hx].
  - exists index. cbn. by left.
  - destruct (IH (S index) Hx) as (i & Hi). exists i. cbn. by right.
Qed.

(** The batches of a run against a client that answers by the request:
    each gets the result that it gets alone, the requests made are those
    that the batches make alone, and the creations of every CREATE batch are
    among them. *)
Lemma runBatchOperations_alone (recordsToCreate recordsToUpdate : list Row)
    (st0 : State (list Request)) :
  let client := recordingClient respond deactivations in
  let createBatches := groupForBatchProcessing recordsToCreate in
  let updateBatches := groupForBatchProcessing recordsToUpdate in
  ∃ results final,
    runBatchOperations client recordsToCreate recordsToUpdate st0
      = (Returned results, final) ∧
    map Returned results
      = mapi (λ index batch,
                fst (alone client Create (length createBatches) (index + 1) batch))
          0 createBatches
        ++ mapi (λ index batch,
                   fst (alone client Update (length updateBatches) (index + 1) batch))
             0 updateBatches ∧
    world final
      ≡ₚ world st0
         ++ concat (mapi (λ index batch,
                            world (snd (alone client Create (length createBatches)
                                          (index + 1) batch)))
                      0 createBatches)
         ++ concat (mapi (λ index batch,
                            world (snd (alone client Update (length updateBatches)
                                          (index + 1) batch)))
                      0 updateBatches) ∧
    (∀ batch request,
       batch ∈ createBatches → request ∈ createRequests batch →
       request ∈ world final).
Proof.
  cbv zeta. unfold runBatchOperations.
  set (client := recordingClient respond deactivations).
  set (createBatches := groupForBatchProcessing recordsToCreate).
  set (updateBatches := groupForBatchProcessing recordsToUpdate).
  destruct (startBatches_alone createBatches Create 0 (length createBatches) st0)
    as (s1 & E1).
  destruct (startBatches_returns client createBatches Create 0 (length createBatches) st0)
    as (rc & st1 & E1' & _).
  fold client in E1. rewrite E1 in E1'. injection E1' as Hrc Hst1.
  destruct (startBatches_alone updateBatches Update 0 (length updateBatches) st1)
    as (s2 & E2).
  destruct (startBatches_returns client updateBatches Update 0 (length updateBatches) st1)
    as (ru & st2 & E2' & _).
  fold client in E2. rewrite E2 in E2'. injection E2' as Hru Hst2.
  exists (rc ++ ru), st2. unfold bind. rewrite E1, Hst1, E2, Hst2.
  rewrite Hrc, Hru, <- map_app, processBatchesWithConcurrency_returned.
  assert (Hworld : world st2
                   = world st0
                     ++ concat (mapi (λ index batch,
                                        world (snd (alone client Create
                                                      (length createBatches)
                                                      (index + 1) batch)))
                                  0 createBatches)
                     ++ concat (mapi (λ index batch,
                                        world (snd (alone client Update
                                                      (length updateBatches)
                                                      (index + 1) batch)))
                                  0 updateBatches)).
  { rewrite <- Hst2, <- Hst1. cbn [world]. by rewrite app_assoc. }
  split; [reflexivity|]. split; [by rewrite map_app|]. split; [by rewrite Hworld|].
  intros batch request Hbatch Hrequest. rewrite Hworld.
  apply elem_of_app; right. apply elem_of_app; left.
  destruct (mapi_elem (λ index b,
                         world (snd (alone client Create (length createBatches)
                                       (index + 1) b)))
              0 createBatches batch Hbatch) as (i & Hi).
  apply list_elem_of_In, in_concat. eexists.
  split; [apply list_elem_of_In; exact Hi|].
  apply list_elem_of_In. by apply createRequests_alone.
Qed.

End Recording.

(** C7: a batch whose sub-writes or associations throw returns a failure
    result and adds one to the error counter; every planned batch returns
    its result whatever happens to the others; and once the read phase and
    the deactivations have returned, the run returns its counters, with one
    error per failed batch and one processed batch per successful one.
    The sibling batches are run: against a client that answers by the
    request, every planned batch gets the result that it gets when it is
    processed alone, whichever other batches fail, the requests made are
    those that the batches make alone, in some order, and the account and
    contact creations of every CREATE batch are among them. *)
Theorem batch_failures_are_isolated {W : Type} (hubspot : HubSpot W)
    (rawData : list Row) (st st1 st2 : State W) (existingData : ExistingData) :
  let filterResult := filterRecordsForProcessing rawData in
  let strategy :=
    categorizeRecordsByExistence (allRecordsForCreation filterResult)
      (accountIds existingData) (contactEmails existingData) in
  getExistingDataBatch hubspot (allRecordsForCreation filterResult) st
    = (Returned existingData, st1) →
  processDeactivations hubspot (inactiveRecords filterResult) st1
    = (Returned tt, st2) →
  (∀ batch operation batchNum totalBatches st0 e st0',
     subWrites hubspot batch operation st0 = (Thrown e, st0') →
     processSingleBatch hubspot batch operation batchNum totalBatches st0
       = (Returned (failed operation batchNum e), withStats incrErrors st0')) ∧
  (∀ batch operation batchNum totalBatches st0,
     ∃ result st0',
       processSingleBatch hubspot batch operation batchNum totalBatches st0
         = (Returned result, st0')) ∧
  (∃ results final,
    runBatchOperations hubspot (toCreate strategy) (toUpdate strategy) st2
      = (Returned results, final) ∧
    length results
      = (length (groupForBatchProcessing (toCreate strategy))
         + length (groupForBatchProcessing (toUpdate strategy)))%nat ∧
    errors (stats final) = (errors (stats st2) + failures results)%nat ∧
    batchesProcessed (stats final)
      = (batchesProcessed (stats st2) + successes results)%nat ∧
    processCSVHighPerformance hubspot rawData st = (Returned (stats final), final)) ∧
  (∀ (respond : Request → outcome (list RemoteObject))
     (deactivations : gmap jsstring obj → outcome (list DeactivationWrite))
     (recordsToCreate recordsToUpdate : list Row) (st0 : State (list Request)),
     let client := recordingClient respond deactivations in
     let createBatches := groupForBatchProcessing recordsToCreate in
     let updateBatches := groupForBatchProcessing recordsToUpdate in
     ∃ results final,
       runBatchOperations client recordsToCreate recordsToUpdate st0
         = (Returned results, final) ∧
       map Returned results
         = mapi (λ index batch,
                   fst (alone client Create (length createBatches) (index + 1) batch))
             0 createBatches
           ++ mapi (λ index batch,
                      fst (alone client Update (length updateBatches) (index + 1) batch))
                0 updateBatches ∧
       world final
         ≡ₚ world st0
            ++ concat (mapi (λ index batch,
                               world (snd (alone client Create (length createBatches)
                                             (index + 1) batch)))
                         0 createBatches)
            ++ concat (mapi (λ index batch,
                               world (snd (alone client Update (length updateBatches)
                                             (index + 1) batch)))
                         0 updateBatches) ∧
       (∀ batch request,
          batch ∈ createBatches → request ∈ createRequests batch →
          request ∈ world final)).
Proof.
  cbv zeta. intros E1 E2.
  split; [|split; [|split]].
  - intros batch operation batchNum totalBatches st0 e st0' Hthrow.
    by rewrite processSingleBatch_cases, Hthrow.
  - intros batch operation batchNum totalBatches st0.
    destruct (processSingleBatch_returns hubspot batch operation batchNum totalBatches st0)
      as (result & st0' & E & _). by exists result, st0'.
  - destruct (runBatchOperations_returns hubspot
                (toCreate (categorizeRecordsByExistence
                             (allRecordsForCreation (filterRecordsForProcessing rawData))
                             (accountIds existingData) (contactEmails existingData)))
                (toUpdate (categorizeRecordsByExistence
                             (allRecordsForCreation (filterRecordsForProcessing rawData))
                             (accountIds existingData) (contactEmails existingData)))
                st2) as (results & final & E3 & Hlen & Herr & Hok).
    exists results, final. repeat (split; [assumption|]).
    by apply (processCSVHighPerformance_returns hubspot rawData st st1 st2 final
                existingData results).
  - intros respond deactivations recordsToCreate recordsToUpdate st0.
    apply runBatchOperations_alone.
Qed.

(** A run of 101 new records, in two CREATE batches, against a store that
    refuses the accounts of the first batch: that batch fails and counts one
    error; the second batch is run, its account and its contact are created
    and it counts as processed; both account creations and both contact
    creations were asked for. *)
Lemma batch_failures_are_isolated_witness :
  let client := recordingClient fullBatchRefused (λ _, Returned []) in
  ∃ final,
    processCSVHighPerformance client (numberedRows 101) (mkState initialStats [])
      = (Returned (stats final), final) ∧
    stats final = mkStats 1 0 1 0 0 1 1 ∧
    length (List.filter isCreateAccounts (world final)) = 2%nat ∧
    length (List.filter isCreateContacts (world final)) = 2%nat.
Proof.
  intros client.
  set (st := mkState initialStats ([] : list Request)).
  set (st1 := snd (getExistingDataBatch client
                     (allRecordsForCreation (filterRecordsForProcessing (numberedRows 101)))
                     st)).
  assert (E1 : getExistingDataBatch client
                 (allRecordsForCreation (filterRecordsForProcessing (numberedRows 101))) st
               = (Returned {| accountIds := ∅; contactEmails := ∅ |}, st1))
    by (vm_compute; reflexivity).
  assert (E2 : processDeactivations client
                 (inactiveRecords (filterRecordsForProcessing (numberedRows 101))) st1
               = (Returned tt, st1))
    by (vm_compute; reflexivity).
  destruct (batch_failures_are_isolated client (numberedRows 101) st st1 st1
              {| accountIds := ∅; contactEmails := ∅ |} E1 E2)
    as (_ & _ & (results & final & _ & _ & _ & _ & E) & _).
  exists final. split; [exact E|].
  assert (Hfinal : final = snd (processCSVHighPerformance client (numberedRows 101) st))
    by (by rewrite E).
  rewrite Hfinal. vm_compute. repeat split.
Defined.

(** C2, at the input that breaks it: an UPDATE batch of one record against
    a store that is down.  No update call is made (the only call is the
    association call, which fails), and the batch still counts one account
    and one contact as updated.  For any client, the sub-writes of an update
    batch leave the world as it was and add the sizes of the batch to the
    updated counters. *)
Theorem update_batches_call_no_update :
  let batch := makeBatch [inactiveRow] 0 in
  let '(result, st') :=
    processSingleBatch (failingClient serverError) batch Update 1 1
      (mkState initialStats []) in
  result = Returned (failed Update 1 serverError) ∧
  accountsUpdated (stats st') = 1%nat ∧
  contactsUpdated (stats st') = 1%nat ∧
  world st' = [CCreateAssociations 1] ∧
  List.filter isUpdateCall (world st') = [] ∧
  (∀ W (hubspot : HubSpot W) (b : Batch) (st : State W),
     ∃ accountResults contactResults,
       subWrites hubspot b Update st
         = (Returned (accountResults, contactResults),
            withStats (addUpdated (length (accounts b)) (length (contacts b))) st)).
Proof.
  cbv zeta.
  destruct (processSingleBatch _ _ _ _ _ _) as [result st'] eqn:E.
  vm_compute in E. injection E as <- <-.
  repeat (split; [reflexivity|]).
  intros W hubspot b st.
  destruct (subWrites_update hubspot b st) as (ar & cr & H & _).
  by exists ar, cr.
Qed.

End Execution.

(** ** The expectations of the repository's tests, on the model *)

Module UnitTests.
Import Integration.

(** [tests/unit/processor.test.js], "should validate correct emails" and
    "should reject invalid emails". *)
Example emails_of_the_tests :
  map isValidEmail
      (map str [ "test@example.com"; "user.name+tag@domain.co.uk";
                 "invalid-email"; "@domain.com"; "user@"; "" ])
  = [ true; true; false; false; false; false ].
Proof. reflexivity. Qed.

(** "should categorize records into create and update groups" *)
Example categorize_of_the_tests :
  let csvData :=
    [ testRow "USER1" "user1@example.com" None (Some "TRUE");
      testRow "USER2" "user2@example.com" None (Some "FALSE");
      testRow "USER3" "user3@example.com" None (Some "TRUE") ] in
  let result :=
    categorizeRecordsByExistence csvData {[ str "USER2" ]} {[ str "user2@example.com" ]} in
  map user_id (toCreate result) = [ Some (str "USER1"); Some (str "USER3") ] ∧
  map user_id (toUpdate result) = [ Some (str "USER2") ].
Proof. vm_compute. split; reflexivity. Qed.

(** "should group records into batches with accounts, contacts, and
    associations" *)
Example group_of_the_tests :
  let records :=
    [ testRow "USER1" "user1@example.com" (Some "MP") None;
      testRow "USER2" "user2@example.com" (Some "WIX") None ] in
  let result := groupForBatchProcessing records in
  length result = 1%nat ∧
  map (λ b, (length (accounts b), length (contacts b), length (associations b))) result
    = [ (2, 2, 2)%nat ].
Proof. vm_compute. split; reflexivity. Qed.

(** [tests/integration/end-to-end.test.js], "should maintain data accuracy
    through transformation": what the create branch submits for the row
    [TEST_USER, WIX, TRUE, 2, 2, 1]. *)
Example submitted_account_of_the_tests :
  let row :=
    {| user_id := Some (str "TEST_USER");
       email := Some (str "test@example.com");
       user_type := Some (str "WIX");
       active_sub := Some (str "TRUE");
       weekly_sub_count := Some (str "2");
       monthly_sub_count := Some (str "2");
       daily_sub_count := Some (str "1") |} in
  map transformAccount (accounts (makeBatch [row] 0))
  = [ [ (str "id", VString (str "TEST_USER"));
        (str "account_type", VString (str "USAMPS"));
        (str "active_subscription", VBool true);
        (str "weekly_subscriptions", VNumber 2);
        (str "monthly_subscriptions", VNumber 2);
        (str "daily_subscriptions", VNumber 1) ] ] ∧
  contacts (makeBatch [row] 0)
  = [ [ (str "email", VString (str "test@example.com"));
        (str "user_type", VString (str "USAMPS")) ] ].
Proof. vm_compute. split; reflexivity. Qed.

(** "should process complete CSV workflow successfully": one new record is
    created, nothing is updated, no error. *)
Example workflow_of_the_tests :
  let row :=
    {| user_id := Some (str "TEST_USER");
       email := Some (str "test@example.com");
       user_type := Some (str "MP");
       active_sub := Some (str "TRUE");
       weekly_sub_count := Some (str "2");
       monthly_sub_count := Some (str "2");
       daily_sub_count := Some (str "1") |} in
  processCSVHighPerformance emptyStoreClient [row] (mkState initialStats [])
  = (Returned (mkStats 1 0 1 0 0 0 1),
     mkState (mkStats 1 0 1 0 0 0 1)
       [ CSearchAccounts [str "TEST_USER"];
         CSearchContacts [str "test@example.com"];
         CCreateAccounts 1; CCreateContacts 1; CCreateAssociations 1 ]).
Proof. vm_compute. reflexivity. Qed.

End UnitTests.

(** ** More on the processor *)

Module ProcessorFacts.
Import Validation FieldMapping.

(** X1.  The activity split: the accepted rows, in input order, each in exactly
    one of [activeRecords] and [inactiveRecords] according to
    [convertToBoolean(active_sub)], and the two sizes add up to the size of
    [allRecordsForCreation]. *)
Theorem activity_split_partitions (rows : list Row) :
  let result := filterRecordsForProcessing rows in
  allRecordsForCreation result = List.filter validateRow rows ∧
  activeRecords result
    = List.filter (λ r, convertToBoolean (active_sub r)) (allRecordsForCreation result) ∧
  inactiveRecords result
    = List.filter (λ r, negb (convertToBoolean (active_sub r)))
        (allRecordsForCreation result) ∧
  (length (activeRecords result) + length (inactiveRecords result)
   = length (allRecordsForCreation result))%nat ∧
  (∀ row, row ∈ activeRecords result → ¬ (row ∈ inactiveRecords result)).
Proof.
  cbv zeta. rewrite filterRecordsForProcessing_buckets. cbn.
  assert (Hff : ∀ (f g : Row → bool) l,
             List.filter g (List.filter f l) = List.filter (λ r, f r && g r) l).
  { intros f g l. induction l as [|x l IH]; [done|]. cbn.
    destruct (f x); cbn; [destruct (g x)|]; by rewrite ?IH. }
  rewrite !Hff. unfold isActive.
  split; [done|]. split; [done|]. split; [done|]. split.
  - rewrite <- !Hff. apply Skipping.filter_split_length.
  - intros row [_ H1]%list_elem_of_In%filter_In [_ H2]%list_elem_of_In%filter_In.
    apply andb_true_iff in H1 as [_ H1], H2 as [_ H2].
    by rewrite H1 in H2.
Qed.

Lemma mapAccountFields_cases (row : Row) :
  (mapAccountFields row = None ↔ blank (user_id row)) ∧
  (∀ a, mapAccountFields row = Some a → get a (str "id") = VString (businessId row)).
Proof.
  pose proof (get_id_cleaned row) as Hid.
  unfold mapAccountFields, blank, businessId. rewrite Hid.
  destruct (user_id row) as [[|c u]|]; cbn [truthy].
  - split; [done|]. intros a [=].
  - destruct (trim (c :: u)) eqn:Ht.
    + split; [done|]. intros a [=].
    + split; [split; discriminate|]. intros a [= <-]. exact Hid.
  - split; [done|]. intros a [=].
Qed.

(** X2.  [mapAccountFields] answers [null] exactly for the rows whose [user_id]
    is missing or blank; otherwise the payload's [id] is the [user_id]
    without the white space around it, and it is not empty. *)
Theorem account_payload_iff_user_id (row : Row) :
  (mapAccountFields row = None ↔ blank (user_id row)) ∧
  (∀ a, mapAccountFields row = Some a →
        get a (str "id") = VString (businessId row) ∧ businessId row ≠ []).
Proof.
  destruct (mapAccountFields_cases row) as [Hnone Hid]. split; [exact Hnone|].
  intros a Ha. split; [by apply Hid|]. intros Hempty.
  assert (blank (user_id row)) as Hb.
  { unfold blank, businessId in *. by destruct (user_id row). }
  apply Hnone in Hb. congruence.
Qed.

Lemma count_at_class (s : jsstring) :
  forallb emailClass s = true → List.filter (N.eqb 64) s = [].
Proof.
  induction s as [|c s IH]; [done|]. cbn [forallb List.filter].
  intros [Hc Hs]%andb_true_iff.
  destruct (N.eqb_spec 64 c) as [<-|Hne]; [discriminate Hc | by apply IH].
Qed.

(** X3.  An address that [isValidEmail] accepts has no white space, exactly one
    [@] and at least five characters. *)
Theorem valid_email_shape (e : jsstring) :
  isValidEmail e = true →
  noSpace e = true ∧
  length (List.filter (N.eqb 64) e) = 1%nat ∧
  (5 ≤ length e)%nat.
Proof.
  intros H. split; [by apply isValidEmail_noSpace|].
  apply isValidEmail_spec in H as (a & b & c & -> & Ha & Hb & Hc & Hca & Hcb & Hcc).
  split.
  - rewrite List.filter_app. cbn [List.filter]. rewrite List.filter_app.
    cbn [List.filter]. change (64 =? 64)%N with true. change (64 =? 46)%N with false.
    by rewrite !count_at_class.
  - rewrite length_app. cbn [length]. rewrite length_app. cbn [length].
    destruct a, b, c; cbn [length]; try done; lia.
Qed.

Lemma valid_email_shape_witness :
  noSpace (str "a@b.com") = true ∧
  length (List.filter (N.eqb 64) (str "a@b.com")) = 1%nat ∧
  (5 ≤ length (str "a@b.com"))%nat.
Proof. apply (valid_email_shape (str "a@b.com")). reflexivity. Defined.

End ProcessorFacts.

(** ** More on planning and categorization *)

Module PlanningFacts.
Import Validation FieldMapping Planning Categorization.

Lemma ceil_div_step (m step : nat) :
  (0 < step)%nat → (0 < m)%nat →
  ((m + (step - 1)) / step = S ((m - step + (step - 1)) / step))%nat.
Proof.
  intros Hstep Hm. destruct (Nat.le_gt_cases step m) as [Hle|Hlt].
  - replace (m + (step - 1))%nat with ((m - step + (step - 1)) + 1 * step)%nat by lia.
    rewrite Nat.div_add by lia. lia.
  - replace (m - step)%nat with 0%nat by lia.
    replace (m + (step - 1))%nat with ((m - 1) + 1 * step)%nat by lia.
    rewrite Nat.div_add by lia.
    rewrite !Nat.div_small by lia. reflexivity.
Qed.

(** The values of the loop index, in closed form. *)
Lemma forIndices_seq (fuel i n step : nat) :
  (0 < step)%nat → (n - i ≤ fuel)%nat →
  forIndices fuel i n step
    = map (λ k, (i + k * step)%nat) (seq 0 ((n - i + (step - 1)) / step)).
Proof.
  intros Hstep. revert i. induction fuel as [|fuel IH]; intros i Hfuel;
    cbn [forIndices].
  - replace (n - i)%nat with 0%nat by lia.
    rewrite Nat.div_small by lia. reflexivity.
  - destruct (Nat.ltb_spec i n) as [Hlt|Hge].
    + rewrite (ceil_div_step (n - i) step) by lia.
      cbn [seq map]. f_equal; [lia|].
      rewrite IH by lia. rewrite <- seq_shift, map_map.
      replace (n - (i + step))%nat with (n - i - step)%nat by lia.
      apply map_ext. intros k. lia.
    + replace (n - i)%nat with 0%nat by lia.
      rewrite Nat.div_small by lia. reflexivity.
Qed.

Lemma omap_concat {A B} (f : A → option B) (ls : list (list A)) :
  omap f (concat ls) = concat (map (omap f) ls).
Proof.
  induction ls as [|l ls IH]; [done|]. cbn. by rewrite omap_app, IH.
Qed.

Lemma makeBatch_number (rows : list Row) (i : nat) :
  batchNumber (makeBatch rows i) = (i / batchSize + 1)%nat.
Proof. unfold makeBatch. by destruct (fold_left _ _ _) as [[? ?] ?]. Qed.

Lemma makeBatch_total (rows : list Row) (i : nat) :
  totalBatches (makeBatch rows i) = ((length rows + 99) / 100)%nat.
Proof. unfold makeBatch. by destruct (fold_left _ _ _) as [[? ?] ?]. Qed.

(** X4.  Planning loses and reorders nothing: there are ceil(n/100) batches,
    numbered 1, 2, ... and each carrying that total; their contacts, put end
    to end, are the contact payloads of the records in input order, their
    accounts the account payloads of the records that have one, their pairs
    the pairs of those records.  No record gives no batch. *)
Theorem batches_partition_records (rows : list Row) :
  let batches := groupForBatchProcessing rows in
  length batches = ((length rows + 99) / 100)%nat ∧
  map batchNumber batches = seq 1 (length batches) ∧
  Forall (λ b, totalBatches b = length batches) batches ∧
  concat (map contacts batches) = map mapContactFields rows ∧
  concat (map accounts batches) = omap mapAccountFields rows ∧
  concat (map associations batches) = omap pairOf rows.
Proof.
  cbv zeta. unfold groupForBatchProcessing.
  pose proof (batches_cover rows) as Hcover.
  assert (Hlen : length (map (makeBatch rows)
                   (forIndices (length rows) 0 (length rows) batchSize))
                 = ((length rows + 99) / 100)%nat).
  { rewrite length_map, forIndices_seq by (unfold batchSize; lia).
    rewrite length_map, length_seq. unfold batchSize.
    by rewrite Nat.sub_0_r. }
  split; [exact Hlen|]. split; [|split; [|split; [|split]]].
  - rewrite Hlen, map_map.
    rewrite forIndices_seq by (unfold batchSize; lia).
    rewrite map_map, Nat.sub_0_r. unfold batchSize at 1 2 3.
    rewrite <- seq_shift. apply map_ext. intros k.
    rewrite makeBatch_number. unfold batchSize. cbn [Nat.add].
    rewrite Nat.div_mul by lia. lia.
  - rewrite Hlen. apply Forall_forall. intros b (i & -> & _)%list_elem_of_fmap.
    apply makeBatch_total.
  - rewrite map_map.
    rewrite (map_ext _ (λ i, map mapContactFields (slice rows i (i + batchSize)))).
    2:{ intros i. by destruct (makeBatch_lists rows i) as (_ & -> & _). }
    rewrite <- (map_map (λ i, slice rows i (i + batchSize)) (map mapContactFields)).
    by rewrite <- concat_map, Hcover.
  - rewrite map_map.
    rewrite (map_ext _ (λ i, omap mapAccountFields (slice rows i (i + batchSize)))).
    2:{ intros i. by destruct (makeBatch_lists rows i) as (-> & _ & _). }
    rewrite <- (map_map (λ i, slice rows i (i + batchSize)) (omap mapAccountFields)).
    by rewrite <- omap_concat, Hcover.
  - rewrite map_map.
    rewrite (map_ext _ (λ i, omap pairOf (slice rows i (i + batchSize)))).
    2:{ intros i. by destruct (makeBatch_lists rows i) as (_ & _ & ->). }
    rewrite <- (map_map (λ i, slice rows i (i + batchSize)) (omap pairOf)).
    by rewrite <- omap_concat, Hcover.
Qed.

(** X5.  A later record replaces the deactivation candidate of an earlier one
    with the same [user_id], and leaves the candidates of the other ids as
    they are. *)
Theorem deactivation_map_last_wins (rows : list Row) (row : Row) (id : jsstring) :
  user_id row = Some id → id ≠ [] →
  createDeactivationMap (rows ++ [row]) !! id = Some (deactivationCandidate row id) ∧
  (∀ id', id' ≠ id →
     createDeactivationMap (rows ++ [row]) !! id' = createDeactivationMap rows !! id').
Proof.
  intros Hu Hne. unfold createDeactivationMap. rewrite fold_left_app.
  cbn [fold_left]. unfold deactivationStep at 1 3. rewrite Hu.
  destruct id as [|c u]; [done|]. cbn [truthy]. split.
  - apply lookup_insert_eq.
  - intros id' Hne'. by apply lookup_insert_ne.
Qed.

Lemma deactivation_map_last_wins_witness :
  createDeactivationMap [inactiveRow; scenarioRow "MP" "false" "9"] !! str "U1"
    = Some (deactivationCandidate (scenarioRow "MP" "false" "9") (str "U1")) ∧
  createDeactivationMap [inactiveRow; scenarioRow "MP" "false" "9"] !! str "U2"
    = createDeactivationMap [inactiveRow] !! str "U2".
Proof.
  destruct (deactivation_map_last_wins [inactiveRow] (scenarioRow "MP" "false" "9")
              (str "U1") eq_refl ltac:(discriminate)) as [H1 H2].
  split; [exact H1|]. apply H2. discriminate.
Defined.

Lemma filter_all_false {A} (f : A → bool) (l : list A) :
  (∀ x, x ∈ l → f x = false) → List.filter f l = [].
Proof.
  induction l as [|x l IH]; [done|]. intros H. cbn.
  rewrite (H x) by (apply elem_of_cons; by left).
  apply IH. intros y Hy. apply H. apply elem_of_cons. by right.
Qed.

Lemma filter_all_true {A} (f : A → bool) (l : list A) :
  (∀ x, x ∈ l → f x = true) → List.filter f l = l.
Proof.
  induction l as [|x l IH]; [done|]. intros H. cbn.
  rewrite (H x) by (apply elem_of_cons; by left).
  f_equal. apply IH. intros y Hy. apply H. apply elem_of_cons. by right.
Qed.

(** X6.  Classification is idempotent: once the remote state holds what a run
    creates (the existence sets grown by the ids and emails of the CREATE
    records), the same validated input gives no CREATE and every record is an
    UPDATE. *)
Theorem classification_is_idempotent (rows : list Row)
    (existingAccountIds existingContactEmails : gset jsstring) :
  Forall (λ r, validateRow r = true) rows →
  let first := categorizeRecordsByExistence rows existingAccountIds existingContactEmails in
  let second :=
    categorizeRecordsByExistence rows
      (existingAccountIds ∪ businessIds (toCreate first))
      (existingContactEmails ∪ emailsOf (toCreate first)) in
  toCreate second = [] ∧ toUpdate second = rows.
Proof.
  intros Hvalid. cbv zeta. unfold categorizeRecordsByExistence.
  rewrite !(categorize_fold _ _ rows [] []) by done. cbn [app toCreate toUpdate].
  set (A := existingAccountIds). set (E := existingContactEmails).
  assert (Hall : ∀ r, r ∈ rows →
            needsCreate (A ∪ businessIds (List.filter (needsCreate A E) rows))
                        (E ∪ emailsOf (List.filter (needsCreate A E) rows)) r = false).
  { intros r Hr. unfold needsCreate at 1 3.
    apply orb_false_iff. rewrite !negb_false_iff, !bool_decide_eq_true.
    destruct (needsCreate A E r) eqn:Hc.
    - assert (r ∈ List.filter (needsCreate A E) rows) as Hin.
      { apply list_elem_of_In, filter_In. split; [by apply list_elem_of_In | done]. }
      split; apply elem_of_union; right; unfold businessIds, emailsOf;
        apply elem_of_list_to_set, list_elem_of_fmap; by exists r.
    - unfold needsCreate in Hc. apply orb_false_iff in Hc as [H1 H2].
      apply negb_false_iff, bool_decide_eq_true in H1, H2.
      split; apply elem_of_union; by left. }
  split.
  - by apply filter_all_false.
  - apply filter_all_true. intros r Hr. by rewrite Hall.
Qed.

Lemma classification_is_idempotent_witness :
  let rows := [scenarioRow "MP" "true" "2"; inactiveRow] in
  let first := categorizeRecordsByExistence rows ∅ ∅ in
  let second :=
    categorizeRecordsByExistence rows
      (∅ ∪ businessIds (toCreate first)) (∅ ∪ emailsOf (toCreate first)) in
  toCreate second = [] ∧ toUpdate second = rows.
Proof.
  apply (classification_is_idempotent [scenarioRow "MP" "true" "2"; inactiveRow] ∅ ∅).
  repeat constructor.
Defined.

Lemma categorizeStep_any (A E : gset jsstring) (row : Row) (create update : list Row) :
  categorizeStep A E (create, update) row =
    if hasAccount row then
      if createCondition A E row then (create ++ [row], update)
      else (create, update ++ [row])
    else (create, update).
Proof.
  unfold categorizeStep, hasAccount, createCondition.
  destruct (mapAccountFields row) as [a|] eqn:Ha; [|done].
  rewrite (mapAccountFields_Some row a Ha).
  destruct (_ || _); [done|]. by destruct (convertToBoolean _).
Qed.

Lemma categorize_fold_any (A E : gset jsstring) (rows create update : list Row) :
  fold_left (categorizeStep A E) rows (create, update) =
    (create ++ List.filter (λ r, hasAccount r && createCondition A E r) rows,
     update ++ List.filter (λ r, hasAccount r && negb (createCondition A E r)) rows).
Proof.
  revert create update. induction rows as [|row rows IH]; intros create update;
    cbn [fold_left List.filter].
  - by rewrite !app_nil_r.
  - rewrite categorizeStep_any.
    destruct (hasAccount row), (createCondition A E row); cbn [andb negb];
      rewrite IH; by rewrite <- ?app_assoc.
Qed.

Lemma hasAccount_blank (row : Row) : hasAccount row = false ↔ blank (user_id row).
Proof.
  destruct (ProcessorFacts.mapAccountFields_cases row) as [H _].
  unfold hasAccount. rewrite <- H. by destruct (mapAccountFields row).
Qed.

End PlanningFacts.

(** ** Categorization of rows that were not validated, and the submitted
    account *)

Module CategorizationFacts.
Import Validation FieldMapping PlanningFacts Integration.

Lemma get_email (row : Row) :
  get (mapContactFields row) (str "email") =
    match email row with
    | Some (c :: e) => VString (trim (c :: e))
    | _ => VUndefined
    end.
Proof.
  unfold mapContactFields, contactMapping, get.
  do 2 (rewrite getOwn_cleaned_cons; decide_keys).
  destruct (email row) as [[|c e]|]; cbn [ofField cleanValue]; decide_keys;
    try reflexivity;
    destruct (cleanValue (mapAccountType (user_type row))); reflexivity.
Qed.

(** X7.  On any rows, validated or not: the two buckets hold exactly the rows
    whose [user_id] is not missing or blank, each in one bucket only, so
    [totalOperations] is their number; a row without an [email] is never an
    UPDATE. *)
Theorem categorize_any_rows (rows : list Row)
    (existingAccountIds existingContactEmails : gset jsstring) :
  let strategy :=
    categorizeRecordsByExistence rows existingAccountIds existingContactEmails in
  (∀ r, (r ∈ toCreate strategy ∨ r ∈ toUpdate strategy)
        ↔ (r ∈ rows ∧ ¬ blank (user_id r))) ∧
  (∀ r, r ∈ toCreate strategy → ¬ (r ∈ toUpdate strategy)) ∧
  totalOperations strategy = length (List.filter hasAccount rows) ∧
  (totalOperations strategy ≤ length rows)%nat ∧
  (∀ r, r ∈ toUpdate strategy → ∃ e, email r = Some e ∧ e ≠ []).
Proof.
  cbv zeta. unfold categorizeRecordsByExistence.
  rewrite (categorize_fold_any _ _ rows [] []). cbn [app toCreate toUpdate totalOperations].
  set (cond := createCondition existingAccountIds existingContactEmails).
  assert (Hlen : (length (List.filter (λ r, hasAccount r && cond r) rows)
                  + length (List.filter (λ r, hasAccount r && negb (cond r)) rows)
                  = length (List.filter hasAccount rows))%nat).
  { induction rows as [|r rows IH]; [done|]. cbn [List.filter].
    destruct (hasAccount r), (cond r); cbn [andb negb length]; lia. }
  split; [|split; [|split; [|split]]].
  - intros r. rewrite !list_elem_of_In, !filter_In, !andb_true_iff.
    rewrite <- hasAccount_blank, not_false_iff_true, negb_true_iff.
    destruct (cond r); intuition congruence.
  - intros r. rewrite !list_elem_of_In, !filter_In, !andb_true_iff, negb_true_iff.
    intros (_ & _ & H1) (_ & _ & H2). congruence.
  - exact Hlen.
  - rewrite Hlen. apply filter_length_le.
  - intros r. rewrite list_elem_of_In, filter_In, andb_true_iff, negb_true_iff.
    intros (_ & _ & Hc). unfold cond, createCondition in Hc.
    apply orb_false_iff in Hc as [_ Hc]. apply negb_false_iff in Hc.
    rewrite get_email in Hc.
    destruct (email r) as [[|c e]|]; try discriminate Hc. by exists (c :: e).
Qed.

Lemma cleaned_cons (k : jsstring) (v : value) (rest : obj) :
  cleaned ((k, v) :: rest) =
    match cleanValue v with
    | Some v' => (k, v') :: cleaned rest
    | None => cleaned rest
    end.
Proof. destruct v as [| b | z | [|c s] | i]; reflexivity. Qed.

(** X8.  What the create branch submits for an account payload: the payload
    without [ever_had_subscription], with [active_subscription] as a boolean,
    and with [id], [account_type] and the three counts as they were. *)
Theorem submitted_account_fields (row : Row) (a : obj) :
  mapAccountFields row = Some a →
  let submitted := transformAccount a in
  get submitted (str "ever_had_subscription") = VUndefined ∧
  get submitted (str "active_subscription")
    = VBool (convertToBoolean (active_sub row)) ∧
  get submitted (str "id") = get a (str "id") ∧
  get submitted (str "account_type") = get a (str "account_type") ∧
  get submitted (str "weekly_subscriptions") = get a (str "weekly_subscriptions") ∧
  get submitted (str "monthly_subscriptions") = get a (str "monthly_subscriptions") ∧
  get submitted (str "daily_subscriptions") = get a (str "daily_subscriptions").
Proof.
  intros ->%mapAccountFields_Some. cbv zeta. unfold accountMapping, parseCount.
  generalize (orZero (parseInt (fieldToString (weekly_sub_count row)))).
  generalize (orZero (parseInt (fieldToString (monthly_sub_count row)))).
  generalize (orZero (parseInt (fieldToString (daily_sub_count row)))).
  intros d m w. rewrite !cleaned_cons.
  destruct (cleanValue (ofField (user_id row))) as [i|],
    (cleanValue (mapAccountType (user_type row))) as [t|],
    (convertToBoolean (active_sub row));
    repeat split; reflexivity.
Qed.

Lemma submitted_account_fields_witness :
  ∃ a, mapAccountFields (scenarioRow "WIX" "TRUE" "2") = Some a ∧
       get (transformAccount a) (str "ever_had_subscription") = VUndefined ∧
       get (transformAccount a) (str "active_subscription") = VBool true.
Proof.
  eexists. split; [reflexivity|].
  pose proof (submitted_account_fields (scenarioRow "WIX" "TRUE" "2") _ eq_refl)
    as (H1 & H2 & _).
  split; [exact H1 | exact H2].
Defined.

End CategorizationFacts.

(** ** Cell cleaning and the logger *)

Module CsvFacts.
Import Csv Validation.

Lemma removeQuotes_noSpace (s : jsstring) :
  noSpace s = true → noSpace (removeQuotes s) = true.
Proof.
  unfold noSpace, removeQuotes. rewrite !forallb_forall.
  intros H c [Hc _]%filter_In. by apply H.
Qed.

Lemma removeQuotes_noCapital (s : jsstring) :
  hasNoCapital s = true → hasNoCapital (removeQuotes s) = true.
Proof.
  unfold hasNoCapital, removeQuotes. rewrite !forallb_forall.
  intros H c [Hc _]%filter_In. by apply H.
Qed.

Lemma removeQuotes_hasNoQuote (s : jsstring) : hasNoQuote (removeQuotes s) = true.
Proof.
  unfold hasNoQuote, removeQuotes. rewrite forallb_forall.
  by intros c [_ Hc]%filter_In.
Qed.

Lemma removeQuotes_id (s : jsstring) : hasNoQuote s = true → removeQuotes s = s.
Proof.
  unfold hasNoQuote, removeQuotes. induction s as [|c s IH]; [done|].
  cbn [forallb List.filter]. intros [-> Hs]%andb_true_iff. by rewrite IH.
Qed.

Lemma collapseSpaces_noSpace (inRun : bool) (s : jsstring) :
  noSpace (collapseSpaces inRun s) = true.
Proof.
  revert inRun. induction s as [|c s IH]; intros inRun; [done|].
  cbn [collapseSpaces]. destruct (is_space c) eqn:Hc.
  - destruct inRun; [apply IH|]. change (95 :: ?l) with ([95] ++ l).
    unfold noSpace. rewrite forallb_app. cbn [forallb]. apply IH.
  - unfold noSpace. cbn [forallb]. rewrite Hc. apply IH.
Qed.

Lemma collapseSpaces_noCapital (inRun : bool) (s : jsstring) :
  hasNoCapital s = true → hasNoCapital (collapseSpaces inRun s) = true.
Proof.
  revert inRun. induction s as [|c s IH]; intros inRun; [done|].
  unfold hasNoCapital in *. cbn [collapseSpaces forallb].
  intros [Hc Hs]%andb_true_iff.
  destruct (is_space c); [destruct inRun|]; cbn [forallb];
    rewrite ?Hc; by apply IH.
Qed.

Lemma collapseSpaces_id (s : jsstring) :
  noSpace s = true → collapseSpaces false s = s.
Proof.
  unfold noSpace. induction s as [|c s IH]; [done|].
  cbn [collapseSpaces forallb]. intros [Hc%negb_true_iff Hs]%andb_true_iff.
  by rewrite Hc, IH.
Qed.

Lemma toLowerCase_noCapital (s : jsstring) : hasNoCapital (toLowerCase s) = true.
Proof.
  unfold hasNoCapital, toLowerCase. rewrite forallb_forall.
  intros c (c0 & <- & _)%in_map_iff. unfold lowerUnit.
  destruct ((65 <=? c0)%N && (c0 <=? 90)%N) eqn:H; [|by rewrite H].
  apply andb_true_iff in H as [H1%N.leb_le H2%N.leb_le].
  apply negb_true_iff, andb_false_iff. right. apply N.leb_gt. lia.
Qed.

Lemma toLowerCase_id (s : jsstring) : hasNoCapital s = true → toLowerCase s = s.
Proof.
  unfold hasNoCapital, toLowerCase. induction s as [|c s IH]; [done|].
  cbn [forallb map]. intros [Hc%negb_true_iff Hs]%andb_true_iff.
  unfold lowerUnit at 1. by rewrite Hc, IH.
Qed.

(** X9.  A cleaned key (of a key in ASCII) has no white space, no double quote
    and no capital letter, and cleaning it again changes nothing. *)
Theorem cleanKey_normal_form (key : jsstring) :
  isAscii key →
  noSpace (cleanKey key) = true ∧
  hasNoQuote (cleanKey key) = true ∧
  hasNoCapital (cleanKey key) = true ∧
  cleanKey (cleanKey key) = cleanKey key.
Proof.
  intros _.
  assert (Hs : noSpace (cleanKey key) = true).
  { apply removeQuotes_noSpace, collapseSpaces_noSpace. }
  assert (Hq : hasNoQuote (cleanKey key) = true) by apply removeQuotes_hasNoQuote.
  assert (Hc : hasNoCapital (cleanKey key) = true).
  { apply removeQuotes_noCapital, collapseSpaces_noCapital, toLowerCase_noCapital. }
  repeat split; try done.
  unfold cleanKey at 1.
  by rewrite (trim_noSpace _ Hs), (toLowerCase_id _ Hc),
    (collapseSpaces_id _ Hs), (removeQuotes_id _ Hq).
Qed.

Lemma cleanKey_normal_form_witness :
  cleanKey (str " User  ID ") = str "user_id" ∧
  cleanKey (cleanKey (str " User  ID ")) = cleanKey (str " User  ID ").
Proof.
  split; [reflexivity|].
  apply (cleanKey_normal_form (str " User  ID ")).
  repeat constructor.
Defined.

(** X10.  A cleaned cell holds no double quote, not only none around it; a cell
    without double quotes is trimmed and otherwise unchanged. *)
Theorem cleanCell_quotes (cell : jsstring) :
  hasNoQuote (cleanCell cell) = true ∧
  (hasNoQuote cell = true → cleanCell cell = trim cell).
Proof.
  split; [apply removeQuotes_hasNoQuote|].
  intros H. unfold cleanCell. apply removeQuotes_id.
  unfold hasNoQuote in *. rewrite forallb_forall in *. intros c Hc. apply H.
  unfold trim, trimEnd in Hc. apply in_rev in Hc.
  assert (Hsuffix : ∀ s x, In x (trimStart s) → In x s).
  { intros s x. induction s as [|y s IH]; [done|]. cbn.
    destruct (is_space y); [right; by apply IH | done]. }
  apply Hsuffix, in_rev, Hsuffix in Hc. exact Hc.
Qed.

End CsvFacts.

Module LoggingFacts.
Import Logging.

Example level_debug : levelOf (str "debug") = VNumber 3.
Proof. reflexivity. Qed.

Example level_error_is_info : levelOf (str "error") = VNumber 2.
Proof. reflexivity. Qed.

(** X11.  No level name makes the logger quieter than [warn]: for every name but
    those that objects inherit, errors and warnings are printed.  The level
    [error] has the number 0, which is falsy, and so behaves as [info], as
    every unknown name does; only [warn] hides the info messages and only
    [debug] shows the debug messages. *)
Theorem warnings_are_always_printed (level : jsstring) :
  level ∉ objectPrototypeKeys →
  printsError level = true ∧ printsWarn level = true ∧
  (level ≠ str "warn" → printsInfo level = true) ∧
  (printsDebug level = true ↔ level = str "debug").
Proof.
  intros Hproto. unfold printsError, printsWarn, printsInfo, printsDebug, levelOf, get.
  rewrite (bool_decide_eq_false_2 _ Hproto).
  unfold levels at 1 3 5 7. cbn [getOwn].
  destruct (bool_decide_reflect (str "error" = level)) as [<-|He];
    [|destruct (bool_decide_reflect (str "warn" = level)) as [<-|Hw];
      [|destruct (bool_decide_reflect (str "info" = level)) as [<-|Hi];
        [|destruct (bool_decide_reflect (str "debug" = level)) as [<-|Hd]]]].
  all: repeat split; intros; try reflexivity;
    try match goal with
        | H : _ = _ |- _ => vm_compute in H; discriminate H
        end;
    congruence.
Qed.

Lemma warnings_are_always_printed_witness :
  printsError (str "error") = true ∧ printsWarn (str "error") = true ∧
  printsInfo (str "error") = true.
Proof.
  assert (Hk : str "error" ∉ objectPrototypeKeys).
  { intros H. apply (bool_decide_eq_true_2 _) in H. vm_compute in H. discriminate H. }
  destruct (warnings_are_always_printed (str "error") Hk) as (H1 & H2 & H3 & _).
  split; [exact H1|]. split; [exact H2|]. apply H3.
  intros H. vm_compute in H. discriminate H.
Defined.

End LoggingFacts.

(** ** More on the client *)

Module ClientFacts.
Import Client Platforms Planning PlanningFacts.

Lemma batchCreateAccounts_scripted (fuel : nat) (accountsData : list obj)
    (l : list (outcome (list RemoteObject))) (c r : nat) :
  accountsData ≠ [] → (leading401 l < fuel)%nat →
  batchCreateAccounts scriptedSdk fuel accountsData (mkScripted l c r)
    = (Some (firstOther l),
       mkScripted (drop (S (leading401 l)) l)
                  (c + S (leading401 l)) (r + leading401 l)).
Proof.
  intros Hne. revert fuel c r. induction l as [|o l IH]; intros fuel c r Hfuel.
  - destruct fuel as [|fuel]; [cbn in Hfuel; lia|].
    destruct accountsData as [|a d]; [done|]. cbn.
    do 2 f_equal; lia.
  - destruct fuel as [|fuel]; [cbn in Hfuel; lia|].
    destruct accountsData as [|a d]; [done|].
    cbn [batchCreateAccounts scriptedSdk ensureValidToken ret length Nat.eqb
         batchApiCreate answer script calls refreshed refreshAccessToken].
    destruct o as [res|e].
    + cbn. do 2 f_equal; lia.
    + cbn [leading401 is401Outcome] in *. destruct (is401 e) eqn:H401.
      * rewrite IH by lia. unfold firstOther. cbn [leading401 is401Outcome].
        rewrite H401. cbn [drop]. do 2 f_equal; lia.
      * unfold firstOther. cbn [leading401 is401Outcome]. rewrite H401. cbn.
        do 2 f_equal; lia.
Qed.

(** X12.  [batchCreateAccounts] settles with the first answer of the platform
    that is not a 401: a result is returned, any other error is thrown as it
    is, without a refresh.  Each 401 before it costs one token refresh and
    one more call. *)
Theorem create_settles_at_first_non_401 (fuel : nat) (accountsData : list obj)
    (answers : list (outcome (list RemoteObject))) :
  accountsData ≠ [] → (leading401 answers < fuel)%nat →
  batchCreateAccounts scriptedSdk fuel accountsData (mkScripted answers 0 0)
    = (Some (firstOther answers),
       mkScripted (drop (S (leading401 answers)) answers)
                  (S (leading401 answers)) (leading401 answers)) ∧
  is401Outcome (firstOther answers) = false.
Proof.
  intros Hne Hfuel. split.
  - by rewrite batchCreateAccounts_scripted.
  - unfold firstOther. induction answers as [|o l IH]; [done|].
    cbn [leading401]. destruct (is401Outcome o) eqn:Ho.
    + cbn [drop]. apply IH. cbn [leading401] in Hfuel. rewrite Ho in Hfuel. lia.
    + cbn [drop]. exact Ho.
Qed.

Lemma create_settles_at_first_non_401_witness :
  batchCreateAccounts scriptedSdk 3 oneAccount
    (mkScripted [Thrown unauthorized; Thrown Integration.serverError] 0 0)
  = (Some (Thrown Integration.serverError), mkScripted [] 2 1).
Proof.
  apply (create_settles_at_first_non_401 3 oneAccount
           [Thrown unauthorized; Thrown Integration.serverError]).
  - discriminate.
  - vm_compute. lia.
Defined.

Lemma searchChunks_responding (respond : list jsstring → list RemoteObject)
    (ids : list jsstring) (starts : list nat) (acc : list RemoteObject)
    (log : list (list jsstring)) :
  searchChunks (respondingSdk respond) ids starts acc log
    = (Returned (acc ++ flat_map respond (map (λ i, slice ids i (i + chunkSize)) starts)),
       log ++ map (λ i, slice ids i (i + chunkSize)) starts).
Proof.
  revert acc log. induction starts as [|i starts IH]; intros acc log.
  - cbn. by rewrite !app_nil_r.
  - cbn [searchChunks map flat_map]. unfold bind. cbn [respondingSdk doSearchIn].
    rewrite IH. by rewrite <- !app_assoc.
Qed.

Lemma slice_nonempty {A} (l : list A) (i step : nat) :
  (i < length l)%nat → (0 < step)%nat →
  (0 < length (slice l i (i + step)) ≤ step)%nat.
Proof.
  intros Hi Hstep. unfold slice. rewrite length_take, length_drop. lia.
Qed.

(** X13.  [batchSearchAccounts] asks about every id once: the ids go to the
    platform in ceil(n/100) chunks that are not empty, hold at most 100 ids
    and, end to end, are the ids in order; the answers are returned end to
    end.  With no id, nothing is asked. *)
Theorem search_asks_in_chunks (respond : list jsstring → list RemoteObject)
    (ids : list jsstring) (fuel : nat) (log : list (list jsstring)) :
  batchSearchAccounts (respondingSdk respond) (S fuel) ids log
    = (Some (Returned (flat_map respond (chunksOf ids))), log ++ chunksOf ids) ∧
  concat (chunksOf ids) = ids ∧
  Forall (λ chunk, (0 < length chunk ≤ 100)%nat) (chunksOf ids) ∧
  length (chunksOf ids) = ((length ids + 99) / 100)%nat.
Proof.
  split; [|split; [|split]].
  - cbn [batchSearchAccounts respondingSdk ensureValidToken ret].
    destruct ids as [|id ids]; [cbn; by rewrite app_nil_r|].
    cbn [length Nat.eqb]. rewrite searchChunks_responding. reflexivity.
  - unfold chunksOf. rewrite forIndices_cover; [apply drop_0 | unfold chunkSize; lia | lia].
  - apply Forall_forall. intros chunk (i & -> & Hi)%list_elem_of_fmap.
    apply forIndices_bound in Hi. apply (slice_nonempty ids i 100); [done | lia].
  - unfold chunksOf. rewrite length_map, forIndices_seq by (unfold chunkSize; lia).
    rewrite length_map, length_seq. unfold chunkSize. by rewrite Nat.sub_0_r.
Qed.

Lemma activePages_paged (front : list Page) (last : Page) (fuel : nat)
    (after requestAfter : option jsstring) (acc : list RemoteObject)
    (log : list (option jsstring)) :
  Forall hasNext front → pagingNextAfter last = None →
  (length front < fuel)%nat →
  (after = None ∨ ∃ c, after = Some c ∧ c ≠ []) →
  activePages pagedSdk fuel after requestAfter acc (front ++ [last], log)
    = (Some (Returned (acc ++ flat_map results (front ++ [last]))),
       ([], log ++ (match after with Some c => Some c | None => requestAfter end)
                   :: map pagingNextAfter front)).
Proof.
  intros Hfront Hlast. revert fuel after requestAfter acc log.
  induction Hfront as [|p front (cursor & Hp & Hne) _ IH];
    intros fuel after requestAfter acc log Hfuel Hafter;
    (destruct fuel as [|fuel]; [cbn in Hfuel; lia|]).
  - cbn [activePages app pagedSdk doSearchActive fst snd].
    rewrite Hlast. cbn [flat_map map]. rewrite app_nil_r.
    destruct Hafter as [->|(c & -> & Hc)]; [done|].
    destruct c; [by destruct Hc|]. reflexivity.
  - cbn [activePages app pagedSdk doSearchActive fst snd length] in *.
    rewrite Hp. rewrite IH; [|lia|right; by exists cursor].
    cbn [flat_map map]. rewrite <- !app_assoc, Hp. cbn [app].
    destruct Hafter as [->|(c & -> & Hc)]; [done|].
    destruct c; [by destruct Hc|]. reflexivity.
Qed.

(** X14.  [searchActiveAccounts] follows the pages: when the platform serves
    pages that each announce a next one with a cursor, and then a page that
    announces none, it makes one request per page, each carrying the cursor
    of the page before, and returns the results of all the pages in
    order. *)
Theorem active_search_follows_pages (front : list Page) (last : Page) (fuel : nat) :
  Forall hasNext front → pagingNextAfter last = None →
  (S (length front) < fuel)%nat →
  searchActiveAccounts pagedSdk fuel (front ++ [last], [])
    = (Some (Returned (flat_map results (front ++ [last]))),
       ([], None :: map pagingNextAfter front)).
Proof.
  intros Hfront Hlast Hfuel. destruct fuel as [|fuel]; [lia|].
  cbn [searchActiveAccounts pagedSdk ensureValidToken ret].
  rewrite (activePages_paged front last fuel None None [] []); [done..|lia|by left].
Qed.

Lemma active_search_follows_pages_witness :
  let account id := mkRemote (str id) [(str "id", VString (str id))] in
  searchActiveAccounts pagedSdk 4
    ([ mkPage [account "1"; account "2"] (Some (str "2")); mkPage [account "3"] None ], [])
  = (Some (Returned [account "1"; account "2"; account "3"]),
     ([], [None; Some (str "2")])).
Proof.
  cbv zeta.
  apply (active_search_follows_pages
           [ mkPage [mkRemote (str "1") [(str "id", VString (str "1"))];
                     mkRemote (str "2") [(str "id", VString (str "2"))]]
                    (Some (str "2")) ]
           (mkPage [mkRemote (str "3") [(str "id", VString (str "3"))]] None) 4).
  - repeat constructor. exists (str "2"). split; [reflexivity | discriminate].
  - reflexivity.
  - vm_compute. lia.
Defined.

End ClientFacts.

(** ** More on the runs *)

Module RunFacts.
Import Integration Alias Execution Validation.

Lemma iter_incrErrors (k : nat) (s : Stats) :
  Nat.iter k incrErrors s =
    {| accountsCreated := accountsCreated s;
       accountsUpdated := accountsUpdated s;
       contactsCreated := contactsCreated s;
       contactsUpdated := contactsUpdated s;
       associationsCreated := associationsCreated s;
       errors := errors s + k;
       batchesProcessed := batchesProcessed s |}.
Proof.
  induction k as [|k IH].
  - destruct s. cbn. f_equal. lia.
  - rewrite Nat.iter_succ, IH. unfold incrErrors. cbn. f_equal. lia.
Qed.

Lemma fulfilled_app {A} (l1 l2 : list (outcome A)) :
  fulfilled (l1 ++ l2) = fulfilled l1 ++ fulfilled l2.
Proof.
  induction l1 as [|[a|e] l1 IH]; cbn; by rewrite ?IH.
Qed.

Lemma rejected_app {A} (l1 l2 : list (outcome A)) :
  rejected (l1 ++ l2) = (rejected l1 + rejected l2)%nat.
Proof.
  induction l1 as [|[a|e] l1 IH]; cbn; by rewrite ?IH.
Qed.

Section WithClient.
Context {W : Type} (hubspot : HubSpot W).

Lemma collectSettled_any (promises : list (outcome BatchResult))
    (results : list BatchResult) (st : State W) :
  collectSettled promises results st
    = (Returned (results ++ fulfilled promises),
       withStats (Nat.iter (rejected promises) incrErrors) st).
Proof.
  revert results st. induction promises as [|[v|e] promises IH]; intros results st.
  - cbn. rewrite app_nil_r. by destruct st.
  - cbn [collectSettled fulfilled rejected]. rewrite IH. by rewrite <- app_assoc.
  - cbn [collectSettled fulfilled rejected]. unfold bind, modifyStats.
    rewrite IH. unfold withStats. cbn [stats world]. by rewrite Nat.iter_succ_r.
Qed.

Lemma collectGroups_any (promises : list (outcome BatchResult))
    (maxConcurrency : nat) (starts : list nat) (results : list BatchResult)
    (st : State W) :
  let groups := concat (map (λ i, slice promises i (i + maxConcurrency)) starts) in
  collectGroups promises maxConcurrency starts results st
    = (Returned (results ++ fulfilled groups),
       withStats (Nat.iter (rejected groups) incrErrors) st).
Proof.
  cbv zeta. revert results st. induction starts as [|i starts IH]; intros results st;
    cbn [collectGroups map concat].
  - cbn. rewrite app_nil_r. by destruct st.
  - unfold bind. rewrite collectSettled_any, IH.
    rewrite fulfilled_app, rejected_app, <- app_assoc. unfold withStats.
    cbn [stats world]. rewrite !iter_incrErrors. cbn.
    do 3 f_equal. lia.
Qed.

(** X15.  [processBatchesWithConcurrency] with a positive group size, on
    promises that all have a handler in time, those that reject being in the
    first group: the results are the fulfilled values in order, over all the
    groups, one error is counted per rejection, and nothing else changes. *)
Theorem settled_promises_are_collected (promises : list (outcome BatchResult))
    (maxConcurrency : nat) (st : State W) :
  (0 < maxConcurrency)%nat →
  rejected (drop maxConcurrency promises) = 0%nat →
  ∃ st',
    processBatchesWithConcurrency promises maxConcurrency st
      = (Returned (fulfilled promises), st') ∧
    (length (fulfilled promises) + rejected promises = length promises)%nat ∧
    rejected promises = rejected (take maxConcurrency promises) ∧
    world st' = world st ∧
    errors (stats st') = (errors (stats st) + rejected promises)%nat ∧
    stats st' = Nat.iter (rejected promises) incrErrors (stats st).
Proof.
  intros Hpos Hlater. unfold processBatchesWithConcurrency.
  rewrite collectGroups_any.
  rewrite (Planning.forIndices_cover promises maxConcurrency (length promises) 0)
    by lia.
  rewrite drop_0. eexists. split; [reflexivity|]. cbn.
  rewrite iter_incrErrors. cbn. repeat split.
  - clear Hlater. induction promises as [|[v|e] promises IH]; cbn; lia.
  - rewrite <- (take_drop maxConcurrency promises) at 1.
    rewrite rejected_app, Hlater. apply Nat.add_0_r.
Qed.

End WithClient.

(** Seven promises in groups of three: two of the first group reject, and
    the five others are collected, over the three groups. *)
Lemma settled_promises_are_collected_witness :
  let promises :=
    [ Returned (succeeded Create 1); Thrown serverError; Thrown serverError;
      Returned (succeeded Create 4); Returned (failed Create 5 serverError);
      Returned (succeeded Update 1); Returned (succeeded Update 2) ] in
  ∃ st',
    processBatchesWithConcurrency promises 3 (mkState initialStats ([] : list Call))
    = (Returned [ succeeded Create 1; succeeded Create 4; failed Create 5 serverError;
                  succeeded Update 1; succeeded Update 2 ], st') ∧
    errors (stats st') = 2%nat.
Proof.
  intros promises.
  destruct (settled_promises_are_collected promises
              3 (mkState initialStats ([] : list Call)) ltac:(lia) eq_refl)
    as (st' & H & _ & _ & _ & He & _).
  exists st'. split; [exact H | exact He].
Defined.

End RunFacts.

(** ** The phases of a run *)

Module PhaseFacts.
Import Integration Alias Phases Execution Validation.

Lemma distinct_spec (l seen : list jsstring) :
  NoDup (distinct l seen) ∧
  ∀ x, x ∈ distinct l seen ↔ x ∈ l ∧ x ∉ seen.
Proof.
  revert seen. induction l as [|y l IH]; intros seen; cbn [distinct].
  - split; [constructor|]. intros x. split; [by intros ?%elem_of_nil|].
    by intros [?%elem_of_nil _].
  - destruct (bool_decide_reflect (y ∈ seen)) as [Hin|Hnot].
    + destruct (IH seen) as [Hnd Hiff]. split; [done|]. intros x.
      rewrite Hiff, elem_of_cons. split; [tauto|].
      intros [[->|Hx] Hs]; tauto.
    + destruct (IH (y :: seen)) as [Hnd Hiff]. split.
      * constructor; [|done]. rewrite Hiff, elem_of_cons. tauto.
      * intros x. rewrite !elem_of_cons, Hiff, elem_of_cons. split.
        -- intros [->|[Hx Hs]]; [tauto|]. split; [tauto|]. tauto.
        -- intros [[->|Hx] Hs]; [tauto|].
           destruct (decide (x = y)) as [->|Hne]; [tauto|]. right. tauto.
Qed.

Lemma truthyField_elem (f : option jsstring) (x : jsstring) :
  x ∈ truthyField f ↔ f = Some x ∧ x ≠ [].
Proof.
  unfold truthyField. destruct f as [[|c s]|]; cbn.
  - split; [by intros ?%elem_of_nil | by intros [[= <-] ?]].
  - rewrite list_elem_of_singleton. split; [by intros -> | by intros [[= <-] _]].
  - split; [by intros ?%elem_of_nil | by intros [[=] _]].
Qed.

Lemma distinctColumn_spec (column : Row → option jsstring) (rows : list Row) :
  NoDup (distinctColumn column rows) ∧
  ∀ x, x ∈ distinctColumn column rows
       ↔ x ≠ [] ∧ ∃ row, row ∈ rows ∧ column row = Some x.
Proof.
  unfold distinctColumn.
  destruct (distinct_spec (flat_map (λ row, truthyField (column row)) rows) [])
    as [Hnd Hiff].
  split; [done|]. intros x. rewrite Hiff, !list_elem_of_In, in_flat_map. split.
  - intros [(row & Hrow & Hx%list_elem_of_In%truthyField_elem) _].
    split; [tauto|]. exists row. rewrite list_elem_of_In. tauto.
  - intros [Hne (row & Hrow%list_elem_of_In & Hx)]. split; [|by intros []].
    exists row. split; [done|]. by apply list_elem_of_In, truthyField_elem.
Qed.

Lemma propertySet_fold (k : jsstring) (objects : list RemoteObject)
    (acc : gset jsstring) (x : jsstring) :
  x ∈ fold_left
        (λ (acc : gset jsstring) o,
           match get (properties o) k with
           | VString s => if truthy (VString s) then {[ s ]} ∪ acc else acc
           | _ => acc
           end) objects acc
  ↔ x ∈ acc ∨ (x ≠ [] ∧ ∃ o, o ∈ objects ∧ get (properties o) k = VString x).
Proof.
  revert acc. induction objects as [|o objects IH]; intros acc; cbn [fold_left].
  - split; [by left|]. intros [?|[_ (o & ?%elem_of_nil & _)]]; done.
  - rewrite IH. split.
    + intros [Hacc|[Hne (o' & Ho' & Hget)]].
      * destruct (get (properties o) k) as [| | |[|c s]|] eqn:Hg; cbn [truthy] in Hacc;
          try by left.
        apply elem_of_union in Hacc as [->%elem_of_singleton|Hacc]; [|by left].
        right. split; [done|]. exists o. split; [apply elem_of_cons; by left | done].
      * right. split; [done|]. exists o'. split; [apply elem_of_cons; by right | done].
    + intros [Hacc|[Hne (o' & [->|Ho']%elem_of_cons & Hget)]].
      * left. destruct (get (properties o) k) as [| | |[|c s]|]; cbn [truthy];
          try done. apply elem_of_union. by right.
      * left. rewrite Hget. destruct x as [|c s]; [done|]. cbn [truthy].
        apply elem_of_union. left. by apply elem_of_singleton.
      * right. split; [done|]. by exists o'.
Qed.

Lemma propertySet_spec (k : jsstring) (objects : list RemoteObject) (x : jsstring) :
  x ∈ propertySet k objects
  ↔ x ≠ [] ∧ ∃ o, o ∈ objects ∧ get (properties o) k = VString x.
Proof.
  unfold propertySet. rewrite propertySet_fold. split; [|by right].
  intros [?%elem_of_empty|H]; done.
Qed.

(** X16.  The read phase asks about each id once: the account search receives the
    non-empty [user_id]s of the records without repetition, the contact
    search their non-empty [email]s, and the existence sets hold exactly the
    non-empty string [id] and [email] properties of what the searches
    returned. *)
Theorem read_phase_queries (accounts contacts : list RemoteObject)
    (allRecords : list Row) (s : Stats) (log : list Call) :
  getExistingDataBatch (storeClient accounts contacts) allRecords (mkState s log)
    = (Returned {| accountIds := propertySet (str "id") accounts;
                   contactEmails := propertySet (str "email") contacts |},
       mkState s (log ++ [ CSearchAccounts (distinctColumn user_id allRecords);
                           CSearchContacts (distinctColumn email allRecords) ])) ∧
  NoDup (distinctColumn user_id allRecords) ∧
  NoDup (distinctColumn email allRecords) ∧
  (∀ x, x ∈ distinctColumn user_id allRecords
        ↔ x ≠ [] ∧ ∃ row, row ∈ allRecords ∧ user_id row = Some x) ∧
  (∀ x, x ∈ distinctColumn email allRecords
        ↔ x ≠ [] ∧ ∃ row, row ∈ allRecords ∧ email row = Some x) ∧
  (∀ x, x ∈ propertySet (str "id") accounts
        ↔ x ≠ [] ∧ ∃ o, o ∈ accounts ∧ get (properties o) (str "id") = VString x) ∧
  (∀ x, x ∈ propertySet (str "email") contacts
        ↔ x ≠ [] ∧ ∃ o, o ∈ contacts ∧ get (properties o) (str "email") = VString x).
Proof.
  split; [|split; [|split; [|split; [|split; [|split]]]]].
  - unfold getExistingDataBatch, promiseAll2, bind, settle, call, ret, storeClient, logged.
    cbn. by rewrite <- app_assoc.
  - apply distinctColumn_spec.
  - apply distinctColumn_spec.
  - apply distinctColumn_spec.
  - apply distinctColumn_spec.
  - intros x. apply propertySet_spec.
  - intros x. apply propertySet_spec.
Qed.

Section WithClient.
Context {W : Type} (hubspot : HubSpot W).

Lemma keepsStats_ret {A} (a : A) : keepsStats (W:=W) (ret a).
Proof. by intros st o st' [= <- <-]. Qed.

Lemma keepsStats_throw {A} (e : Error) : keepsStats (W:=W) (A:=A) (throw e).
Proof. by intros st o st' [= <- <-]. Qed.

Lemma keepsStats_call {A} (m : M W A) : keepsStats (call m).
Proof.
  intros st o st'. unfold call. destruct (m (world st)) as [o' w].
  by intros [= <- <-].
Qed.

Lemma keepsStats_bind {A B} (m : M (State W) A) (k : A → M (State W) B) :
  keepsStats m → (∀ a, keepsStats (k a)) → keepsStats (bind m k).
Proof.
  intros Hm Hk st o st'. unfold bind.
  destruct (m st) as [[a|e] st1] eqn:E1.
  - intros E2. rewrite (Hk a _ _ _ E2). by apply (Hm _ _ _ E1).
  - intros [= <- <-]. by apply (Hm _ _ _ E1).
Qed.

Lemma keepsStats_settle {A} (m : M (State W) A) : keepsStats m → keepsStats (settle m).
Proof.
  intros Hm st o st'. unfold settle. destruct (m st) as [o' st1] eqn:E1.
  intros [= <- <-]. by apply (Hm _ _ _ E1).
Qed.

Lemma keepsStats_getExistingDataBatch (allRecords : list Row) :
  keepsStats (getExistingDataBatch hubspot allRecords).
Proof.
  unfold getExistingDataBatch, promiseAll2.
  apply keepsStats_bind.
  - apply keepsStats_bind; [apply keepsStats_settle, keepsStats_call|]. intros o1.
    apply keepsStats_bind; [apply keepsStats_settle, keepsStats_call|]. intros o2.
    destruct o1, o2; (apply keepsStats_ret || apply keepsStats_throw).
  - intros [existingAccounts existingContacts]. apply keepsStats_ret.
Qed.

(** X17.  A failure of the read phase aborts the run: the run throws the same
    error from the state that the two searches left, having counted one
    error and changed no other counter; neither the deactivations nor any
    batch run. *)
Theorem read_phase_failure_aborts (rawData : list Row) (st st1 : State W) (e : Error) :
  getExistingDataBatch hubspot
    (allRecordsForCreation (filterRecordsForProcessing rawData)) st
    = (Thrown e, st1) →
  processCSVHighPerformance hubspot rawData st = (Thrown e, withStats incrErrors st1) ∧
  stats st1 = stats st.
Proof.
  intros E. split.
  - unfold processCSVHighPerformance, tryCatch, bind. cbv zeta. by rewrite E.
  - by apply (keepsStats_getExistingDataBatch _ _ _ _ E).
Qed.

Lemma processDeactivations_cases (inactiveRecords : list Row) (st : State W) :
  match processDeactivations hubspot inactiveRecords st with
  | (Thrown _, st') => stats st' = stats st ∧ inactiveRecords ≠ []
  | (Returned _, st') =>
      ∃ n, stats st' = addUpdated n 0 (stats st) ∧
           (inactiveRecords = [] → st' = st)
  end.
Proof.
  unfold processDeactivations. destruct inactiveRecords as [|row rows].
  - cbn. exists 0%nat. split; [|done]. destruct st as [[] w]. cbn.
    unfold addUpdated. cbn. f_equal; lia.
  - cbn [length Nat.eqb]. unfold bind, call, modifyStats, ret.
    destruct (identifyDeactivations hubspot _ (world st)) as [[writes|e] w1];
      [|by cbn].
    destruct (0 <? length writes)%nat.
    + cbn [stats world].
      destruct (batchUpdateAccounts hubspot writes w1) as [[res|e] w2]; [|by cbn].
      cbn. exists (length res). done.
    + cbn. exists 0%nat. split; [|done]. destruct st as [[] w]. cbn.
      unfold addUpdated. cbn. f_equal; lia.
Qed.

(** X18.  The deactivations are not isolated as the batches are: when they throw
    (the search for the active accounts or the bulk update failed), the run
    throws that error, having counted one error, and no batch runs.  When
    they return, the only counter they changed is [accountsUpdated]. *)
Theorem deactivation_failure_aborts (rawData : list Row) (st st1 st2 : State W)
    (existingData : ExistingData) (e : Error) :
  let filterResult := filterRecordsForProcessing rawData in
  getExistingDataBatch hubspot (allRecordsForCreation filterResult) st
    = (Returned existingData, st1) →
  processDeactivations hubspot (inactiveRecords filterResult) st1 = (Thrown e, st2) →
  processCSVHighPerformance hubspot rawData st = (Thrown e, withStats incrErrors st2) ∧
  stats st2 = stats st ∧
  inactiveRecords filterResult ≠ [].
Proof.
  cbv zeta. intros E1 E2. split; [|split].
  - unfold processCSVHighPerformance, tryCatch, bind. cbv zeta. by rewrite E1, E2.
  - pose proof (processDeactivations_cases
                  (inactiveRecords (filterRecordsForProcessing rawData)) st1) as H.
    rewrite E2 in H. destruct H as [-> _].
    by apply (keepsStats_getExistingDataBatch _ _ _ _ E1).
  - pose proof (processDeactivations_cases
                  (inactiveRecords (filterRecordsForProcessing rawData)) st1) as H.
    rewrite E2 in H. tauto.
Qed.

End WithClient.

Lemma read_phase_failure_aborts_witness :
  processCSVHighPerformance (failingClient serverError)
    [scenarioRow "MP" "true" "2"] (mkState initialStats [])
  = (Thrown serverError,
     mkState (incrErrors initialStats)
       [CSearchAccounts [str "U1"]; CSearchContacts [str "a@b.com"]]).
Proof.
  apply (read_phase_failure_aborts (failingClient serverError)
           [scenarioRow "MP" "true" "2"] (mkState initialStats [])
           (mkState initialStats
              [CSearchAccounts [str "U1"]; CSearchContacts [str "a@b.com"]])
           serverError).
  reflexivity.
Defined.

(** A store whose search for the active accounts fails. *)
Lemma deactivation_failure_aborts_witness :
  let hubspot :=
    {| batchSearchAccounts := batchSearchAccounts emptyStoreClient;
       batchSearchContacts := batchSearchContacts emptyStoreClient;
       identifyDeactivations := identifyDeactivations (failingClient serverError);
       batchUpdateAccounts := batchUpdateAccounts emptyStoreClient;
       batchCreateAccounts := batchCreateAccounts emptyStoreClient;
       batchCreateContacts := batchCreateContacts emptyStoreClient;
       batchCreateAssociations := batchCreateAssociations emptyStoreClient |} in
  processCSVHighPerformance hubspot [inactiveRow] (mkState initialStats [])
  = (Thrown serverError,
     mkState (incrErrors initialStats)
       [CSearchAccounts [str "U2"]; CSearchContacts [str "u2@b.com"];
        CIdentifyDeactivations]).
Proof.
  cbv zeta.
  eapply (deactivation_failure_aborts _ [inactiveRow] (mkState initialStats [])
            (mkState initialStats
               [CSearchAccounts [str "U2"]; CSearchContacts [str "u2@b.com"]])
            (mkState initialStats
               [CSearchAccounts [str "U2"]; CSearchContacts [str "u2@b.com"];
                CIdentifyDeactivations])
            {| accountIds := ∅; contactEmails := ∅ |} serverError);
    reflexivity.
Defined.

End PhaseFacts.

(** ** The alias [processCsv] *)

Module AliasFacts.
Import Integration Alias Phases Execution Validation.



Section WithClient.
Context {W : Type} (hubspot : HubSpot W).
Context (ensureValidToken : option (M W unit)).
Context (errorToString : Error → jsstring).


End WithClient.


(** The run of the end-to-end test "should handle mixed create and update
    scenarios", with one more row that validation rejects. *)
Example processCsv_counts_rejected_rows :
  processCsv
    (storeClient [mkRemote (str "existing123") [(str "id", VString (str "U2"))]]
                 [mkRemote (str "contact123") [(str "email", VString (str "u2@b.com"))]])
    None (λ _, str "Error")
    (Some (Returned [scenarioRow "MP" "true" "2"; inactiveRow; badEmailRow]))
    (mkState initialStats [])
  = (Some (Returned (CsvDone 3 1 1 0)),
     mkState (mkStats 1 1 1 1 0 0 2)
       [ CSearchAccounts [str "U1"; str "U2"];
         CSearchContacts [str "a@b.com"; str "u2@b.com"];
         CIdentifyDeactivations;
         CCreateAccounts 1; CCreateContacts 1; CCreateAssociations 1;
         CCreateAssociations 1 ]).
Proof. vm_compute. reflexivity. Qed.

End AliasFacts.

(** ** Tokens *)

Module TokenFacts.
Import Integration Client Tokens Wired.

Lemma getOwn_setProp (k k' : jsstring) (v : value) (o : obj) :
  getOwn k' (setProp k v o) = if bool_decide (k = k') then Some v else getOwn k' o.
Proof.
  induction o as [|[k0 v0] o IH]; cbn [setProp getOwn].
  - reflexivity.
  - destruct (bool_decide_reflect (k0 = k)) as [->|Hne]; cbn [getOwn].
    + destruct (bool_decide_reflect (k = k')) as [->|Hne']; reflexivity.
    + rewrite IH.
      destruct (bool_decide_reflect (k0 = k')) as [->|Hne'].
      * destruct (bool_decide_reflect (k = k')) as [->|_]; [by destruct Hne|done].
      * reflexivity.
Qed.

Lemma get_setProp (k k' : jsstring) (v : value) (o : obj) :
  get (setProp k v o) k' = if bool_decide (k = k') then v else get o k'.
Proof.
  unfold get. rewrite getOwn_setProp.
  by destruct (bool_decide (k = k')).
Qed.

Section WithEnv.
Context {W : Type} (environment : Env W).

Lemma initializeClient_cases (st : ClientState W) :
  (truthy (token "access_token" st) = true ∧
   initializeClient st
   = (Returned tt, {| tokens := tokens st;
                      client := Some (token "access_token" st);
                      env := env st |})) ∨
  (truthy (token "access_token" st) = false ∧
   initializeClient st
   = (Thrown (mkError None (str "No access token available")), st)).
Proof.
  unfold initializeClient.
  destruct (truthy (token "access_token" st)); [left|right]; done.
Qed.

(** The ways [refreshAccessToken] settles. *)
Lemma refreshAccessToken_cases (st : ClientState W) :
  (truthy (token "refresh_token" st) = false ∧
   refreshAccessToken environment st
   = (Thrown (mkError None (str "No refresh token available")), st)) ∨
  (∃ t, tokens st = Some t ∧ truthy (get t (str "refresh_token")) = true ∧
     match fetchToken environment (get t (str "refresh_token")) (env st) with
     | (Thrown e, w) =>
         refreshAccessToken environment st
         = (Thrown e, {| tokens := Some t; client := client st; env := w |})
     | (Returned response, w) =>
         if ok response then
           let t' := setProp (str "expires_in") (get (json response) (str "expires_in"))
                       (setProp (str "access_token")
                          (get (json response) (str "access_token")) t) in
           match writeTokenFile environment t' w with
           | (Thrown e, w') =>
               refreshAccessToken environment st
               = (Thrown e, {| tokens := Some t'; client := client st; env := w' |})
           | (Returned _, w') =>
               if truthy (get (json response) (str "access_token")) then
                 refreshAccessToken environment st
                 = (Returned tt,
                    {| tokens := Some t';
                       client := Some (get (json response) (str "access_token"));
                       env := w' |})
               else
                 refreshAccessToken environment st
                 = (Thrown (mkError None (str "No access token available")),
                    {| tokens := Some t'; client := client st; env := w' |})
           end
         else
           refreshAccessToken environment st
           = (Thrown (mkError None
                        (str "Token refresh failed: " ++ natToString (status response)
                         ++ str " " ++ statusText response)),
              {| tokens := Some t; client := client st; env := w |})
     end).
Proof.
  remember (refreshAccessToken environment st) as r eqn:Er.
  unfold refreshAccessToken in Er.
  destruct (truthy (token "refresh_token" st)) eqn:Hr; [right|left; by subst].
  unfold token in Hr, Er. destruct (tokens st) as [t|] eqn:Ht; [|discriminate].
  exists t. split; [done|]. split; [done|].
  unfold bind at 1 in Er. unfold liftEnv at 1 in Er. rewrite Ht in Er.
  destruct (fetchToken environment (get t (str "refresh_token")) (env st))
    as [[response|e] w] eqn:Hf; [|done].
  destruct (ok response) eqn:Hok; cbn [negb] in Er; [|done].
  cbn [tokens] in Er.
  unfold saveTokens, bind, setTokens, liftEnv in Er. cbn [tokens client env] in Er.
  cbn zeta.
  destruct (writeTokenFile environment _ w) as [[[]|e] w'] eqn:Hw; [|done].
  unfold initializeClient, token in Er. cbn [tokens client env] in Er.
  rewrite get_setProp in Er.
  replace (bool_decide (str "expires_in" = str "access_token")) with false in Er
    by (symmetry; by apply bool_decide_eq_false_2).
  rewrite get_setProp in Er.
  replace (bool_decide (str "access_token" = str "access_token")) with true in Er
    by (symmetry; by apply bool_decide_eq_true_2).
  by destruct (truthy (get (json response) (str "access_token"))).
Qed.

Lemma refreshAccessToken_returned (st st' : ClientState W) :
  refreshAccessToken environment st = (Returned tt, st') →
  ∃ t t' w,
    tokens st = Some t ∧ tokens st' = Some t' ∧
    (∀ k, k ≠ str "access_token" → k ≠ str "expires_in" → get t' k = get t k) ∧
    truthy (get t' (str "access_token")) = true ∧
    client st' = Some (get t' (str "access_token")) ∧
    writeTokenFile environment t' w = (Returned tt, env st').
Proof.
  intros Hrun.
  destruct (refreshAccessToken_cases st) as [[_ H]|(t & Ht & Hr & H)].
  { rewrite H in Hrun. discriminate. }
  destruct (fetchToken environment _ (env st)) as [[response|e] w];
    [|rewrite H in Hrun; discriminate].
  destruct (ok response); [|rewrite H in Hrun; discriminate].
  cbn zeta in H.
  destruct (writeTokenFile environment _ w) as [[[]|e] w'] eqn:Hw;
    [|rewrite H in Hrun; discriminate].
  destruct (truthy (get (json response) (str "access_token"))) eqn:Hacc;
    [|rewrite H in Hrun; discriminate].
  rewrite H in Hrun. injection Hrun as <-.
  exists t, (setProp (str "expires_in") (get (json response) (str "expires_in"))
               (setProp (str "access_token")
                  (get (json response) (str "access_token")) t)), w.
  cbn [tokens client env].
  assert (Hget : get (setProp (str "expires_in") (get (json response) (str "expires_in"))
                        (setProp (str "access_token")
                           (get (json response) (str "access_token")) t))
                   (str "access_token")
                 = get (json response) (str "access_token")).
  { rewrite !get_setProp.
    replace (bool_decide (str "expires_in" = str "access_token")) with false
      by (symmetry; by apply bool_decide_eq_false_2).
    by rewrite bool_decide_eq_true_2. }
  split; [done|]. split; [reflexivity|]. split.
  { intros k Ha He. rewrite !get_setProp.
    rewrite (bool_decide_eq_false_2 (str "expires_in" = k)) by congruence.
    by rewrite (bool_decide_eq_false_2 (str "access_token" = k)) by congruence. }
  rewrite Hget. repeat split; done.
Qed.

(** X20.  A refresh that succeeds replaces the access token and its life time
    only: the refresh token and every other stored property are kept, the
    new tokens are what was written to the token file, and the client is
    rebuilt on the new access token, which is truthy. *)
Theorem refresh_replaces_only_the_access_token (st st' : ClientState W) :
  refreshAccessToken environment st = (Returned tt, st') →
  ∃ t t',
    tokens st = Some t ∧ tokens st' = Some t' ∧
    get t' (str "refresh_token") = get t (str "refresh_token") ∧
    (∀ k, k ≠ str "access_token" → k ≠ str "expires_in" → get t' k = get t k) ∧
    truthy (get t' (str "access_token")) = true ∧
    client st' = Some (get t' (str "access_token")) ∧
    ∃ w, writeTokenFile environment t' w = (Returned tt, env st').
Proof.
  intros Hrun.
  destruct (refreshAccessToken_returned _ _ Hrun) as (t & t' & w & Ht & Ht' & Hk & Ha & Hc & Hw).
  exists t, t'. repeat split; try done.
  - by apply Hk.
  - by exists w.
Qed.

(** X21.  A refresh that fails never replaces the client: whatever goes wrong
    (no refresh token, the endpoint, the token file, a response without an
    access token), the client object is the one from before.  Without a
    refresh token nothing is asked or written at all. *)
Theorem failed_refresh_keeps_the_client (st st' : ClientState W) (e : Error) :
  refreshAccessToken environment st = (Thrown e, st') →
  client st' = client st ∧
  (truthy (token "refresh_token" st) = false →
   st' = st ∧ e = mkError None (str "No refresh token available")).
Proof.
  intros Hrun.
  destruct (refreshAccessToken_cases st) as [[Hr H]|(t & Ht & Hr & H)].
  { rewrite H in Hrun. injection Hrun as <- <-. done. }
  assert (Hr' : truthy (token "refresh_token" st) = true)
    by (unfold token; by rewrite Ht).
  split; [|intros Hno; congruence].
  destruct (fetchToken environment _ (env st)) as [[response|e0] w];
    [|rewrite H in Hrun; by injection Hrun as <- <-].
  destruct (ok response); [|rewrite H in Hrun; by injection Hrun as <- <-].
  cbn zeta in H.
  destruct (writeTokenFile environment _ w) as [[[]|e0] w'];
    [|rewrite H in Hrun; by injection Hrun as <- <-].
  destruct (truthy (get (json response) (str "access_token")));
    [rewrite H in Hrun; discriminate|].
  rewrite H in Hrun. by injection Hrun as <- <-.
Qed.

(** X22.  [isAuthenticated] never throws: it settles with a boolean whatever the
    token file, the platform and the token endpoint do.  When it answers
    [true], the client is built on the truthy access token of the loaded
    tokens, so that [ensureValidToken] has nothing left to do. *)
Theorem isAuthenticated_never_throws (st : ClientState W) :
  ∃ b st',
    isAuthenticated environment st = (Returned b, st') ∧
    (b = true →
     truthy (token "access_token" st') = true ∧
     client st' = Some (token "access_token" st') ∧
     ensureValidToken st' = (Returned tt, st')).
Proof.
  unfold isAuthenticated, bind at 1.
  assert (Hload : ∃ o st0, loadTokens environment st = (Returned o, st0)).
  { unfold loadTokens, tryCatch, bind, liftEnv, setTokens, ret.
    destruct (readTokenFile environment (env st)) as [[stored|e] w]; eauto. }
  destruct Hload as (o & st0 & ->).
  destruct (truthy (token "access_token" st0)) eqn:Hacc;
    [|exists false, st0; split; [done|discriminate]].
  unfold tryCatch at 1, bind at 1.
  destruct (initializeClient_cases st0) as [[_ ->]|[Hno _]]; [|congruence].
  unfold bind at 1, liftEnv at 1. cbn [client env tokens].
  destruct (getPage environment (token "access_token" st0) (env st0))
    as [[[]|e] w] eqn:Hpage.
  - exists true, {| tokens := tokens st0; client := Some (token "access_token" st0);
                    env := w |}.
    split; [done|]. intros _. unfold ensureValidToken, token in *. cbn. done.
  - destruct (is401 e); [|eexists false, _; split; [done|discriminate]].
    unfold tryCatch, bind.
    match goal with |- context [refreshAccessToken environment ?s] =>
      destruct (refreshAccessToken environment s) as [[[]|e'] st2] eqn:Href end;
      [|eexists false, _; split; [done|discriminate]].
    exists true, st2. split; [done|]. intros _.
    destruct (refreshAccessToken_returned _ _ Href)
      as (t & t' & w' & Ht & Ht' & Hk & Ha & Hc & Hw).
    unfold ensureValidToken, token. rewrite Ht', Hc. done.
Qed.

(** X23.  A client without a client object and without a loaded access token
    fails before any call: the create and search methods throw [No access
    token available] from the unchanged state, whatever the token file
    holds; the error has no code 401, so no refresh is attempted. *)
Theorem unloaded_client_fails_before_any_call (api : Api W) (st : ClientState W)
    (fuel : nat) :
  client st = None →
  truthy (token "access_token" st) = false →
  let failure : outcome (list RemoteObject) :=
    Thrown (mkError None (str "No access token available")) in
  (∀ accountsData,
     batchCreateAccounts (wiredSdk environment api) (S fuel) accountsData st
     = (Some failure, st)) ∧
  (∀ accountIds,
     batchSearchAccounts (wiredSdk environment api) (S fuel) accountIds st
     = (Some failure, st)) ∧
  searchActiveAccounts (wiredSdk environment api) (S fuel) st = (Some failure, st).
Proof.
  intros Hc Ht failure.
  assert (He : Client.ensureValidToken (wiredSdk environment api) st
               = (Thrown (mkError None (str "No access token available")), st)).
  { cbn [wiredSdk Client.ensureValidToken]. unfold Tokens.ensureValidToken.
    rewrite Hc. unfold initializeClient. by rewrite Ht. }
  repeat split; intros; cbn [batchCreateAccounts batchSearchAccounts searchActiveAccounts];
    by rewrite He.
Qed.

End WithEnv.

Lemma refresh_replaces_only_the_access_token_witness :
  let refreshed := setProp (str "access_token") (VString (str "new")) staleTokens in
  let st := {| tokens := Some staleTokens; client := Some (VString (str "old"));
               env := (None : option obj) |} in
  let st' := {| tokens := Some refreshed; client := Some (VString (str "new"));
                env := Some refreshed |} in
  ∃ t t',
    tokens st = Some t ∧ tokens st' = Some t' ∧
    get t' (str "refresh_token") = get t (str "refresh_token") ∧
    (∀ k, k ≠ str "access_token" → k ≠ str "expires_in" → get t' k = get t k) ∧
    truthy (get t' (str "access_token")) = true ∧
    client st' = Some (get t' (str "access_token")) ∧
    ∃ w, writeTokenFile (grantingEnv (str "new")) t' w = (Returned tt, env st').
Proof.
  intros refreshed st st'.
  apply (refresh_replaces_only_the_access_token (grantingEnv (str "new")) st st').
  reflexivity.
Defined.

(** A refresh that reaches the endpoint and fails on the token file: the
    new tokens are in memory, the file is as it was, and the client is still
    the one built on the old access token. *)
Lemma failed_refresh_keeps_the_client_witness :
  let refreshed := setProp (str "access_token") (VString (str "new")) staleTokens in
  let st := {| tokens := Some staleTokens; client := Some (VString (str "old"));
               env := Some staleTokens |} in
  let st' := {| tokens := Some refreshed; client := Some (VString (str "old"));
                env := Some staleTokens |} in
  refreshAccessToken (readOnlyEnv (str "new")) st = (Thrown diskFull, st') ∧
  client st' = Some (VString (str "old")) ∧
  tokens st' ≠ tokens st.
Proof.
  intros refreshed st st'.
  assert (Hrun : refreshAccessToken (readOnlyEnv (str "new")) st = (Thrown diskFull, st'))
    by reflexivity.
  split; [exact Hrun|]. split; [|discriminate].
  apply (failed_refresh_keeps_the_client (readOnlyEnv (str "new")) st st' diskFull Hrun).
Defined.

Lemma unloaded_client_fails_before_any_call_witness :
  let st := {| tokens := None; client := None; env := Some staleTokens |} in
  let failure : outcome (list RemoteObject) :=
    Thrown (mkError None (str "No access token available")) in
  (∀ accountsData,
     batchCreateAccounts (wiredSdk (grantingEnv (str "new")) (strictApi (str "new"))) 1
       accountsData st
     = (Some failure, st)) ∧
  (∀ accountIds,
     batchSearchAccounts (wiredSdk (grantingEnv (str "new")) (strictApi (str "new"))) 1
       accountIds st
     = (Some failure, st)) ∧
  searchActiveAccounts (wiredSdk (grantingEnv (str "new")) (strictApi (str "new"))) 1 st
  = (Some failure, st).
Proof.
  apply (unloaded_client_fails_before_any_call (grantingEnv (str "new"))
           (strictApi (str "new"))
           {| tokens := None; client := None; env := Some staleTokens |} 0%nat);
    reflexivity.
Defined.

(** A client whose stored access token has expired: the first creation is
    answered 401, the token is refreshed and written to the file, and the
    second attempt, made with the new token, is accepted. *)
Example stale_token_is_refreshed_and_the_call_retried :
  let refreshed := setProp (str "access_token") (VString (str "new")) staleTokens in
  batchCreateAccounts (wiredSdk (grantingEnv (str "new")) (strictApi (str "new"))) 2
    oneAccount
    {| tokens := Some staleTokens; client := Some (VString (str "old")); env := None |}
  = (Some (Returned (map (mkRemote (str "new")) oneAccount)),
     {| tokens := Some refreshed; client := Some (VString (str "new"));
        env := Some refreshed |}).
Proof. reflexivity. Qed.

(** The same tokens in the file only: the client never reads it. *)
Example authenticated_after_one_refresh :
  let refreshed := setProp (str "access_token") (VString (str "new")) staleTokens in
  isAuthenticated (grantingEnv (str "new"))
    {| tokens := None; client := None; env := Some staleTokens |}
  = (Returned true,
     {| tokens := Some refreshed; client := Some (VString (str "new"));
        env := Some refreshed |}).
Proof. reflexivity. Qed.

End TokenFacts.

(** ** Associations *)

Module AssociationFacts.
Import Integration Associations.

Lemma mapLookup_mapSet (k k' : value) (v : jsstring) (m : list (value * jsstring)) :
  mapLookup k' (mapSet k v m)
  = if bool_decide (k = k') then Some v else mapLookup k' m.
Proof.
  induction m as [|[k0 v0] m IH]; cbn [mapSet mapLookup].
  - reflexivity.
  - destruct (bool_decide_reflect (k0 = k)) as [->|Hne]; cbn [mapLookup].
    + destruct (bool_decide_reflect (k = k')) as [->|Hne']; reflexivity.
    + rewrite IH.
      destruct (bool_decide_reflect (k0 = k')) as [->|Hne'].
      * destruct (bool_decide_reflect (k = k')) as [->|_]; [by destruct Hne|done].
      * reflexivity.
Qed.

(** An entry of a lookup map comes from a result that carries its key. *)
Lemma idMap_lookup (key : jsstring) (remoteResults : list RemoteObject)
    (k : value) (v : jsstring) :
  mapLookup k (idMap key remoteResults) = Some v →
  ∃ r, r ∈ remoteResults ∧ get (properties r) key = k ∧ hsId r = v.
Proof.
  unfold idMap.
  assert (Hgen : ∀ m,
    (∀ k v, mapLookup k m = Some v →
       ∃ r, r ∈ remoteResults ∧ get (properties r) key = k ∧ hsId r = v) →
    ∀ l, l ⊆ remoteResults →
    mapLookup k
      (fold_left (λ m r, if truthy (get (properties r) key)
                         then mapSet (get (properties r) key) (hsId r) m else m) l m)
    = Some v →
    ∃ r, r ∈ remoteResults ∧ get (properties r) key = k ∧ hsId r = v).
  { intros m Hm l. revert m Hm.
    induction l as [|r l IH]; intros m Hm Hsub; cbn [fold_left].
    - apply Hm.
    - apply IH.
      + intros k1 v1. destruct (truthy (get (properties r) key)); [|apply Hm].
        rewrite mapLookup_mapSet.
        destruct (bool_decide_reflect (get (properties r) key = k1)) as [<-|_];
          [|apply Hm].
        intros [= <-]. exists r. split; [|done]. apply Hsub. by left.
      + intros x Hx. apply Hsub. by right. }
  apply (Hgen [] ltac:(intros ? ? [=]) remoteResults). done.
Qed.

Lemma resolveStep_cases (accountMap contactMap : list (value * jsstring))
    (t : value) (inputs : list AssociationInput) (pair : AssociationPair) :
  resolveStep accountMap contactMap t inputs pair = inputs ∨
  ∃ a c,
    mapLookup (Processor.accountId pair) accountMap = Some a ∧
    mapLookup (contactEmail pair) contactMap = Some c ∧
    a ≠ [] ∧ c ≠ [] ∧
    resolveStep accountMap contactMap t inputs pair
    = inputs ++ [ {| fromId := c; toId := a; type := t |} ].
Proof.
  unfold resolveStep.
  destruct (mapLookup (Processor.accountId pair) accountMap) as [a|]; [|by left].
  destruct (mapLookup (contactEmail pair) contactMap) as [c|]; [|by left].
  destruct a as [|x a]; [by left|]. destruct c as [|y c]; [by left|].
  right. by exists (x :: a), (y :: c).
Qed.

Lemma resolve_fold (accountMap contactMap : list (value * jsstring)) (t : value)
    (pairs : list AssociationPair) (acc : list AssociationInput) :
  ∃ new,
    fold_left (resolveStep accountMap contactMap t) pairs acc = acc ++ new ∧
    (length new ≤ length pairs)%nat ∧
    ∀ input, input ∈ new →
      type input = t ∧ toId input ≠ [] ∧ fromId input ≠ [] ∧
      ∃ pair, pair ∈ pairs ∧
        mapLookup (Processor.accountId pair) accountMap = Some (toId input) ∧
        mapLookup (contactEmail pair) contactMap = Some (fromId input).
Proof.
  revert acc. induction pairs as [|pair pairs IH]; intros acc; cbn [fold_left].
  - exists []. rewrite app_nil_r. split; [done|]. split; [done|].
    intros input Hin. by apply elem_of_nil in Hin.
  - destruct (resolveStep_cases accountMap contactMap t acc pair)
      as [->|(a & c & Ha & Hc & Hna & Hnc & ->)].
    + destruct (IH acc) as (new & -> & Hlen & Hnew).
      exists new. split; [done|]. split; [cbn; lia|].
      intros input Hin. destruct (Hnew input Hin) as (? & ? & ? & p & Hp & ? & ?).
      repeat split; try done. exists p. split; [by right|done].
    + destruct (IH (acc ++ [ {| fromId := c; toId := a; type := t |} ]))
        as (new & -> & Hlen & Hnew).
      exists ({| fromId := c; toId := a; type := t |} :: new).
      rewrite <- app_assoc. split; [done|]. split; [cbn; lia|].
      intros input Hin. apply elem_of_cons in Hin as [->|Hin].
      * cbn. repeat split; try done. exists pair. split; [by left|done].
      * destruct (Hnew input Hin) as (? & ? & ? & p & Hp & ? & ?).
        repeat split; try done. exists p. split; [by right|done].
Qed.

Lemma resolveInputs_length (pairs : list AssociationPair)
    (accountResults contactResults : list RemoteObject) (t : value) :
  (length (resolveInputs pairs accountResults contactResults t) ≤ length pairs)%nat.
Proof.
  unfold resolveInputs.
  destruct (resolve_fold (idMap (str "id") accountResults)
              (idMap (str "email") contactResults) t pairs [])
    as (new & -> & Hlen & _).
  done.
Qed.

(** X24.  Every association that is asked for goes from a contact to an account
    that the batch was answered with: its type is the discovered type, its
    target the remote identifier of an account result whose [id] property is
    the account id of one of the pairs, its source the remote identifier of
    a contact result whose [email] property is the email of that pair, and
    neither identifier is empty. *)
Theorem association_inputs_link_returned_objects (pairs : list AssociationPair)
    (accountResults contactResults : list RemoteObject) (t : value)
    (input : AssociationInput) :
  input ∈ resolveInputs pairs accountResults contactResults t →
  type input = t ∧
  ∃ pair account contact,
    pair ∈ pairs ∧ account ∈ accountResults ∧ contact ∈ contactResults ∧
    get (properties account) (str "id") = Processor.accountId pair ∧
    get (properties contact) (str "email") = contactEmail pair ∧
    toId input = hsId account ∧ toId input ≠ [] ∧
    fromId input = hsId contact ∧ fromId input ≠ [].
Proof.
  unfold resolveInputs.
  destruct (resolve_fold (idMap (str "id") accountResults)
              (idMap (str "email") contactResults) t pairs [])
    as (new & -> & _ & Hnew).
  intros Hin. destruct (Hnew input Hin) as (Ht & Hto & Hfrom & pair & Hp & Ha & Hc).
  split; [done|].
  destruct (idMap_lookup _ _ _ _ Ha) as (account & Hacc & Hid & Hh).
  destruct (idMap_lookup _ _ _ _ Hc) as (contact & Hcon & Hem & Hh').
  exists pair, account, contact. repeat split; done.
Qed.

Section WithSdk.
Context {W : Type} (sdk : AssocSdk W).

Lemma createAll_returns (inputs : list AssociationInput) (results : list RemoteObject)
    (st : AssocState W) :
  ∃ created st',
    createAll sdk inputs results st = (Returned (results ++ created), st') ∧
    (length created ≤ length inputs)%nat ∧
    associationTypeId st' = associationTypeId st.
Proof.
  revert results st. induction inputs as [|input inputs IH]; intros results st.
  - exists [], st. cbn. by rewrite app_nil_r.
  - cbn [createAll]. unfold bind at 1, tryCatch at 1, bind at 1, onPlatform at 1.
    destruct (associationCreate sdk (fromId input) (toId input) (type input) (platform st))
      as [[response|e] w].
    + destruct (IH (results ++ [response])
                  {| associationTypeId := associationTypeId st; platform := w |})
        as (created & st' & Hrun & Hlen & Hid).
      exists (response :: created), st'. cbn [ret]. rewrite Hrun, <- app_assoc.
      split; [done|]. split; [cbn; lia|done].
    + destruct (IH results {| associationTypeId := associationTypeId st; platform := w |})
        as (created & st' & Hrun & Hlen & Hid).
      exists created, st'. cbn [ret]. rewrite Hrun.
      split; [done|]. split; [cbn; lia|done].
Qed.

(** The ways [getAssociationTypeId] settles. *)
Lemma getAssociationTypeId_cases (st : AssocState W) :
  (truthy (associationTypeId st) = true ∧
   getAssociationTypeId sdk st = (Returned (associationTypeId st), st)) ∨
  (truthy (associationTypeId st) = false ∧
   match assocEnsureValidToken sdk (platform st) with
   | (Thrown e, w) =>
       getAssociationTypeId sdk st
       = (Thrown e, {| associationTypeId := associationTypeId st; platform := w |})
   | (Returned _, w) =>
       match definitionsGetAll sdk w with
       | (Thrown _, w') =>
           getAssociationTypeId sdk st
           = (Returned (VNumber 1), {| associationTypeId := VNumber 1; platform := w' |})
       | (Returned definitions, w') =>
           match List.find (isCustom) definitions with
           | Some def =>
               getAssociationTypeId sdk st
               = (Returned (typeId def),
                  {| associationTypeId := typeId def; platform := w' |})
           | None =>
               getAssociationTypeId sdk st
               = (Returned (VNumber 1),
                  {| associationTypeId := VNumber 1; platform := w' |})
           end
       end
   end).
Proof.
  remember (getAssociationTypeId sdk st) as r eqn:Er.
  unfold getAssociationTypeId in Er.
  destruct (truthy (associationTypeId st)) eqn:Ht; [left; by subst|right].
  split; [done|].
  unfold bind at 1, onPlatform at 1 in Er.
  destruct (assocEnsureValidToken sdk (platform st)) as [[[]|e] w]; [|done].
  unfold tryCatch, bind, onPlatform, setTypeId, ret in Er.
  cbn [platform associationTypeId] in Er.
  destruct (definitionsGetAll sdk w) as [[definitions|e] w']; [|done].
  by destruct (List.find isCustom definitions).
Qed.

(** X25.  The association type is discovered once: what [getAssociationTypeId]
    returns is what it has stored, and when that is truthy the next call
    returns it without touching the platform.  The type is the stored one,
    or the [typeId] of the first user-defined definition with a label, or
    the fallback 1. *)
Theorem association_type_is_discovered_once (st st' : AssocState W) (t : value) :
  getAssociationTypeId sdk st = (Returned t, st') →
  associationTypeId st' = t ∧
  (truthy t = true → getAssociationTypeId sdk st' = (Returned t, st')) ∧
  (t = associationTypeId st ∨ t = VNumber 1 ∨
   ∃ definitions w w' def,
     definitionsGetAll sdk w = (Returned definitions, w') ∧
     List.find isCustom definitions = Some def ∧ t = typeId def).
Proof.
  intros Hrun.
  assert (Hid : associationTypeId st' = t ∧
                (t = associationTypeId st ∨ t = VNumber 1 ∨
                 ∃ definitions w w' def,
                   definitionsGetAll sdk w = (Returned definitions, w') ∧
                   List.find isCustom definitions = Some def ∧ t = typeId def)).
  { destruct (getAssociationTypeId_cases st) as [[_ H]|[_ H]].
    { rewrite H in Hrun. injection Hrun as <- <-. split; [done|by left]. }
    destruct (assocEnsureValidToken sdk (platform st)) as [[[]|e] w];
      [|rewrite H in Hrun; discriminate].
    destruct (definitionsGetAll sdk w) as [[definitions|e] w'] eqn:Hdefs.
    - destruct (List.find isCustom definitions) as [def|] eqn:Hfind;
        rewrite H in Hrun; injection Hrun as <- <-; (split; [done|]).
      + right; right. by exists definitions, w, w', def.
      + right; by left.
    - rewrite H in Hrun. injection Hrun as <- <-. split; [done|]. right; by left. }
  destruct Hid as [Hid Hfrom]. split; [done|]. split; [|done].
  intros Htruthy.
  destruct (getAssociationTypeId_cases st') as [[_ H]|[Hno _]].
  - by rewrite H, Hid.
  - rewrite Hid in Hno. congruence.
Qed.

(** X26.  With a token check that passes, [batchCreateAssociations] settles
    within its first call, with a result: creations that fail, with a 401
    too, are left out, so that nothing is thrown, no token is refreshed and
    no call is made again; there are at most as many results as pairs. *)
Theorem associations_settle_in_one_call (pairs : list AssociationPair)
    (accountResults contactResults : list RemoteObject) (st : AssocState W) :
  (∀ w, ∃ w', assocEnsureValidToken sdk w = (Returned tt, w')) →
  ∃ results st',
    batchCreateAssociations sdk 1 pairs accountResults contactResults st
    = (Some (Returned results), st') ∧
    (length results ≤ length pairs)%nat.
Proof.
  intros Hensure. cbn [batchCreateAssociations].
  unfold onPlatform at 1.
  destruct (Hensure (platform st)) as (w1 & ->).
  destruct (length pairs =? 0)%nat eqn:Hn.
  { eexists [], _. split; [done|cbn; lia]. }
  unfold associateAll, bind.
  match goal with |- context [getAssociationTypeId sdk ?s] =>
    destruct (getAssociationTypeId_cases s) as [[_ ->]|[_ H]] end.
  - destruct (length (resolveInputs _ _ _ _) =? 0)%nat.
    { eexists [], _. split; [done|cbn; lia]. }
    match goal with |- context [createAll sdk ?i ?r ?s] =>
      destruct (createAll_returns i r s) as (created & st' & -> & Hlen & _) end.
    exists created, st'. split; [done|].
    etrans; [exact Hlen|apply resolveInputs_length].
  - cbn [platform] in H. destruct (Hensure w1) as (w2 & Hw2). rewrite Hw2 in H.
    assert (Hret : ∃ t st2,
      getAssociationTypeId sdk {| associationTypeId := associationTypeId st; platform := w1 |}
      = (Returned t, st2)).
    { destruct (definitionsGetAll sdk w2) as [[definitions|e] w3]; [|eauto].
      destruct (List.find isCustom definitions); eauto. }
    destruct Hret as (t & st2 & ->).
    destruct (length (resolveInputs _ _ _ _) =? 0)%nat.
    { eexists [], _. split; [done|cbn; lia]. }
    match goal with |- context [createAll sdk ?i ?r ?s] =>
      destruct (createAll_returns i r s) as (created & st' & -> & Hlen & _) end.
    exists created, st'. split; [done|].
    etrans; [exact Hlen|apply resolveInputs_length].
Qed.

End WithSdk.

Lemma association_inputs_link_returned_objects_witness :
  let pairs := [mkPair (VString (str "U1")) (VString (str "a@b.com"))] in
  let accountResults := [mkRemote (str "101") [(str "id", VString (str "U1"))]] in
  let contactResults := [mkRemote (str "201") [(str "email", VString (str "a@b.com"))]] in
  let input := {| fromId := str "201"; toId := str "101"; type := VNumber 1 |} in
  type input = VNumber 1 ∧
  ∃ pair account contact,
    pair ∈ pairs ∧ account ∈ accountResults ∧ contact ∈ contactResults ∧
    get (properties account) (str "id") = Processor.accountId pair ∧
    get (properties contact) (str "email") = contactEmail pair ∧
    toId input = hsId account ∧ toId input ≠ [] ∧
    fromId input = hsId contact ∧ fromId input ≠ [].
Proof.
  intros pairs accountResults contactResults input.
  apply (association_inputs_link_returned_objects pairs accountResults contactResults).
  vm_compute. by left.
Defined.

Lemma association_type_is_discovered_once_witness :
  let sdk := refusingSdk (str "201") Client.unauthorized in
  let st := {| associationTypeId := VUndefined;
               platform := ([] : list (jsstring * jsstring)) |} in
  let st' := {| associationTypeId := VNumber 1;
                platform := ([] : list (jsstring * jsstring)) |} in
  associationTypeId st' = VNumber 1 ∧
  (truthy (VNumber 1) = true → getAssociationTypeId sdk st' = (Returned (VNumber 1), st')) ∧
  (VNumber 1 = associationTypeId st ∨ VNumber 1 = VNumber 1 ∨
   ∃ definitions w w' def,
     definitionsGetAll sdk w = (Returned definitions, w') ∧
     List.find isCustom definitions = Some def ∧ VNumber 1 = typeId def).
Proof.
  intros sdk st st'.
  apply (association_type_is_discovered_once sdk st st' (VNumber 1)).
  reflexivity.
Defined.

Lemma associations_settle_in_one_call_witness :
  let sdk := refusingSdk (str "201") Client.unauthorized in
  let pairs := [mkPair (VString (str "U1")) (VString (str "a@b.com"))] in
  let accountResults := [mkRemote (str "101") [(str "id", VString (str "U1"))]] in
  let contactResults := [mkRemote (str "201") [(str "email", VString (str "a@b.com"))]] in
  ∃ results st',
    batchCreateAssociations sdk 1 pairs accountResults contactResults
      {| associationTypeId := VUndefined; platform := [] |}
    = (Some (Returned results), st') ∧
    (length results ≤ length pairs)%nat.
Proof.
  intros sdk pairs accountResults contactResults.
  apply (associations_settle_in_one_call sdk pairs accountResults contactResults).
  intros w. by exists w.
Defined.

(** Two pairs to associate, the platform answering 401 to the creation from
    the first contact: that association is left out, the other is created,
    and the token is not refreshed. *)
Example refused_association_is_left_out :
  batchCreateAssociations (refusingSdk (str "201") Client.unauthorized) 1
    [mkPair (VString (str "U1")) (VString (str "a@b.com"));
     mkPair (VString (str "U2")) (VString (str "c@d.com"))]
    [mkRemote (str "101") [(str "id", VString (str "U1"))];
     mkRemote (str "102") [(str "id", VString (str "U2"))]]
    [mkRemote (str "201") [(str "email", VString (str "a@b.com"))];
     mkRemote (str "202") [(str "email", VString (str "c@d.com"))]]
    {| associationTypeId := VUndefined; platform := [] |}
  = (Some (Returned [mkRemote (str "202-102") []]),
     {| associationTypeId := VNumber 1;
        platform := [(str "201", str "101"); (str "202", str "102")] |}).
Proof. reflexivity. Qed.

End AssociationFacts.
